(** * The SFTP packet codec of [github.com/pkg/sftp/packet.go]

    A shallow embedding of the wire codec vendored by cfops: the primitive
    big-endian encoders and decoders, the framing functions [sendPacket] and
    [recvPacket], the catalogue of request and response packets with their
    [MarshalBinary] / [UnmarshalBinary] methods, and the [StatVFS] accessors.

    Conventions of the embedding.
    - A Go [uintN] is a [Z]; every conversion and shift that can truncate is
      written with its [mod 2^N].
    - A Go [[]byte] is the [list byte] of its elements. [b[i]] and [b[n:]]
      are bounded by the length of [b]. [b[:n]] is bounded by its capacity:
      in [unmarshalString] it is followed by [b[n:]] with the same [n], in
      the decoders of WRITE and of strings it comes after a test of [n]
      against the length, so that the capacity decides nothing there; in
      [sshFxpDataPacket.MarshalBinary] it does, and the bytes of the
      backing array beyond the length are given to the model.
    - A Go [string] is a [string]; [len] counts its bytes.
    - A run-time panic is [None] in the [option] monad; Go's multiple return
      values [(v, b, err)] are tuples whose last component is an
      [option error].
    - A method with a pointer receiver takes the receiver's value before the
      call and returns its value after the call. *)

#[local] Set Warnings "-register-all".
From Stdlib Require Import ZArith List Lia Bool.
From Stdlib Require Import Strings.String Strings.Byte.
From Stdlib Require Import Sorting.Permutation.
Import ListNotations.

Local Open Scope Z_scope.

(** ** Go values *)

Notation "x <- e ;; k" :=
  (match e with Some x => k | None => None end)
  (at level 61, e at next level, right associativity).
Notation "' p <- e ;; k" :=
  (match e with Some p => k | None => None end)
  (at level 61, p pattern, e at next level, right associativity).

Definition len {A : Type} (l : list A) : Z := Z.of_nat (List.length l).

Definition strlen (s : string) : Z := Z.of_nat (String.length s).

Definition uint8 (z : Z) : Z := z mod 2 ^ 8.
Definition uint32 (z : Z) : Z := z mod 2 ^ 32.
Definition uint64 (z : Z) : Z := z mod 2 ^ 64.

Definition is_uint32 (z : Z) : Prop := 0 <= z < 2 ^ 32.
Definition is_uint64 (z : Z) : Prop := 0 <= z < 2 ^ 64.

(** [byte(v)]: the low eight bits of [v]. *)
Definition byte_of_Z (z : Z) : byte :=
  match Byte.of_N (Z.to_N (uint8 z)) with
  | Some b => b
  | None => x00
  end.

(** [uint32(b)] or [uint64(b)] of a byte [b]. *)
Definition Z_of_byte (b : byte) : Z := Z.of_N (Byte.to_N b).

(** [b[i]] *)
Definition index (b : list byte) (i : Z) : option byte :=
  if (0 <=? i) && (i <? len b) then nth_error b (Z.to_nat i) else None.

(** [b[n:]] *)
Definition slice_from (b : list byte) (n : Z) : option (list byte) :=
  if (0 <=? n) && (n <=? len b) then Some (skipn (Z.to_nat n) b) else None.

(** [b[:n]], for a slice [b] without capacity beyond its length. For a
    slice with spare capacity it is [slice_to] on the elements followed by
    the bytes of the backing array up to the capacity. *)
Definition slice_to (b : list byte) (n : Z) : option (list byte) :=
  if (0 <=? n) && (n <=? len b) then Some (firstn (Z.to_nat n) b) else None.

(** [make([]byte, n)] *)
Definition make (n : Z) : list byte := repeat x00 (Z.to_nat n).

(** The error values the file produces or passes on. [shortPacketError] is
    the package-level variable; [Errorf msg] is a value built by [fmt.Errorf]
    where it is returned, [msg] being its format string; the two [io] values
    are those of [io.ReadFull]. *)
Inductive error : Type :=
| shortPacketError
| Errorf (msg : string)
| io_EOF
| io_ErrUnexpectedEOF.

Definition error_eqb (e1 e2 : error) : bool :=
  match e1, e2 with
  | shortPacketError, shortPacketError => true
  | Errorf m1, Errorf m2 => String.eqb m1 m2
  | io_EOF, io_EOF => true
  | io_ErrUnexpectedEOF, io_ErrUnexpectedEOF => true
  | _, _ => false
  end.

Definition debugDumpTxPacket : bool := false.
Definition debugDumpRxPacket : bool := false.
Definition debugDumpTxPacketBytes : bool := false.
Definition debugDumpRxPacketBytes : bool := false.

(** ** Packet type tags

    Modelled from the spec: the [ssh_FXP_*] constants are declared in a file
    of the package that is not part of the sources at hand (packet.go only
    uses them). The spec (section 6) requires the values of the protocol's
    numeric registry; these are the registry's. *)

Definition ssh_FXP_INIT : byte := byte_of_Z 1.
Definition ssh_FXP_VERSION : byte := byte_of_Z 2.
Definition ssh_FXP_OPEN : byte := byte_of_Z 3.
Definition ssh_FXP_CLOSE : byte := byte_of_Z 4.
Definition ssh_FXP_READ : byte := byte_of_Z 5.
Definition ssh_FXP_WRITE : byte := byte_of_Z 6.
Definition ssh_FXP_LSTAT : byte := byte_of_Z 7.
Definition ssh_FXP_FSTAT : byte := byte_of_Z 8.
Definition ssh_FXP_SETSTAT : byte := byte_of_Z 9.
Definition ssh_FXP_FSETSTAT : byte := byte_of_Z 10.
Definition ssh_FXP_OPENDIR : byte := byte_of_Z 11.
Definition ssh_FXP_READDIR : byte := byte_of_Z 12.
Definition ssh_FXP_REMOVE : byte := byte_of_Z 13.
Definition ssh_FXP_MKDIR : byte := byte_of_Z 14.
Definition ssh_FXP_RMDIR : byte := byte_of_Z 15.
Definition ssh_FXP_REALPATH : byte := byte_of_Z 16.
Definition ssh_FXP_STAT : byte := byte_of_Z 17.
Definition ssh_FXP_RENAME : byte := byte_of_Z 18.
Definition ssh_FXP_READLINK : byte := byte_of_Z 19.
Definition ssh_FXP_SYMLINK : byte := byte_of_Z 20.
Definition ssh_FXP_STATUS : byte := byte_of_Z 101.
Definition ssh_FXP_HANDLE : byte := byte_of_Z 102.
Definition ssh_FXP_DATA : byte := byte_of_Z 103.
Definition ssh_FXP_NAME : byte := byte_of_Z 104.
Definition ssh_FXP_EXTENDED : byte := byte_of_Z 200.

(** ** Primitive codec *)

Definition marshalUint32 (b : list byte) (v : Z) : list byte :=
  b ++ [byte_of_Z (Z.shiftr v 24); byte_of_Z (Z.shiftr v 16);
        byte_of_Z (Z.shiftr v 8); byte_of_Z v].

Definition marshalUint64 (b : list byte) (v : Z) : list byte :=
  marshalUint32 (marshalUint32 b (uint32 (Z.shiftr v 32))) (uint32 v).

Definition marshalString (b : list byte) (v : string) : list byte :=
  marshalUint32 b (uint32 (strlen v)) ++ list_byte_of_string v.

Definition unmarshalUint32 (b : list byte) : option (Z * list byte) :=
  b3 <- index b 3 ;;
  b2 <- index b 2 ;;
  b1 <- index b 1 ;;
  b0 <- index b 0 ;;
  let v := Z.lor (Z.lor (Z.lor (Z_of_byte b3)
                               (uint32 (Z.shiftl (Z_of_byte b2) 8)))
                        (uint32 (Z.shiftl (Z_of_byte b1) 16)))
                 (uint32 (Z.shiftl (Z_of_byte b0) 24)) in
  b' <- slice_from b 4 ;;
  Some (v, b').

Definition unmarshalUint32Safe (b : list byte)
  : option (Z * list byte * option error) :=
  if len b <? 4 then Some (0, [], Some shortPacketError)
  else
    '(v, b) <- unmarshalUint32 b ;;
    Some (v, b, None).

Definition unmarshalUint64 (b : list byte) : option (Z * list byte) :=
  '(h, b) <- unmarshalUint32 b ;;
  '(l, b) <- unmarshalUint32 b ;;
  Some (Z.lor (uint64 (Z.shiftl h 32)) l, b).

Definition unmarshalUint64Safe (b : list byte)
  : option (Z * list byte * option error) :=
  if len b <? 8 then Some (0, [], Some shortPacketError)
  else
    '(v, b) <- unmarshalUint64 b ;;
    Some (v, b, None).

Definition unmarshalString (b : list byte) : option (string * list byte) :=
  '(n, b) <- unmarshalUint32 b ;;
  s <- slice_to b n ;;
  b' <- slice_from b n ;;
  Some (string_of_list_byte s, b').

Definition unmarshalStringSafe (b : list byte)
  : option (string * list byte * option error) :=
  '(n, b, err) <- unmarshalUint32Safe b ;;
  match err with
  | Some e => Some (EmptyString, [], Some e)
  | None =>
      if n >? len b then Some (EmptyString, [], Some shortPacketError)
      else
        s <- slice_to b n ;;
        b' <- slice_from b n ;;
        Some (string_of_list_byte s, b', None)
  end.

(** The value of four big-endian bytes, as [unmarshalUint32] computes it,
    and of two 32-bit halves, as [unmarshalUint64] computes it. *)
Definition be32 (b0 b1 b2 b3 : byte) : Z :=
  Z.lor (Z.lor (Z.lor (Z_of_byte b3)
                      (uint32 (Z.shiftl (Z_of_byte b2) 8)))
               (uint32 (Z.shiftl (Z_of_byte b1) 16)))
        (uint32 (Z.shiftl (Z_of_byte b0) 24)).

Definition be64 (h l : Z) : Z := Z.lor (uint64 (Z.shiftl h 32)) l.

(** *** The reflective encoder [marshal]

    A value passed as [interface{}] is modelled by its dynamic type, as far
    as the type switch and [reflect.Kind] of [marshal] tell them apart.
    [VUint8], [VUint32], [VUint64] and [VString] are values whose dynamic
    type is that very type; a value of a defined type over one of them
    matches no case of the type switch and none of the kind switch, and is
    a [VOther], as are pointers, maps, arrays and all the rest. A struct is
    the list of its fields: an exported field is the value it holds, and a
    field that is not exported is [VUnexported], for which
    [d.Field(i).Interface()] panics before [marshal] is called on it.
    [os.FileInfo] values and [marshalFileInfo] belong to a file that is not
    part of the sources at hand: both are parameters. *)

Section Reflect.

Variable FileInfo : Type.
Variable marshalFileInfo : list byte -> FileInfo -> list byte.

Inductive value : Type :=
| VNil
| VUint8 (v : byte)
| VUint32 (v : Z)
| VUint64 (v : Z)
| VString (v : string)
| VFileInfo (v : FileInfo)
| VStruct (fields : list value)
| VSlice (elems : list value)
| VOther
| VUnexported.

(** A [[]byte] held in an [interface{}]. *)
Definition VBytes (b : list byte) : value := VSlice (map VUint8 b).

Fixpoint marshal (b : list byte) (v : value) {struct v}
  : option (list byte) :=
  match v with
  | VNil => Some b
  | VUint8 v => Some (b ++ [v])
  | VUint32 v => Some (marshalUint32 b v)
  | VUint64 v => Some (marshalUint64 b v)
  | VString v => Some (marshalString b v)
  | VFileInfo v => Some (marshalFileInfo b v)
  | VStruct vs | VSlice vs =>
      (fix each (vs : list value) (b : list byte) : option (list byte) :=
         match vs with
         | [] => Some b
         | v :: vs => b <- marshal b v ;; each vs b
         end) vs b
  | VOther => None
  | VUnexported => None
  end.

End Reflect.

Arguments VNil {FileInfo}.
Arguments VUint8 {FileInfo} v.
Arguments VUint32 {FileInfo} v.
Arguments VUint64 {FileInfo} v.
Arguments VString {FileInfo} v.
Arguments VFileInfo {FileInfo} v.
Arguments VStruct {FileInfo} fields.
Arguments VSlice {FileInfo} elems.
Arguments VOther {FileInfo}.
Arguments VUnexported {FileInfo}.
Arguments VBytes {FileInfo} b.
Arguments marshal {FileInfo} marshalFileInfo b v.

(** ** Framing *)

Module encoding.
Class BinaryMarshaler (M : Type) : Type :=
  MarshalBinary : M -> option (list byte * option error).
End encoding.

Module io.
Class Writer (W : Type) : Type :=
  Write : W -> list byte -> W * option error.

(** A reader is the sequence of bytes still to come on the stream, at the
    end of which the stream is closed. *)
Definition Reader : Type := list byte.

(** [io.ReadFull(r, buf)] for a buffer of [n] bytes: the reader after the
    call, the buffer's content after the call, and the error. *)
Definition ReadFull (r : Reader) (n : Z) : Reader * list byte * option error :=
  if n <=? len r then
    (skipn (Z.to_nat n) r, firstn (Z.to_nat n) r, None)
  else if len r =? 0 then
    (r, make n, Some io_EOF)
  else
    ([], r ++ make (n - len r), Some io_ErrUnexpectedEOF).
End io.

(** An in-memory writer that never fails: the bytes written so far. *)
#[export] Instance buffer_Writer : io.Writer (list byte) :=
  fun w p => (w ++ p, None).

Section SendPacket.

Context {W : Type} `{io.Writer W}.
Context {M : Type} `{encoding.BinaryMarshaler M}.

(** The header [sendPacket] builds for a payload [bb]. *)
Definition sendPacket_hdr (bb : list byte) : list byte :=
  let l := uint32 (len bb) in
  [byte_of_Z (Z.shiftr l 24); byte_of_Z (Z.shiftr l 16);
   byte_of_Z (Z.shiftr l 8); byte_of_Z l].

(** The two [debug] calls of [sendPacket]: what they evaluate of [bb]. *)
Definition sendPacket_debug (bb : list byte) : option unit :=
  if debugDumpTxPacketBytes then
    _ <- index bb 0 ;; _ <- slice_from bb 1 ;; Some tt
  else if debugDumpTxPacket then
    _ <- index bb 0 ;; Some tt
  else Some tt.

Definition sendPacket (w : W) (m : M) : option (W * option error) :=
  '(bb, err) <- encoding.MarshalBinary m ;;
  match err with
  | Some _ =>
      Some (w, Some (Errorf "marshal2(%#v): binary marshaller failed"))
  | None =>
      _ <- sendPacket_debug bb ;;
      let hdr := sendPacket_hdr bb in
      let '(w, err) := io.Write w hdr in
      match err with
      | Some _ => Some (w, err)
      | None =>
          let '(w, err) := io.Write w bb in
          Some (w, err)
      end
  end.

End SendPacket.

Definition recvPacket (r : io.Reader)
  : option (io.Reader * (byte * list byte * option error)) :=
  let b := [x00; x00; x00; x00] in
  let '(r, b, err) := io.ReadFull r (len b) in
  match err with
  | Some _ => Some (r, (x00, [], err))
  | None =>
      '(l, _) <- unmarshalUint32 b ;;
      let b := make l in
      let '(r, b, err) := io.ReadFull r (len b) in
      match err with
      | Some _ => Some (r, (x00, [], err))
      | None =>
          _ <- (if debugDumpRxPacketBytes then
                  _ <- index b 0 ;; _ <- slice_from b 1 ;; Some tt
                else if debugDumpRxPacket then
                  _ <- index b 0 ;; Some tt
                else Some tt) ;;
          b0 <- index b 0 ;;
          b1 <- slice_from b 1 ;;
          Some (r, (b0, b1, None))
      end
  end.

(** ** Packets *)

Record ExtensionPair : Type := mkExtensionPair {
  Name : string;
  Data : string
}.

Definition unmarshalExtensionPair (b : list byte)
  : option (ExtensionPair * list byte * option error) :=
  let ep := mkExtensionPair EmptyString EmptyString in
  '(s, b, err) <- unmarshalStringSafe b ;;
  let ep := mkExtensionPair s (Data ep) in
  match err with
  | Some _ => Some (ep, b, err)
  | None =>
      '(s, b, err) <- unmarshalStringSafe b ;;
      let ep := mkExtensionPair (Name ep) s in
      match err with
      | Some _ => Some (ep, b, err)
      | None => Some (ep, b, err)
      end
  end.

(** [make([]byte, 0, l)]: an empty slice; its capacity [l] leaves no trace in
    the bytes returned. *)
Definition make_cap (l : Z) : list byte := [].

(** The loop [for _, e := range p.Extensions] that adds up the length. *)
Fixpoint extensions_l (l : Z) (es : list ExtensionPair) : Z :=
  match es with
  | [] => l
  | e :: es => extensions_l (l + (4 + strlen (Name e) + 4 + strlen (Data e))) es
  end.

(** The loop [for _, e := range p.Extensions] that appends the pairs. *)
Fixpoint marshalExtensions (b : list byte) (es : list ExtensionPair)
  : list byte :=
  match es with
  | [] => b
  | e :: es =>
      marshalExtensions (marshalString (marshalString b (Name e)) (Data e)) es
  end.

Module sshFxInitPacket.

Record t : Type := mk {
  Version : Z;
  Extensions : list ExtensionPair
}.

Definition MarshalBinary_l (p : t) : Z :=
  extensions_l (1 + 4) (Extensions p).

Definition MarshalBinary (p : t) : option (list byte * option error) :=
  let l := MarshalBinary_l p in
  let b := make_cap l in
  let b := b ++ [ssh_FXP_INIT] in
  let b := marshalUint32 b (Version p) in
  let b := marshalExtensions b (Extensions p) in
  Some (b, None).

(** The loop [for len(b) > 0]; every turn that goes on shortens [b], so
    [fuel] above its length is never used up. *)
Fixpoint UnmarshalBinary_loop (fuel : nat) (p : t) (b : list byte)
  : option (t * option error) :=
  if len b >? 0 then
    match fuel with
    | O => None
    | S fuel =>
        '(ep, b, err) <- unmarshalExtensionPair b ;;
        match err with
        | Some _ => Some (p, err)
        | None =>
            UnmarshalBinary_loop fuel
              (mk (Version p) (Extensions p ++ [ep])) b
        end
    end
  else Some (p, None).

Definition UnmarshalBinary (p : t) (b : list byte)
  : option (t * option error) :=
  '(v, b, err) <- unmarshalUint32Safe b ;;
  let p := mk v (Extensions p) in
  match err with
  | Some _ => Some (p, err)
  | None => UnmarshalBinary_loop (List.length b) p b
  end.

End sshFxInitPacket.

Module sshFxVersionPacket.

Record t : Type := mk {
  Version : Z;
  Extensions : list ExtensionPair
}.

Definition MarshalBinary_l (p : t) : Z :=
  extensions_l (1 + 4) (Extensions p).

Definition MarshalBinary (p : t) : option (list byte * option error) :=
  let l := MarshalBinary_l p in
  let b := make_cap l in
  let b := b ++ [ssh_FXP_VERSION] in
  let b := marshalUint32 b (Version p) in
  let b := marshalExtensions b (Extensions p) in
  Some (b, None).

End sshFxVersionPacket.

Definition marshalIdString_l (str : string) : Z :=
  1 + 4 + 4 + strlen str.

Definition marshalIdString (packetType : byte) (id : Z) (str : string)
  : option (list byte * option error) :=
  let l := marshalIdString_l str in
  let b := make_cap l in
  let b := b ++ [packetType] in
  let b := marshalUint32 b id in
  let b := marshalString b str in
  Some (b, None).

(** [unmarshalIdString(b, id, str)]: [id] and [str] are the values the two
    pointers refer to before the call; the result gives their values after
    it. *)
Definition unmarshalIdString (b : list byte) (id : Z) (str : string)
  : option (Z * string * option error) :=
  '(v, b, err) <- unmarshalUint32Safe b ;;
  let id := v in
  match err with
  | Some _ => Some (id, str, err)
  | None =>
      '(s, b, err) <- unmarshalStringSafe b ;;
      let str := s in
      match err with
      | Some _ => Some (id, str, err)
      | None => Some (id, str, None)
      end
  end.

Module sshFxpReaddirPacket.

Record t : Type := mk {
  Id : Z;
  Handle : string
}.

Definition id (p : t) : Z := Id p.

Definition MarshalBinary (p : t) : option (list byte * option error) :=
  marshalIdString ssh_FXP_READDIR (Id p) (Handle p).

Definition UnmarshalBinary (p : t) (b : list byte)
  : option (t * option error) :=
  '(id', str', err) <- unmarshalIdString b (Id p) (Handle p) ;;
  Some (mk id' str', err).

End sshFxpReaddirPacket.

Module sshFxpOpendirPacket.

Record t : Type := mk {
  Id : Z;
  Path : string
}.

Definition id (p : t) : Z := Id p.

Definition MarshalBinary (p : t) : option (list byte * option error) :=
  marshalIdString ssh_FXP_OPENDIR (Id p) (Path p).

Definition UnmarshalBinary (p : t) (b : list byte)
  : option (t * option error) :=
  '(id', str', err) <- unmarshalIdString b (Id p) (Path p) ;;
  Some (mk id' str', err).

End sshFxpOpendirPacket.

Module sshFxpLstatPacket.

Record t : Type := mk {
  Id : Z;
  Path : string
}.

Definition id (p : t) : Z := Id p.

Definition MarshalBinary (p : t) : option (list byte * option error) :=
  marshalIdString ssh_FXP_LSTAT (Id p) (Path p).

Definition UnmarshalBinary (p : t) (b : list byte)
  : option (t * option error) :=
  '(id', str', err) <- unmarshalIdString b (Id p) (Path p) ;;
  Some (mk id' str', err).

End sshFxpLstatPacket.

Module sshFxpStatPacket.

Record t : Type := mk {
  Id : Z;
  Path : string
}.

Definition id (p : t) : Z := Id p.

Definition MarshalBinary (p : t) : option (list byte * option error) :=
  marshalIdString ssh_FXP_LSTAT (Id p) (Path p).

Definition UnmarshalBinary (p : t) (b : list byte)
  : option (t * option error) :=
  '(id', str', err) <- unmarshalIdString b (Id p) (Path p) ;;
  Some (mk id' str', err).

End sshFxpStatPacket.

Module sshFxpFstatPacket.

Record t : Type := mk {
  Id : Z;
  Handle : string
}.

Definition id (p : t) : Z := Id p.

Definition MarshalBinary (p : t) : option (list byte * option error) :=
  marshalIdString ssh_FXP_FSTAT (Id p) (Handle p).

Definition UnmarshalBinary (p : t) (b : list byte)
  : option (t * option error) :=
  '(id', str', err) <- unmarshalIdString b (Id p) (Handle p) ;;
  Some (mk id' str', err).

End sshFxpFstatPacket.

Module sshFxpClosePacket.

Record t : Type := mk {
  Id : Z;
  Handle : string
}.

Definition id (p : t) : Z := Id p.

Definition MarshalBinary (p : t) : option (list byte * option error) :=
  marshalIdString ssh_FXP_CLOSE (Id p) (Handle p).

Definition UnmarshalBinary (p : t) (b : list byte)
  : option (t * option error) :=
  '(id', str', err) <- unmarshalIdString b (Id p) (Handle p) ;;
  Some (mk id' str', err).

End sshFxpClosePacket.

Module sshFxpRemovePacket.

Record t : Type := mk {
  Id : Z;
  Filename : string
}.

Definition id (p : t) : Z := Id p.

Definition MarshalBinary (p : t) : option (list byte * option error) :=
  marshalIdString ssh_FXP_REMOVE (Id p) (Filename p).

Definition UnmarshalBinary (p : t) (b : list byte)
  : option (t * option error) :=
  '(id', str', err) <- unmarshalIdString b (Id p) (Filename p) ;;
  Some (mk id' str', err).

End sshFxpRemovePacket.

Module sshFxpRmdirPacket.

Record t : Type := mk {
  Id : Z;
  Path : string
}.

Definition id (p : t) : Z := Id p.

Definition MarshalBinary (p : t) : option (list byte * option error) :=
  marshalIdString ssh_FXP_RMDIR (Id p) (Path p).

Definition UnmarshalBinary (p : t) (b : list byte)
  : option (t * option error) :=
  '(id', str', err) <- unmarshalIdString b (Id p) (Path p) ;;
  Some (mk id' str', err).

End sshFxpRmdirPacket.

Module sshFxpSymlinkPacket.

Record t : Type := mk {
  Id : Z;
  Targetpath : string;
  Linkpath : string
}.

Definition id (p : t) : Z := Id p.

Definition MarshalBinary_l (p : t) : Z :=
  1 + 4 + 4 + strlen (Targetpath p) + 4 + strlen (Linkpath p).

Definition MarshalBinary (p : t) : option (list byte * option error) :=
  let l := MarshalBinary_l p in
  let b := make_cap l in
  let b := b ++ [ssh_FXP_SYMLINK] in
  let b := marshalUint32 b (Id p) in
  let b := marshalString b (Targetpath p) in
  let b := marshalString b (Linkpath p) in
  Some (b, None).

Definition UnmarshalBinary (p : t) (b : list byte)
  : option (t * option error) :=
  '(v, b, err) <- unmarshalUint32Safe b ;;
  let p := mk v (Targetpath p) (Linkpath p) in
  match err with
  | Some _ => Some (p, err)
  | None =>
      '(s, b, err) <- unmarshalStringSafe b ;;
      let p := mk (Id p) s (Linkpath p) in
      match err with
      | Some _ => Some (p, err)
      | None =>
          '(s, b, err) <- unmarshalStringSafe b ;;
          let p := mk (Id p) (Targetpath p) s in
          match err with
          | Some _ => Some (p, err)
          | None => Some (p, None)
          end
      end
  end.

End sshFxpSymlinkPacket.

Module sshFxpReadlinkPacket.

Record t : Type := mk {
  Id : Z;
  Path : string
}.

Definition id (p : t) : Z := Id p.

Definition MarshalBinary (p : t) : option (list byte * option error) :=
  marshalIdString ssh_FXP_READLINK (Id p) (Path p).

Definition UnmarshalBinary (p : t) (b : list byte)
  : option (t * option error) :=
  '(id', str', err) <- unmarshalIdString b (Id p) (Path p) ;;
  Some (mk id' str', err).

End sshFxpReadlinkPacket.

Module sshFxpRealpathPacket.

Record t : Type := mk {
  Id : Z;
  Path : string
}.

Definition id (p : t) : Z := Id p.

Definition MarshalBinary (p : t) : option (list byte * option error) :=
  marshalIdString ssh_FXP_READLINK (Id p) (Path p).

Definition UnmarshalBinary (p : t) (b : list byte)
  : option (t * option error) :=
  '(id', str', err) <- unmarshalIdString b (Id p) (Path p) ;;
  Some (mk id' str', err).

End sshFxpRealpathPacket.

Module sshFxpNameAttr.
Section WithFileInfo.

Variable FileInfo : Type.
Variable marshalFileInfo : list byte -> FileInfo -> list byte.

Record t : Type := mk {
  Name : string;
  LongName : string;
  Attrs : list (value FileInfo)
}.

(** The loop [for _, attr := range p.Attrs]. *)
Fixpoint marshalAttrs (b : list byte) (attrs : list (value FileInfo))
  : option (list byte) :=
  match attrs with
  | [] => Some b
  | attr :: attrs =>
      b <- marshal marshalFileInfo b attr ;; marshalAttrs b attrs
  end.

Definition MarshalBinary (p : t) : option (list byte * option error) :=
  let b := [] in
  let b := marshalString b (Name p) in
  let b := marshalString b (LongName p) in
  b <- marshalAttrs b (Attrs p) ;;
  Some (b, None).

End WithFileInfo.
End sshFxpNameAttr.

Module sshFxpNamePacket.
Section WithFileInfo.

Variable FileInfo : Type.
Variable marshalFileInfo : list byte -> FileInfo -> list byte.

Record t : Type := mk {
  Id : Z;
  NameAttrs : list (sshFxpNameAttr.t FileInfo)
}.

(** The loop [for _, na := range p.NameAttrs]. *)
Fixpoint marshalNameAttrs (b : list byte)
  (nas : list (sshFxpNameAttr.t FileInfo))
  : option (list byte * option error) :=
  match nas with
  | [] => Some (b, None)
  | na :: nas =>
      '(ab, err) <- sshFxpNameAttr.MarshalBinary FileInfo marshalFileInfo na ;;
      match err with
      | Some _ => Some ([], err)
      | None => marshalNameAttrs (b ++ ab) nas
      end
  end.

Definition MarshalBinary (p : t) : option (list byte * option error) :=
  let b := [] in
  let b := b ++ [ssh_FXP_NAME] in
  let b := marshalUint32 b (Id p) in
  let b := marshalUint32 b (uint32 (len (NameAttrs p))) in
  marshalNameAttrs b (NameAttrs p).

End WithFileInfo.
End sshFxpNamePacket.

Module sshFxpOpenPacket.

Record t : Type := mk {
  Id : Z;
  Path : string;
  Pflags : Z;
  Flags : Z
}.

Definition id (p : t) : Z := Id p.

Definition MarshalBinary_l (p : t) : Z :=
  1 + 4 + 4 + strlen (Path p) + 4 + 4.

Definition MarshalBinary (p : t) : option (list byte * option error) :=
  let l := MarshalBinary_l p in
  let b := make_cap l in
  let b := b ++ [ssh_FXP_OPEN] in
  let b := marshalUint32 b (Id p) in
  let b := marshalString b (Path p) in
  let b := marshalUint32 b (Pflags p) in
  let b := marshalUint32 b (Flags p) in
  Some (b, None).

Definition UnmarshalBinary (p : t) (b : list byte)
  : option (t * option error) :=
  '(v, b, err) <- unmarshalUint32Safe b ;;
  let p := mk v (Path p) (Pflags p) (Flags p) in
  match err with
  | Some _ => Some (p, err)
  | None =>
      '(s, b, err) <- unmarshalStringSafe b ;;
      let p := mk (Id p) s (Pflags p) (Flags p) in
      match err with
      | Some _ => Some (p, err)
      | None =>
          '(v, b, err) <- unmarshalUint32Safe b ;;
          let p := mk (Id p) (Path p) v (Flags p) in
          match err with
          | Some _ => Some (p, err)
          | None =>
              '(v, b, err) <- unmarshalUint32Safe b ;;
              let p := mk (Id p) (Path p) (Pflags p) v in
              match err with
              | Some _ => Some (p, err)
              | None => Some (p, err)
              end
          end
      end
  end.

End sshFxpOpenPacket.

Module sshFxpReadPacket.

Record t : Type := mk {
  Id : Z;
  Handle : string;
  Offset : Z;
  Len : Z
}.

Definition id (p : t) : Z := Id p.

Definition MarshalBinary_l (p : t) : Z :=
  1 + 4 + 4 + strlen (Handle p) + 8 + 4.

Definition MarshalBinary (p : t) : option (list byte * option error) :=
  let l := MarshalBinary_l p in
  let b := make_cap l in
  let b := b ++ [ssh_FXP_READ] in
  let b := marshalUint32 b (Id p) in
  let b := marshalString b (Handle p) in
  let b := marshalUint64 b (Offset p) in
  let b := marshalUint32 b (Len p) in
  Some (b, None).

Definition UnmarshalBinary (p : t) (b : list byte)
  : option (t * option error) :=
  '(v, b, err) <- unmarshalUint32Safe b ;;
  let p := mk v (Handle p) (Offset p) (Len p) in
  match err with
  | Some _ => Some (p, err)
  | None =>
      '(s, b, err) <- unmarshalStringSafe b ;;
      let p := mk (Id p) s (Offset p) (Len p) in
      match err with
      | Some _ => Some (p, err)
      | None =>
          '(v, b, err) <- unmarshalUint64Safe b ;;
          let p := mk (Id p) (Handle p) v (Len p) in
          match err with
          | Some _ => Some (p, err)
          | None =>
              '(v, b, err) <- unmarshalUint32Safe b ;;
              let p := mk (Id p) (Handle p) (Offset p) v in
              match err with
              | Some _ => Some (p, err)
              | None => Some (p, err)
              end
          end
      end
  end.

End sshFxpReadPacket.

Module sshFxpRenamePacket.

Record t : Type := mk {
  Id : Z;
  Oldpath : string;
  Newpath : string
}.

Definition id (p : t) : Z := Id p.

Definition MarshalBinary_l (p : t) : Z :=
  1 + 4 + 4 + strlen (Oldpath p) + 4 + strlen (Newpath p).

Definition MarshalBinary (p : t) : option (list byte * option error) :=
  let l := MarshalBinary_l p in
  let b := make_cap l in
  let b := b ++ [ssh_FXP_RENAME] in
  let b := marshalUint32 b (Id p) in
  let b := marshalString b (Oldpath p) in
  let b := marshalString b (Newpath p) in
  Some (b, None).

Definition UnmarshalBinary (p : t) (b : list byte)
  : option (t * option error) :=
  '(v, b, err) <- unmarshalUint32Safe b ;;
  let p := mk v (Oldpath p) (Newpath p) in
  match err with
  | Some _ => Some (p, err)
  | None =>
      '(s, b, err) <- unmarshalStringSafe b ;;
      let p := mk (Id p) s (Newpath p) in
      match err with
      | Some _ => Some (p, err)
      | None =>
          '(s, b, err) <- unmarshalStringSafe b ;;
          let p := mk (Id p) (Oldpath p) s in
          match err with
          | Some _ => Some (p, err)
          | None => Some (p, err)
          end
      end
  end.

End sshFxpRenamePacket.

Module sshFxpWritePacket.

Record t : Type := mk {
  Id : Z;
  Handle : string;
  Offset : Z;
  Length : Z;
  Data : list byte
}.

Definition id (s : t) : Z := Id s.

Definition MarshalBinary_l (s : t) : Z :=
  1 + 4 + 4 + strlen (Handle s) + 8 + 4 + len (Data s).

Definition MarshalBinary (s : t) : option (list byte * option error) :=
  let l := MarshalBinary_l s in
  let b := make_cap l in
  let b := b ++ [ssh_FXP_WRITE] in
  let b := marshalUint32 b (Id s) in
  let b := marshalString b (Handle s) in
  let b := marshalUint64 b (Offset s) in
  let b := marshalUint32 b (Length s) in
  let b := b ++ Data s in
  Some (b, None).

Definition UnmarshalBinary (p : t) (b : list byte)
  : option (t * option error) :=
  '(v, b, err) <- unmarshalUint32Safe b ;;
  let p := mk v (Handle p) (Offset p) (Length p) (Data p) in
  match err with
  | Some _ => Some (p, err)
  | None =>
      '(s, b, err) <- unmarshalStringSafe b ;;
      let p := mk (Id p) s (Offset p) (Length p) (Data p) in
      match err with
      | Some _ => Some (p, err)
      | None =>
          '(v, b, err) <- unmarshalUint64Safe b ;;
          let p := mk (Id p) (Handle p) v (Length p) (Data p) in
          match err with
          | Some _ => Some (p, err)
          | None =>
              '(v, b, err) <- unmarshalUint32Safe b ;;
              let p := mk (Id p) (Handle p) (Offset p) v (Data p) in
              match err with
              | Some _ => Some (p, err)
              | None =>
                  if uint32 (len b) <? Length p then
                    Some (p, Some shortPacketError)
                  else
                    d <- slice_to b (Length p) ;;
                    let p :=
                      mk (Id p) (Handle p) (Offset p) (Length p) ([] ++ d) in
                    Some (p, err)
              end
          end
      end
  end.

End sshFxpWritePacket.

Module sshFxpMkdirPacket.

Record t : Type := mk {
  Id : Z;
  Path : string;
  Flags : Z
}.

Definition id (p : t) : Z := Id p.

Definition MarshalBinary_l (p : t) : Z :=
  1 + 4 + 4 + strlen (Path p) + 4.

Definition MarshalBinary (p : t) : option (list byte * option error) :=
  let l := MarshalBinary_l p in
  let b := make_cap l in
  let b := b ++ [ssh_FXP_MKDIR] in
  let b := marshalUint32 b (Id p) in
  let b := marshalString b (Path p) in
  let b := marshalUint32 b (Flags p) in
  Some (b, None).

Definition UnmarshalBinary (p : t) (b : list byte)
  : option (t * option error) :=
  '(v, b, err) <- unmarshalUint32Safe b ;;
  let p := mk v (Path p) (Flags p) in
  match err with
  | Some _ => Some (p, err)
  | None =>
      '(s, b, err) <- unmarshalStringSafe b ;;
      let p := mk (Id p) s (Flags p) in
      match err with
      | Some _ => Some (p, err)
      | None =>
          '(v, b, err) <- unmarshalUint32Safe b ;;
          let p := mk (Id p) (Path p) v in
          match err with
          | Some _ => Some (p, err)
          | None => Some (p, None)
          end
      end
  end.

End sshFxpMkdirPacket.

Module sshFxpSetstatPacket.
Section WithFileInfo.

Variable FileInfo : Type.
Variable marshalFileInfo : list byte -> FileInfo -> list byte.

Record t : Type := mk {
  Id : Z;
  Path : string;
  Flags : Z;
  Attrs : value FileInfo
}.

Definition id (p : t) : Z := Id p.

Definition MarshalBinary_l (p : t) : Z :=
  1 + 4 + 4 + strlen (Path p) + 4.

Definition MarshalBinary (p : t) : option (list byte * option error) :=
  let l := MarshalBinary_l p in
  let b := make_cap l in
  let b := b ++ [ssh_FXP_SETSTAT] in
  let b := marshalUint32 b (Id p) in
  let b := marshalString b (Path p) in
  let b := marshalUint32 b (Flags p) in
  b <- marshal marshalFileInfo b (Attrs p) ;;
  Some (b, None).

Definition UnmarshalBinary (p : t) (b : list byte)
  : option (t * option error) :=
  '(v, b, err) <- unmarshalUint32Safe b ;;
  let p := mk v (Path p) (Flags p) (Attrs p) in
  match err with
  | Some _ => Some (p, err)
  | None =>
      '(s, b, err) <- unmarshalStringSafe b ;;
      let p := mk (Id p) s (Flags p) (Attrs p) in
      match err with
      | Some _ => Some (p, err)
      | None =>
          '(v, b, err) <- unmarshalUint32Safe b ;;
          let p := mk (Id p) (Path p) v (Attrs p) in
          match err with
          | Some _ => Some (p, err)
          | None =>
              let p := mk (Id p) (Path p) (Flags p) (VBytes b) in
              Some (p, None)
          end
      end
  end.

End WithFileInfo.
End sshFxpSetstatPacket.

Module sshFxpFsetstatPacket.
Section WithFileInfo.

Variable FileInfo : Type.
Variable marshalFileInfo : list byte -> FileInfo -> list byte.

Record t : Type := mk {
  Id : Z;
  Handle : string;
  Flags : Z;
  Attrs : value FileInfo
}.

Definition id (p : t) : Z := Id p.

Definition MarshalBinary_l (p : t) : Z :=
  1 + 4 + 4 + strlen (Handle p) + 4.

Definition MarshalBinary (p : t) : option (list byte * option error) :=
  let l := MarshalBinary_l p in
  let b := make_cap l in
  let b := b ++ [ssh_FXP_FSETSTAT] in
  let b := marshalUint32 b (Id p) in
  let b := marshalString b (Handle p) in
  let b := marshalUint32 b (Flags p) in
  b <- marshal marshalFileInfo b (Attrs p) ;;
  Some (b, None).

Definition UnmarshalBinary (p : t) (b : list byte)
  : option (t * option error) :=
  '(v, b, err) <- unmarshalUint32Safe b ;;
  let p := mk v (Handle p) (Flags p) (Attrs p) in
  match err with
  | Some _ => Some (p, err)
  | None =>
      '(s, b, err) <- unmarshalStringSafe b ;;
      let p := mk (Id p) s (Flags p) (Attrs p) in
      match err with
      | Some _ => Some (p, err)
      | None =>
          '(v, b, err) <- unmarshalUint32Safe b ;;
          let p := mk (Id p) (Handle p) v (Attrs p) in
          match err with
          | Some _ => Some (p, err)
          | None =>
              let p := mk (Id p) (Handle p) (Flags p) (VBytes b) in
              Some (p, None)
          end
      end
  end.

End WithFileInfo.
End sshFxpFsetstatPacket.

Module sshFxpHandlePacket.

Record t : Type := mk {
  Id : Z;
  Handle : string
}.

Definition MarshalBinary (p : t) : option (list byte * option error) :=
  let b := [ssh_FXP_HANDLE] in
  let b := marshalUint32 b (Id p) in
  let b := marshalString b (Handle p) in
  Some (b, None).

End sshFxpHandlePacket.

(** [copy(dst, src)]: the content of [dst] after the call. *)
Definition copy (dst src : list byte) : list byte :=
  firstn (List.length dst) src ++ skipn (List.length src) dst.

Module sshFxpDataPacket.

Record t : Type := mk {
  Id : Z;
  Length : Z;
  Data : list byte
}.

(** [p.Data[:p.Length]] is bounded by the capacity of [p.Data], not by its
    length: [spare] are the bytes of the backing array of [p.Data] between
    its length and its capacity, which the slice expression reaches. *)
Definition MarshalBinary_cap (spare : list byte) (p : t)
  : option (list byte * option error) :=
  let b := [ssh_FXP_DATA] in
  let b := marshalUint32 b (Id p) in
  let b := marshalUint32 b (Length p) in
  d <- slice_to (Data p ++ spare) (Length p) ;;
  let b := b ++ d in
  Some (b, None).

(** The method on a packet whose [Data] has no capacity beyond its length,
    as [make([]byte, p.Length)] in [UnmarshalBinary] builds it. *)
Definition MarshalBinary (p : t) : option (list byte * option error) :=
  MarshalBinary_cap [] p.

Definition UnmarshalBinary (p : t) (b : list byte)
  : option (t * option error) :=
  '(v, b, err) <- unmarshalUint32Safe b ;;
  let p := mk v (Length p) (Data p) in
  match err with
  | Some _ => Some (p, err)
  | None =>
      '(v, b, err) <- unmarshalUint32Safe b ;;
      let p := mk (Id p) v (Data p) in
      match err with
      | Some _ => Some (p, err)
      | None =>
          if uint32 (len b) <? Length p then
            Some (p, Some (Errorf "truncated packet"))
          else
            let p := mk (Id p) (Length p) (make (Length p)) in
            let p := mk (Id p) (Length p) (copy (Data p) b) in
            Some (p, None)
      end
  end.

End sshFxpDataPacket.

Module sshFxpStatvfsPacket.

Record t : Type := mk {
  Id : Z;
  Path : string
}.

Definition id (p : t) : Z := Id p.

Definition MarshalBinary_l (p : t) : Z :=
  1 + 4 + strlen (Path p) + strlen "statvfs@openssh.com".

Definition MarshalBinary (p : t) : option (list byte * option error) :=
  let l := MarshalBinary_l p in
  let b := make_cap l in
  let b := b ++ [ssh_FXP_EXTENDED] in
  let b := marshalUint32 b (Id p) in
  let b := marshalString b "statvfs@openssh.com" in
  let b := marshalString b (Path p) in
  Some (b, None).

End sshFxpStatvfsPacket.

Module StatVFS.

Record t : Type := mk {
  Id : Z;
  Bsize : Z;
  Frsize : Z;
  Blocks : Z;
  Bfree : Z;
  Bavail : Z;
  Files : Z;
  Ffree : Z;
  Favail : Z;
  Fsid : Z;
  Flag : Z;
  Namemax : Z
}.

(** The fields are in range for their Go types. *)
Definition wf (p : t) : Prop :=
  is_uint32 (Id p) /\ is_uint64 (Bsize p) /\ is_uint64 (Frsize p) /\
  is_uint64 (Blocks p) /\ is_uint64 (Bfree p) /\ is_uint64 (Bavail p) /\
  is_uint64 (Files p) /\ is_uint64 (Ffree p) /\ is_uint64 (Favail p) /\
  is_uint64 (Fsid p) /\ is_uint64 (Flag p) /\ is_uint64 (Namemax p).

(** Both methods have a pointer receiver: the result and the receiver after
    the call. *)
Definition TotalSpace (p : t) : Z * t :=
  (uint64 (Frsize p * Blocks p), p).

Definition FreeSpace (p : t) : Z * t :=
  (uint64 (Frsize p * Bfree p), p).

End StatVFS.

(** ** The catalogue

    The packet kinds of the file, gathered by the interface they implement:
    an [unmarshaler] is a packet that has an [UnmarshalBinary] method (all of
    these have [MarshalBinary] too); a [marshaler] is a packet that has a
    [MarshalBinary] method. [sshFxpStatusPacket] is left out: its encoder
    calls [marshalStatus], which packet.go does not define. *)

Section Catalogue.

Variable FileInfo : Type.
Variable marshalFileInfo : list byte -> FileInfo -> list byte.

Inductive unmarshaler : Type :=
| UInit (p : sshFxInitPacket.t)
| UReaddir (p : sshFxpReaddirPacket.t)
| UOpendir (p : sshFxpOpendirPacket.t)
| ULstat (p : sshFxpLstatPacket.t)
| UStat (p : sshFxpStatPacket.t)
| UFstat (p : sshFxpFstatPacket.t)
| UClose (p : sshFxpClosePacket.t)
| URemove (p : sshFxpRemovePacket.t)
| URmdir (p : sshFxpRmdirPacket.t)
| USymlink (p : sshFxpSymlinkPacket.t)
| UReadlink (p : sshFxpReadlinkPacket.t)
| URealpath (p : sshFxpRealpathPacket.t)
| UOpen (p : sshFxpOpenPacket.t)
| URead (p : sshFxpReadPacket.t)
| URename (p : sshFxpRenamePacket.t)
| UWrite (p : sshFxpWritePacket.t)
| UMkdir (p : sshFxpMkdirPacket.t)
| USetstat (p : sshFxpSetstatPacket.t FileInfo)
| UFsetstat (p : sshFxpFsetstatPacket.t FileInfo)
| UData (p : sshFxpDataPacket.t).

Inductive marshaler : Type :=
| MU (u : unmarshaler)
| MVersion (p : sshFxVersionPacket.t)
| MName (p : sshFxpNamePacket.t FileInfo)
| MHandle (p : sshFxpHandlePacket.t)
| MStatvfs (p : sshFxpStatvfsPacket.t).

(** [p.UnmarshalBinary(b)] by the kind of the receiver [p]. *)
Definition UnmarshalBinary (u : unmarshaler) (b : list byte)
  : option (unmarshaler * option error) :=
  match u with
  | UInit p =>
      '(p, err) <- sshFxInitPacket.UnmarshalBinary p b ;; Some (UInit p, err)
  | UReaddir p =>
      '(p, err) <- sshFxpReaddirPacket.UnmarshalBinary p b ;; Some (UReaddir p, err)
  | UOpendir p =>
      '(p, err) <- sshFxpOpendirPacket.UnmarshalBinary p b ;; Some (UOpendir p, err)
  | ULstat p =>
      '(p, err) <- sshFxpLstatPacket.UnmarshalBinary p b ;; Some (ULstat p, err)
  | UStat p =>
      '(p, err) <- sshFxpStatPacket.UnmarshalBinary p b ;; Some (UStat p, err)
  | UFstat p =>
      '(p, err) <- sshFxpFstatPacket.UnmarshalBinary p b ;; Some (UFstat p, err)
  | UClose p =>
      '(p, err) <- sshFxpClosePacket.UnmarshalBinary p b ;; Some (UClose p, err)
  | URemove p =>
      '(p, err) <- sshFxpRemovePacket.UnmarshalBinary p b ;; Some (URemove p, err)
  | URmdir p =>
      '(p, err) <- sshFxpRmdirPacket.UnmarshalBinary p b ;; Some (URmdir p, err)
  | USymlink p =>
      '(p, err) <- sshFxpSymlinkPacket.UnmarshalBinary p b ;; Some (USymlink p, err)
  | UReadlink p =>
      '(p, err) <- sshFxpReadlinkPacket.UnmarshalBinary p b ;; Some (UReadlink p, err)
  | URealpath p =>
      '(p, err) <- sshFxpRealpathPacket.UnmarshalBinary p b ;; Some (URealpath p, err)
  | UOpen p =>
      '(p, err) <- sshFxpOpenPacket.UnmarshalBinary p b ;; Some (UOpen p, err)
  | URead p =>
      '(p, err) <- sshFxpReadPacket.UnmarshalBinary p b ;; Some (URead p, err)
  | URename p =>
      '(p, err) <- sshFxpRenamePacket.UnmarshalBinary p b ;; Some (URename p, err)
  | UWrite p =>
      '(p, err) <- sshFxpWritePacket.UnmarshalBinary p b ;; Some (UWrite p, err)
  | UMkdir p =>
      '(p, err) <- sshFxpMkdirPacket.UnmarshalBinary p b ;; Some (UMkdir p, err)
  | USetstat p =>
      '(p, err) <- sshFxpSetstatPacket.UnmarshalBinary FileInfo p b ;; Some (USetstat p, err)
  | UFsetstat p =>
      '(p, err) <- sshFxpFsetstatPacket.UnmarshalBinary FileInfo p b ;; Some (UFsetstat p, err)
  | UData p =>
      '(p, err) <- sshFxpDataPacket.UnmarshalBinary p b ;; Some (UData p, err)
  end.

(** [m.MarshalBinary()] by the kind of [m]. *)
Definition MarshalBinary (m : marshaler) : option (list byte * option error) :=
  match m with
  | MU (UInit p) => sshFxInitPacket.MarshalBinary p
  | MU (UReaddir p) => sshFxpReaddirPacket.MarshalBinary p
  | MU (UOpendir p) => sshFxpOpendirPacket.MarshalBinary p
  | MU (ULstat p) => sshFxpLstatPacket.MarshalBinary p
  | MU (UStat p) => sshFxpStatPacket.MarshalBinary p
  | MU (UFstat p) => sshFxpFstatPacket.MarshalBinary p
  | MU (UClose p) => sshFxpClosePacket.MarshalBinary p
  | MU (URemove p) => sshFxpRemovePacket.MarshalBinary p
  | MU (URmdir p) => sshFxpRmdirPacket.MarshalBinary p
  | MU (USymlink p) => sshFxpSymlinkPacket.MarshalBinary p
  | MU (UReadlink p) => sshFxpReadlinkPacket.MarshalBinary p
  | MU (URealpath p) => sshFxpRealpathPacket.MarshalBinary p
  | MU (UOpen p) => sshFxpOpenPacket.MarshalBinary p
  | MU (URead p) => sshFxpReadPacket.MarshalBinary p
  | MU (URename p) => sshFxpRenamePacket.MarshalBinary p
  | MU (UWrite p) => sshFxpWritePacket.MarshalBinary p
  | MU (UMkdir p) => sshFxpMkdirPacket.MarshalBinary p
  | MU (USetstat p) => sshFxpSetstatPacket.MarshalBinary FileInfo marshalFileInfo p
  | MU (UFsetstat p) => sshFxpFsetstatPacket.MarshalBinary FileInfo marshalFileInfo p
  | MU (UData p) => sshFxpDataPacket.MarshalBinary p
  | MVersion p => sshFxVersionPacket.MarshalBinary p
  | MName p => sshFxpNamePacket.MarshalBinary FileInfo marshalFileInfo p
  | MHandle p => sshFxpHandlePacket.MarshalBinary p
  | MStatvfs p => sshFxpStatvfsPacket.MarshalBinary p
  end.

(** The length [l] that [m.MarshalBinary()] computes before it allocates
    its buffer; [None] for the kinds that compute none. *)
Definition MarshalBinary_l (m : marshaler) : option Z :=
  match m with
  | MU (UInit p) => Some (sshFxInitPacket.MarshalBinary_l p)
  | MU (UReaddir p) => Some (marshalIdString_l (sshFxpReaddirPacket.Handle p))
  | MU (UOpendir p) => Some (marshalIdString_l (sshFxpOpendirPacket.Path p))
  | MU (ULstat p) => Some (marshalIdString_l (sshFxpLstatPacket.Path p))
  | MU (UStat p) => Some (marshalIdString_l (sshFxpStatPacket.Path p))
  | MU (UFstat p) => Some (marshalIdString_l (sshFxpFstatPacket.Handle p))
  | MU (UClose p) => Some (marshalIdString_l (sshFxpClosePacket.Handle p))
  | MU (URemove p) => Some (marshalIdString_l (sshFxpRemovePacket.Filename p))
  | MU (URmdir p) => Some (marshalIdString_l (sshFxpRmdirPacket.Path p))
  | MU (USymlink p) => Some (sshFxpSymlinkPacket.MarshalBinary_l p)
  | MU (UReadlink p) => Some (marshalIdString_l (sshFxpReadlinkPacket.Path p))
  | MU (URealpath p) => Some (marshalIdString_l (sshFxpRealpathPacket.Path p))
  | MU (UOpen p) => Some (sshFxpOpenPacket.MarshalBinary_l p)
  | MU (URead p) => Some (sshFxpReadPacket.MarshalBinary_l p)
  | MU (URename p) => Some (sshFxpRenamePacket.MarshalBinary_l p)
  | MU (UWrite p) => Some (sshFxpWritePacket.MarshalBinary_l p)
  | MU (UMkdir p) => Some (sshFxpMkdirPacket.MarshalBinary_l p)
  | MU (USetstat p) => Some (sshFxpSetstatPacket.MarshalBinary_l FileInfo p)
  | MU (UFsetstat p) => Some (sshFxpFsetstatPacket.MarshalBinary_l FileInfo p)
  | MU (UData _) => None
  | MVersion p => Some (sshFxVersionPacket.MarshalBinary_l p)
  | MName _ => None
  | MHandle _ => None
  | MStatvfs p => Some (sshFxpStatvfsPacket.MarshalBinary_l p)
  end.

(** The zero value of the kind of [u]: the receiver a decoder starts from. *)
Definition zero (u : unmarshaler) : unmarshaler :=
  match u with
  | UInit _ => UInit (sshFxInitPacket.mk 0 [])
  | UReaddir _ => UReaddir (sshFxpReaddirPacket.mk 0 EmptyString)
  | UOpendir _ => UOpendir (sshFxpOpendirPacket.mk 0 EmptyString)
  | ULstat _ => ULstat (sshFxpLstatPacket.mk 0 EmptyString)
  | UStat _ => UStat (sshFxpStatPacket.mk 0 EmptyString)
  | UFstat _ => UFstat (sshFxpFstatPacket.mk 0 EmptyString)
  | UClose _ => UClose (sshFxpClosePacket.mk 0 EmptyString)
  | URemove _ => URemove (sshFxpRemovePacket.mk 0 EmptyString)
  | URmdir _ => URmdir (sshFxpRmdirPacket.mk 0 EmptyString)
  | USymlink _ => USymlink (sshFxpSymlinkPacket.mk 0 EmptyString EmptyString)
  | UReadlink _ => UReadlink (sshFxpReadlinkPacket.mk 0 EmptyString)
  | URealpath _ => URealpath (sshFxpRealpathPacket.mk 0 EmptyString)
  | UOpen _ => UOpen (sshFxpOpenPacket.mk 0 EmptyString 0 0)
  | URead _ => URead (sshFxpReadPacket.mk 0 EmptyString 0 0)
  | URename _ => URename (sshFxpRenamePacket.mk 0 EmptyString EmptyString)
  | UWrite _ => UWrite (sshFxpWritePacket.mk 0 EmptyString 0 0 [])
  | UMkdir _ => UMkdir (sshFxpMkdirPacket.mk 0 EmptyString 0)
  | USetstat _ => USetstat (sshFxpSetstatPacket.mk FileInfo 0 EmptyString 0 VNil)
  | UFsetstat _ => UFsetstat (sshFxpFsetstatPacket.mk FileInfo 0 EmptyString 0 VNil)
  | UData _ => UData (sshFxpDataPacket.mk 0 0 [])
  end.

(** The integer fields hold values of their Go types. *)
Definition well_typed (u : unmarshaler) : Prop :=
  match u with
  | UInit p =>
      is_uint32 (sshFxInitPacket.Version p)
  | UReaddir p => is_uint32 (sshFxpReaddirPacket.Id p)
  | UOpendir p => is_uint32 (sshFxpOpendirPacket.Id p)
  | ULstat p => is_uint32 (sshFxpLstatPacket.Id p)
  | UStat p => is_uint32 (sshFxpStatPacket.Id p)
  | UFstat p => is_uint32 (sshFxpFstatPacket.Id p)
  | UClose p => is_uint32 (sshFxpClosePacket.Id p)
  | URemove p => is_uint32 (sshFxpRemovePacket.Id p)
  | URmdir p => is_uint32 (sshFxpRmdirPacket.Id p)
  | USymlink p =>
      is_uint32 (sshFxpSymlinkPacket.Id p)
  | UReadlink p => is_uint32 (sshFxpReadlinkPacket.Id p)
  | URealpath p => is_uint32 (sshFxpRealpathPacket.Id p)
  | UOpen p =>
      is_uint32 (sshFxpOpenPacket.Id p) /\
      is_uint32 (sshFxpOpenPacket.Pflags p) /\
      is_uint32 (sshFxpOpenPacket.Flags p)
  | URead p =>
      is_uint32 (sshFxpReadPacket.Id p) /\
      is_uint64 (sshFxpReadPacket.Offset p) /\
      is_uint32 (sshFxpReadPacket.Len p)
  | URename p =>
      is_uint32 (sshFxpRenamePacket.Id p)
  | UWrite p =>
      is_uint32 (sshFxpWritePacket.Id p) /\
      is_uint64 (sshFxpWritePacket.Offset p) /\
      is_uint32 (sshFxpWritePacket.Length p)
  | UMkdir p =>
      is_uint32 (sshFxpMkdirPacket.Id p) /\
      is_uint32 (sshFxpMkdirPacket.Flags p)
  | USetstat p =>
      is_uint32 (sshFxpSetstatPacket.Id FileInfo p) /\
      is_uint32 (sshFxpSetstatPacket.Flags FileInfo p)
  | UFsetstat p =>
      is_uint32 (sshFxpFsetstatPacket.Id FileInfo p) /\
      is_uint32 (sshFxpFsetstatPacket.Flags FileInfo p)
  | UData p =>
      is_uint32 (sshFxpDataPacket.Id p) /\
      is_uint32 (sshFxpDataPacket.Length p)
  end.

(** A string whose length fits the 32-bit length field. *)
Definition short_string (s : string) : Prop := strlen s < 2 ^ 32.

(** The values a decoder can give back: every string fits its length
    field, the [Length] of a WRITE or DATA packet is the length of its
    [Data], and the [Attrs] of a SETSTAT or FSETSTAT packet are a
    [[]byte]. *)
Definition canonical (u : unmarshaler) : Prop :=
  match u with
  | UInit p =>
      Forall (fun e => short_string (Name e) /\ short_string (Data e))
        (sshFxInitPacket.Extensions p)
  | UReaddir p => short_string (sshFxpReaddirPacket.Handle p)
  | UOpendir p => short_string (sshFxpOpendirPacket.Path p)
  | ULstat p => short_string (sshFxpLstatPacket.Path p)
  | UStat p => short_string (sshFxpStatPacket.Path p)
  | UFstat p => short_string (sshFxpFstatPacket.Handle p)
  | UClose p => short_string (sshFxpClosePacket.Handle p)
  | URemove p => short_string (sshFxpRemovePacket.Filename p)
  | URmdir p => short_string (sshFxpRmdirPacket.Path p)
  | USymlink p =>
      short_string (sshFxpSymlinkPacket.Targetpath p) /\
      short_string (sshFxpSymlinkPacket.Linkpath p)
  | UReadlink p => short_string (sshFxpReadlinkPacket.Path p)
  | URealpath p => short_string (sshFxpRealpathPacket.Path p)
  | UOpen p =>
      short_string (sshFxpOpenPacket.Path p)
  | URead p =>
      short_string (sshFxpReadPacket.Handle p)
  | URename p =>
      short_string (sshFxpRenamePacket.Oldpath p) /\
      short_string (sshFxpRenamePacket.Newpath p)
  | UWrite p =>
      short_string (sshFxpWritePacket.Handle p) /\
      sshFxpWritePacket.Length p = len (sshFxpWritePacket.Data p)
  | UMkdir p =>
      short_string (sshFxpMkdirPacket.Path p)
  | USetstat p =>
      short_string (sshFxpSetstatPacket.Path FileInfo p) /\
      exists attrs, sshFxpSetstatPacket.Attrs FileInfo p = VBytes attrs
  | UFsetstat p =>
      short_string (sshFxpFsetstatPacket.Handle FileInfo p) /\
      exists attrs, sshFxpFsetstatPacket.Attrs FileInfo p = VBytes attrs
  | UData p =>
      sshFxpDataPacket.Length p = len (sshFxpDataPacket.Data p)
  end.

(** The kinds whose decoder stops after a fixed list of fields. INIT reads
    extension pairs up to the end of the buffer, and SETSTAT and FSETSTAT
    keep the whole rest of the buffer as [Attrs]. *)
Definition fixed_fields (u : unmarshaler) : bool :=
  match u with
  | UInit _ | USetstat _ | UFsetstat _ => false
  | _ => true
  end.

(** The kinds whose decoder compares [uint32(len(b))] with a declared
    length. *)
Definition declares_length (u : unmarshaler) : bool :=
  match u with
  | UWrite _ | UData _ => true
  | _ => false
  end.

(** The kinds whose [MarshalBinary] computes [l] and appends a field of
    dynamic type after the fields that [l] counts. *)
Definition dynamic_attrs (m : marshaler) : option (value FileInfo) :=
  match m with
  | MU (USetstat p) => Some (sshFxpSetstatPacket.Attrs FileInfo p)
  | MU (UFsetstat p) => Some (sshFxpFsetstatPacket.Attrs FileInfo p)
  | _ => None
  end.

(** The statvfs request, whose [l] adds up the lengths of its two strings
    without the four bytes of each length field. *)
Definition statvfs_request (m : marshaler) : bool :=
  match m with
  | MStatvfs _ => true
  | _ => false
  end.

End Catalogue.

Arguments UnmarshalBinary {FileInfo} u b.
Arguments MarshalBinary {FileInfo} marshalFileInfo m.
Arguments MarshalBinary_l {FileInfo} m.
Arguments zero {FileInfo} u.
Arguments well_typed {FileInfo} u.
Arguments canonical {FileInfo} u.
Arguments fixed_fields {FileInfo} u.
Arguments declares_length {FileInfo} u.
Arguments dynamic_attrs {FileInfo} m.
Arguments statvfs_request {FileInfo} m.
Arguments MU {FileInfo} u.
Arguments MVersion {FileInfo} p.
Arguments MName {FileInfo} p.
Arguments MHandle {FileInfo} p.
Arguments MStatvfs {FileInfo} p.

Arguments UInit {FileInfo} p.
Arguments UReaddir {FileInfo} p.
Arguments UOpendir {FileInfo} p.
Arguments ULstat {FileInfo} p.
Arguments UStat {FileInfo} p.
Arguments UFstat {FileInfo} p.
Arguments UClose {FileInfo} p.
Arguments URemove {FileInfo} p.
Arguments URmdir {FileInfo} p.
Arguments USymlink {FileInfo} p.
Arguments UReadlink {FileInfo} p.
Arguments URealpath {FileInfo} p.
Arguments UOpen {FileInfo} p.
Arguments URead {FileInfo} p.
Arguments URename {FileInfo} p.
Arguments UWrite {FileInfo} p.
Arguments UMkdir {FileInfo} p.
Arguments USetstat {FileInfo} p.
Arguments UFsetstat {FileInfo} p.
Arguments UData {FileInfo} p.

(** Every [marshaler] can be handed to [sendPacket]. *)
Definition marshaler_BinaryMarshaler {FileInfo : Type}
  (marshalFileInfo : list byte -> FileInfo -> list byte)
  : encoding.BinaryMarshaler (marshaler FileInfo) :=
  MarshalBinary marshalFileInfo.

(** Closed examples need no [os.FileInfo] value: they take the empty type
    for it. *)
Definition no_FileInfo : Type := Empty_set.

Definition marshal_no_FileInfo (b : list byte) (fi : no_FileInfo) : list byte :=
  match fi with end.

(** ** The server's shared sender

    [Server.sendPacket] locks [svr.outMutex], defers the unlock and calls
    [sendPacket(svr.out, m)]. The [Server] struct is declared outside
    packet.go; only the two fields the method uses are modelled. Goroutines
    that call the method are threads of a transition system: a thread is at
    one of the method's control points, and one step runs it to the next
    one. A [Write] on the output is one step; steps of different threads
    interleave freely. *)

Module Server.
Section Model.

Context {W : Type} `{io.Writer W}.
Context {M : Type} `{encoding.BinaryMarshaler M}.

Record t : Type := mk {
  out : W;
  outMutex : bool
}.

(** The control points of a call [svr.sendPacket(m)]. The outcome [r] of the
    call is [Some err] for a return and [None] for a panic. *)
Inductive pc : Type :=
| AtLock (m : M)
| AtMarshal (m : M)
| AtWriteHdr (bb : list byte)
| AtWritePayload (bb : list byte)
| AtUnlock (r : option (option error))
| Returned (r : option (option error)).

(** One step of a thread; [None] when the thread cannot move (it waits for
    the mutex, or it has returned). *)
Definition thread_step (svr : t) (c : pc) : option (t * pc) :=
  match c with
  | AtLock m =>
      if outMutex svr then None
      else Some (mk (out svr) true, AtMarshal m)
  | AtMarshal m =>
      match encoding.MarshalBinary m with
      | None => Some (svr, AtUnlock None)
      | Some (bb, Some _) =>
          Some (svr, AtUnlock
                  (Some (Some (Errorf "marshal2(%#v): binary marshaller failed"))))
      | Some (bb, None) =>
          match sendPacket_debug bb with
          | None => Some (svr, AtUnlock None)
          | Some _ => Some (svr, AtWriteHdr bb)
          end
      end
  | AtWriteHdr bb =>
      let '(w, err) := io.Write (out svr) (sendPacket_hdr bb) in
      match err with
      | Some _ => Some (mk w (outMutex svr), AtUnlock (Some err))
      | None => Some (mk w (outMutex svr), AtWritePayload bb)
      end
  | AtWritePayload bb =>
      let '(w, err) := io.Write (out svr) bb in
      Some (mk w (outMutex svr), AtUnlock (Some err))
  | AtUnlock r => Some (mk (out svr) false, Returned r)
  | Returned _ => None
  end.

(** The server and the goroutines that are inside [svr.sendPacket]. *)
Definition state : Type := (t * list pc)%type.

Inductive step : state -> state -> Prop :=
| step_thread svr svr' c c' before after :
    thread_step svr c = Some (svr', c') ->
    step (svr, before ++ c :: after) (svr', before ++ c' :: after).

Inductive steps : state -> state -> Prop :=
| steps_refl st : steps st st
| steps_step st1 st2 st3 : steps st1 st2 -> step st2 st3 -> steps st1 st3.

(** [n] steps of one thread, run alone. *)
Fixpoint thread_run (n : nat) (svr : t) (c : pc) : t * pc :=
  match n with
  | O => (svr, c)
  | S n =>
      match thread_step svr c with
      | Some (svr, c) => thread_run n svr c
      | None => (svr, c)
      end
  end.

Definition returned (c : pc) : bool :=
  match c with
  | Returned _ => true
  | _ => false
  end.

(** The frame of a payload: header, then payload. *)
Definition frame (bb : list byte) : list byte := sendPacket_hdr bb ++ bb.

(** The server before any call, with output [w], and one goroutine for each
    response of [ms], about to call [svr.sendPacket]. *)
Definition initial (w : W) (ms : list M) : state :=
  (mk w false, map AtLock ms).

(** The thread is between [Lock] and [Unlock]. *)
Definition in_critical_section (c : pc) : bool :=
  match c with
  | AtMarshal _ | AtWriteHdr _ | AtWritePayload _ | AtUnlock _ => true
  | AtLock _ | Returned _ => false
  end.

(** The thread has done both writes. *)
Definition sent (c : pc) : bool :=
  match c with
  | AtUnlock _ | Returned _ => true
  | _ => false
  end.

(** What a thread has written of a frame it has not completed. *)
Definition partial_frame (c : pc) : list byte :=
  match c with
  | AtWritePayload bb => sendPacket_hdr bb
  | _ => []
  end.

(** The payloads, among [bbs], of the threads that have done both writes;
    [bbs] lists the payload of each thread, in the order of the threads. *)
Fixpoint sent_payloads (bbs : list (list byte)) (cs : list pc)
  : list (list byte) :=
  match bbs, cs with
  | bb :: bbs, c :: cs =>
      (if sent c then [bb] else []) ++ sent_payloads bbs cs
  | _, _ => []
  end.

(** A thread that sends the payload [bb] without error is at one of these
    points. *)
Definition sends (bb : list byte) (c : pc) : Prop :=
  match c with
  | AtLock m | AtMarshal m => encoding.MarshalBinary m = Some (bb, None)
  | AtWriteHdr bb' | AtWritePayload bb' => bb' = bb
  | AtUnlock r | Returned r => r = Some None
  end.

End Model.

Section OnBuffer.

Context {M : Type} `{encoding.BinaryMarshaler M}.

(** The invariant of the runs that start from [initial w0 ms] on the
    in-memory writer, where [bbs] are the payloads of [ms]: every thread is
    on the way of sending its payload, the mutex is locked exactly when one
    thread is in the critical section, and the output is [w0], then the
    frames of the threads that have written theirs, in some order, then what
    the thread in the critical section has written of its frame. *)
Definition invariant (w0 : list byte) (bbs : list (list byte))
  (st : @state (list byte) M) : Prop :=
  Forall2 sends bbs (snd st) /\
  List.length (filter in_critical_section (snd st)) =
    (if outMutex (fst st) then 1%nat else 0%nat) /\
  exists order,
    Permutation order (sent_payloads bbs (snd st)) /\
    out (fst st) =
      w0 ++ List.concat (map frame order) ++
      List.concat (map partial_frame (snd st)).

End OnBuffer.
End Server.

(** ** Further definitions *)

Section Supported.

Variable FileInfo : Type.

(** The values [marshal] can encode: at no depth does [v] hold a value of a
    kind that neither the type switch nor the kind switch handles, or a
    struct field that is not exported. *)
Fixpoint supported (v : value FileInfo) : bool :=
  match v with
  | VOther => false
  | VUnexported => false
  | VStruct vs | VSlice vs =>
      (fix all (vs : list (value FileInfo)) : bool :=
         match vs with
         | [] => true
         | v :: vs => supported v && all vs
         end) vs
  | _ => true
  end.

(** The same for a list of values. *)
Definition supported_all : list (value FileInfo) -> bool :=
  fix all (vs : list (value FileInfo)) : bool :=
    match vs with
    | [] => true
    | v :: vs => supported v && all vs
    end.

Variable marshalFileInfo : list byte -> FileInfo -> list byte.

(** The loop of [marshal] over the fields of a struct or the elements of a
    slice, as a function of its own. *)
Definition marshal_each : list (value FileInfo) -> list byte
                          -> option (list byte) :=
  fix each (vs : list (value FileInfo)) (b : list byte)
    : option (list byte) :=
    match vs with
    | [] => Some b
    | v :: vs => b <- marshal marshalFileInfo b v ;; each vs b
    end.

End Supported.

Arguments supported {FileInfo} v.
Arguments supported_all {FileInfo} vs.
Arguments marshal_each {FileInfo} marshalFileInfo vs b.

Section Panics.

Variable FileInfo : Type.
Variable marshalFileInfo : list byte -> FileInfo -> list byte.

(** [m.MarshalBinary()] where, when [m] is a DATA packet, [spare] are the
    bytes of the backing array of its [Data] beyond its length; no other
    method takes a slice of a field. *)
Definition MarshalBinary_cap (spare : list byte) (m : marshaler FileInfo)
  : option (list byte * option error) :=
  match m with
  | MU (UData p) => sshFxpDataPacket.MarshalBinary_cap spare p
  | _ => MarshalBinary marshalFileInfo m
  end.

(** The packet type each [MarshalBinary] writes as the first byte, as the
    source has it: the methods of STAT and REALPATH pass the types of LSTAT
    and READLINK. *)
Definition first_byte (m : marshaler FileInfo) : byte :=
  match m with
  | MU (UInit _) => ssh_FXP_INIT
  | MU (UReaddir _) => ssh_FXP_READDIR
  | MU (UOpendir _) => ssh_FXP_OPENDIR
  | MU (ULstat _) => ssh_FXP_LSTAT
  | MU (UStat _) => ssh_FXP_LSTAT
  | MU (UFstat _) => ssh_FXP_FSTAT
  | MU (UClose _) => ssh_FXP_CLOSE
  | MU (URemove _) => ssh_FXP_REMOVE
  | MU (URmdir _) => ssh_FXP_RMDIR
  | MU (USymlink _) => ssh_FXP_SYMLINK
  | MU (UReadlink _) => ssh_FXP_READLINK
  | MU (URealpath _) => ssh_FXP_READLINK
  | MU (UOpen _) => ssh_FXP_OPEN
  | MU (URead _) => ssh_FXP_READ
  | MU (URename _) => ssh_FXP_RENAME
  | MU (UWrite _) => ssh_FXP_WRITE
  | MU (UMkdir _) => ssh_FXP_MKDIR
  | MU (USetstat _) => ssh_FXP_SETSTAT
  | MU (UFsetstat _) => ssh_FXP_FSETSTAT
  | MU (UData _) => ssh_FXP_DATA
  | MVersion _ => ssh_FXP_VERSION
  | MName _ => ssh_FXP_NAME
  | MHandle _ => ssh_FXP_HANDLE
  | MStatvfs _ => ssh_FXP_EXTENDED
  end.

(** The packets on which [MarshalBinary] panics: a DATA packet whose
    [Length] is not within the capacity of its [Data], and a packet that
    holds a value [marshal] cannot encode. *)
Definition marshal_panics (spare : list byte) (m : marshaler FileInfo) : bool :=
  match m with
  | MU (UData p) =>
      negb ((0 <=? sshFxpDataPacket.Length p) &&
            (sshFxpDataPacket.Length p <=?
               len (sshFxpDataPacket.Data p ++ spare)))
  | MU (USetstat p) => negb (supported (sshFxpSetstatPacket.Attrs FileInfo p))
  | MU (UFsetstat p) => negb (supported (sshFxpFsetstatPacket.Attrs FileInfo p))
  | MName p =>
      negb (forallb
              (fun na => supported_all (sshFxpNameAttr.Attrs FileInfo na))
              (sshFxpNamePacket.NameAttrs FileInfo p))
  | _ => false
  end.

End Panics.

Arguments MarshalBinary_cap {FileInfo} marshalFileInfo spare m.
Arguments first_byte {FileInfo} m.
Arguments marshal_panics {FileInfo} spare m.


(** ** Runs of the senders, whatever the responses

    Nothing is assumed here of the responses handed to
    [Server.sendPacket]: their [MarshalBinary] may return an error or
    panic. *)

Module ServerRuns.
Import Server.

Section Model.

Context {W : Type} `{io.Writer W}.
Context {M : Type} `{encoding.BinaryMarshaler M}.

(** The control points a thread has still to go through, at most. *)
Definition remaining (c : @pc M) : nat :=
  match c with
  | AtLock _ => 5
  | AtMarshal _ => 4
  | AtWriteHdr _ => 3
  | AtWritePayload _ => 2
  | AtUnlock _ => 1
  | Returned _ => 0
  end.

(** Runs of [n] steps. *)
Inductive steps_n : nat -> @state W M -> @state W M -> Prop :=
| steps_n_O st : steps_n 0 st st
| steps_n_S n st1 st2 st3 :
    steps_n n st1 st2 -> step st2 st3 -> steps_n (S n) st1 st3.

End Model.

Section OnBuffer.

Context {M : Type} `{encoding.BinaryMarshaler M}.

(** What a call [sendPacket(w, m)] on the in-memory writer returns ([None]
    for a panic), and what it appends to the output. *)
Definition outcome (m : M) : option (option error) :=
  option_map snd (sendPacket ([] : list byte) m).

Definition written (m : M) : list byte :=
  match sendPacket ([] : list byte) m with
  | Some (w, _) => w
  | None => []
  end.

(** A thread that sends [m] is at one of these points. *)
Definition follows (m : M) (c : @pc M) : Prop :=
  match c with
  | AtLock m' | AtMarshal m' => m' = m
  | AtWriteHdr bb | AtWritePayload bb =>
      encoding.MarshalBinary m = Some (bb, None)
  | AtUnlock r | Returned r => r = outcome m
  end.

(** The responses, among [ms], of the threads that are past their writes;
    [ms] lists the response of each thread, in the order of the threads. *)
Fixpoint past_writes (ms : list M) (cs : list (@pc M)) : list M :=
  match ms, cs with
  | m :: ms, c :: cs => (if sent c then [m] else []) ++ past_writes ms cs
  | _, _ => []
  end.

(** The invariant of the runs that start from [initial w0 ms] on the
    in-memory writer: every thread is on the way of sending its response,
    the mutex is locked exactly when one thread is in the critical section,
    and the output is [w0], then what the calls that are past their writes
    have written, in some order of these calls, then what the thread in the
    critical section has written of its frame. *)
Definition run_invariant (w0 : list byte) (ms : list M)
  (st : @state (list byte) M) : Prop :=
  Forall2 follows ms (snd st) /\
  List.length (filter in_critical_section (snd st)) =
    (if outMutex (fst st) then 1%nat else 0%nat) /\
  exists order,
    Permutation order (past_writes ms (snd st)) /\
    out (fst st) =
      w0 ++ List.concat (map written order) ++
      List.concat (map partial_frame (snd st)).

End OnBuffer.
End ServerRuns.

(** * Proofs *)

(** * Bytes and machine integers *)

Lemma Z_of_byte_range (b : byte) : 0 <= Z_of_byte b < 2 ^ 8.
Proof.
  unfold Z_of_byte. pose proof (Byte.to_N_bounded b) as Hb.
  change (2 ^ 8) with 256. lia.
Qed.

Lemma Z_of_byte_of_Z (z : Z) : Z_of_byte (byte_of_Z z) = uint8 z.
Proof.
  unfold Z_of_byte, byte_of_Z.
  assert (Hr : 0 <= uint8 z < 256) by (unfold uint8; apply Z.mod_pos_bound; lia).
  destruct (Byte.of_N (Z.to_N (uint8 z))) as [b|] eqn:E.
  - apply Byte.to_of_N in E. rewrite E. lia.
  - apply Byte.of_N_None_iff in E. lia.
Qed.

Lemma byte_of_Z_of_byte (b : byte) : byte_of_Z (Z_of_byte b) = b.
Proof.
  unfold byte_of_Z, uint8. pose proof (Z_of_byte_range b) as Hb.
  rewrite Z.mod_small by exact Hb.
  unfold Z_of_byte. rewrite N2Z.id, Byte.of_to_N. reflexivity.
Qed.

Lemma len_nonneg {A : Type} (l : list A) : 0 <= len l.
Proof. unfold len. lia. Qed.

Lemma len_app {A : Type} (l1 l2 : list A) : len (l1 ++ l2) = len l1 + len l2.
Proof. unfold len. rewrite length_app. lia. Qed.

Lemma len_cons {A : Type} (x : A) (l : list A) : len (x :: l) = 1 + len l.
Proof. unfold len. cbn [List.length]. lia. Qed.

Lemma len_nil {A : Type} : len (@nil A) = 0.
Proof. reflexivity. Qed.

Lemma length_list_byte_of_string (s : string) :
  List.length (list_byte_of_string s) = String.length s.
Proof.
  induction s as [|a s IH]; cbn; [reflexivity|]. f_equal. exact IH.
Qed.

Lemma len_list_byte_of_string (s : string) :
  len (list_byte_of_string s) = strlen s.
Proof. unfold len, strlen. now rewrite length_list_byte_of_string. Qed.

(** * The unchecked decoders *)

Lemma unmarshalUint32_cons (b0 b1 b2 b3 : byte) (rest : list byte) :
  unmarshalUint32 (b0 :: b1 :: b2 :: b3 :: rest) = Some (be32 b0 b1 b2 b3, rest).
Proof.
  unfold unmarshalUint32, index, slice_from.
  rewrite !len_cons. pose proof (len_nonneg rest) as Hr.
  replace (3 <? 1 + (1 + (1 + (1 + len rest)))) with true by (symmetry; apply Z.ltb_lt; lia).
  replace (2 <? 1 + (1 + (1 + (1 + len rest)))) with true by (symmetry; apply Z.ltb_lt; lia).
  replace (1 <? 1 + (1 + (1 + (1 + len rest)))) with true by (symmetry; apply Z.ltb_lt; lia).
  replace (0 <? 1 + (1 + (1 + (1 + len rest)))) with true by (symmetry; apply Z.ltb_lt; lia).
  replace (4 <=? 1 + (1 + (1 + (1 + len rest)))) with true by (symmetry; apply Z.leb_le; lia).
  reflexivity.
Qed.

Lemma unmarshalUint32_short (b : list byte) :
  len b < 4 -> unmarshalUint32 b = None.
Proof.
  intros Hb. unfold unmarshalUint32, index.
  replace (3 <? len b) with false by (symmetry; apply Z.ltb_ge; lia).
  reflexivity.
Qed.

(** A buffer of at least [n] bytes splits into its first [n] bytes and the
    rest. *)
Lemma long_buffer_4 (b : list byte) :
  4 <= len b ->
  exists b0 b1 b2 b3 rest, b = b0 :: b1 :: b2 :: b3 :: rest.
Proof.
  unfold len. intros Hb.
  destruct b as [|b0 [|b1 [|b2 [|b3 rest]]]]; cbn in Hb; try lia.
  now exists b0, b1, b2, b3, rest.
Qed.

Lemma be32_range (b0 b1 b2 b3 : byte) : is_uint32 (be32 b0 b1 b2 b3).
Proof.
  unfold is_uint32, be32, uint32.
  pose proof (Z_of_byte_range b3) as H3.
  assert (H : forall x y, 0 <= x < 2 ^ 32 -> 0 <= y < 2 ^ 32 ->
                          0 <= Z.lor x y < 2 ^ 32).
  { intros x y [Hx0 Hx] [Hy0 Hy]. split.
    - apply Z.lor_nonneg. auto.
    - destruct (Z.eq_dec (Z.lor x y) 0) as [E|E]; [rewrite E; reflexivity|].
      apply Z.log2_lt_pow2; [pose proof (proj2 (Z.lor_nonneg x y) (conj Hx0 Hy0)); lia|].
      rewrite Z.log2_lor by assumption.
      apply Z.max_lub_lt.
      + destruct (Z.eq_dec x 0) as [->|]; [cbn; lia|]. apply Z.log2_lt_pow2; lia.
      + destruct (Z.eq_dec y 0) as [->|]; [cbn; lia|]. apply Z.log2_lt_pow2; lia. }
  repeat apply H; try (apply Z.mod_pos_bound; lia).
  change (2 ^ 8) with 256 in H3. change (2 ^ 32) with 4294967296. lia.
Qed.

Lemma testbit_Z_of_byte_high (b : byte) (n : Z) :
  8 <= n -> Z.testbit (Z_of_byte b) n = false.
Proof.
  intros Hn. pose proof (Z_of_byte_range b) as Hb.
  rewrite <- (Z.mod_small (Z_of_byte b) (2 ^ 8)) by exact Hb.
  apply Z.mod_pow2_bits_high. lia.
Qed.

(** Bit [n] of the value of four big-endian bytes. *)
Lemma testbit_be32 (b0 b1 b2 b3 : byte) (n : Z) :
  0 <= n ->
  Z.testbit (be32 b0 b1 b2 b3) n =
    if n <? 8 then Z.testbit (Z_of_byte b3) n
    else if n <? 16 then Z.testbit (Z_of_byte b2) (n - 8)
    else if n <? 24 then Z.testbit (Z_of_byte b1) (n - 16)
    else if n <? 32 then Z.testbit (Z_of_byte b0) (n - 24)
    else false.
Proof.
  intros Hn. unfold be32, uint32.
  rewrite !Z.lor_spec, !Z.testbit_mod_pow2, !Z.shiftl_spec by lia.
  destruct (n <? 8) eqn:E8; [apply Z.ltb_lt in E8|apply Z.ltb_ge in E8].
  { rewrite (Z.testbit_neg_r _ (n - 8)), (Z.testbit_neg_r _ (n - 16)),
      (Z.testbit_neg_r _ (n - 24)) by lia.
    now rewrite !andb_false_r, !orb_false_r. }
  rewrite (testbit_Z_of_byte_high b3 n) by lia.
  destruct (n <? 16) eqn:E16; [apply Z.ltb_lt in E16|apply Z.ltb_ge in E16].
  { rewrite (Z.testbit_neg_r _ (n - 16)), (Z.testbit_neg_r _ (n - 24)) by lia.
    replace (n <? 32) with true by (symmetry; apply Z.ltb_lt; lia).
    now rewrite !andb_false_r, !orb_false_r. }
  rewrite (testbit_Z_of_byte_high b2 (n - 8)) by lia.
  destruct (n <? 24) eqn:E24; [apply Z.ltb_lt in E24|apply Z.ltb_ge in E24].
  { rewrite (Z.testbit_neg_r _ (n - 24)) by lia.
    replace (n <? 32) with true by (symmetry; apply Z.ltb_lt; lia).
    now rewrite !andb_false_r, !orb_false_r. }
  rewrite (testbit_Z_of_byte_high b1 (n - 16)) by lia.
  destruct (n <? 32) eqn:E32; cbn; reflexivity.
Qed.

Lemma testbit_byte_of_Z (z n : Z) :
  0 <= n ->
  Z.testbit (Z_of_byte (byte_of_Z z)) n = (n <? 8) && Z.testbit z n.
Proof.
  intros Hn. rewrite Z_of_byte_of_Z. unfold uint8.
  apply Z.testbit_mod_pow2. lia.
Qed.

(** Decoding the four bytes [marshalUint32] writes gives the value back,
    reduced to 32 bits. *)
Lemma be32_marshal (v : Z) :
  be32 (byte_of_Z (Z.shiftr v 24)) (byte_of_Z (Z.shiftr v 16))
       (byte_of_Z (Z.shiftr v 8)) (byte_of_Z v) = uint32 v.
Proof.
  apply Z.bits_inj'. intros n Hn.
  rewrite testbit_be32 by exact Hn.
  unfold uint32. rewrite Z.testbit_mod_pow2 by lia.
  destruct (n <? 8) eqn:E8; [apply Z.ltb_lt in E8|apply Z.ltb_ge in E8].
  { rewrite testbit_byte_of_Z by lia.
    replace (n <? 8) with true by (symmetry; apply Z.ltb_lt; lia).
    replace (n <? 32) with true by (symmetry; apply Z.ltb_lt; lia).
    reflexivity. }
  destruct (n <? 16) eqn:E16; [apply Z.ltb_lt in E16|apply Z.ltb_ge in E16].
  { rewrite testbit_byte_of_Z, Z.shiftr_spec by lia.
    replace (n - 8 <? 8) with true by (symmetry; apply Z.ltb_lt; lia).
    replace (n <? 32) with true by (symmetry; apply Z.ltb_lt; lia).
    cbn [andb]. f_equal. lia. }
  destruct (n <? 24) eqn:E24; [apply Z.ltb_lt in E24|apply Z.ltb_ge in E24].
  { rewrite testbit_byte_of_Z, Z.shiftr_spec by lia.
    replace (n - 16 <? 8) with true by (symmetry; apply Z.ltb_lt; lia).
    replace (n <? 32) with true by (symmetry; apply Z.ltb_lt; lia).
    cbn [andb]. f_equal. lia. }
  destruct (n <? 32) eqn:E32; [apply Z.ltb_lt in E32|apply Z.ltb_ge in E32].
  { rewrite testbit_byte_of_Z, Z.shiftr_spec by lia.
    replace (n - 24 <? 8) with true by (symmetry; apply Z.ltb_lt; lia).
    cbn [andb]. f_equal. lia. }
  reflexivity.
Qed.

Lemma uint32_small (v : Z) : is_uint32 v -> uint32 v = v.
Proof. intros Hv. apply Z.mod_small. exact Hv. Qed.

Lemma uint32_range (v : Z) : is_uint32 (uint32 v).
Proof. apply Z.mod_pos_bound. reflexivity. Qed.

Lemma marshalUint32_app (b : list byte) (v : Z) :
  marshalUint32 b v = b ++ marshalUint32 [] v.
Proof. reflexivity. Qed.

Lemma unmarshalUint32_marshalUint32 (v : Z) (rest : list byte) :
  unmarshalUint32 (marshalUint32 [] v ++ rest) = Some (uint32 v, rest).
Proof.
  unfold marshalUint32. cbn [app].
  now rewrite unmarshalUint32_cons, be32_marshal.
Qed.

Lemma Z_of_byte_inj (a b : byte) : Z_of_byte a = Z_of_byte b -> a = b.
Proof.
  intros E. rewrite <- (byte_of_Z_of_byte a), <- (byte_of_Z_of_byte b).
  now rewrite E.
Qed.

Lemma byte_of_Z_bits (z : Z) (b : byte) :
  (forall n, 0 <= n < 8 -> Z.testbit z n = Z.testbit (Z_of_byte b) n) ->
  byte_of_Z z = b.
Proof.
  intros Hbits. apply Z_of_byte_inj. apply Z.bits_inj'. intros n Hn.
  rewrite testbit_byte_of_Z by exact Hn.
  destruct (n <? 8) eqn:E; [apply Z.ltb_lt in E|apply Z.ltb_ge in E].
  - cbn [andb]. apply Hbits. lia.
  - cbn [andb]. symmetry. now apply testbit_Z_of_byte_high.
Qed.

(** Encoding the value of four bytes gives the four bytes back. *)
Lemma marshalUint32_be32 (b0 b1 b2 b3 : byte) :
  marshalUint32 [] (be32 b0 b1 b2 b3) = [b0; b1; b2; b3].
Proof.
  unfold marshalUint32. cbn [app].
  repeat f_equal; apply byte_of_Z_bits; intros n Hn;
    rewrite ?Z.shiftr_spec by lia; rewrite testbit_be32 by lia.
  - replace (n + 24 <? 8) with false by (symmetry; apply Z.ltb_ge; lia).
    replace (n + 24 <? 16) with false by (symmetry; apply Z.ltb_ge; lia).
    replace (n + 24 <? 24) with false by (symmetry; apply Z.ltb_ge; lia).
    replace (n + 24 <? 32) with true by (symmetry; apply Z.ltb_lt; lia).
    f_equal. lia.
  - replace (n + 16 <? 8) with false by (symmetry; apply Z.ltb_ge; lia).
    replace (n + 16 <? 16) with false by (symmetry; apply Z.ltb_ge; lia).
    replace (n + 16 <? 24) with true by (symmetry; apply Z.ltb_lt; lia).
    f_equal. lia.
  - replace (n + 8 <? 8) with false by (symmetry; apply Z.ltb_ge; lia).
    replace (n + 8 <? 16) with true by (symmetry; apply Z.ltb_lt; lia).
    f_equal. lia.
  - replace (n <? 8) with true by (symmetry; apply Z.ltb_lt; lia).
    reflexivity.
Qed.

Lemma len_marshalUint32 (b : list byte) (v : Z) :
  len (marshalUint32 b v) = len b + 4.
Proof. unfold marshalUint32. rewrite len_app. reflexivity. Qed.

(** ** [unmarshalUint32Safe] *)

Lemma unmarshalUint32Safe_short (b : list byte) :
  len b < 4 -> unmarshalUint32Safe b = Some (0, [], Some shortPacketError).
Proof.
  intros Hb. unfold unmarshalUint32Safe.
  replace (len b <? 4) with true by (symmetry; apply Z.ltb_lt; lia).
  reflexivity.
Qed.

Lemma unmarshalUint32Safe_cons (b0 b1 b2 b3 : byte) (rest : list byte) :
  unmarshalUint32Safe (b0 :: b1 :: b2 :: b3 :: rest) =
    Some (be32 b0 b1 b2 b3, rest, None).
Proof.
  unfold unmarshalUint32Safe. rewrite !len_cons.
  pose proof (len_nonneg rest).
  replace (1 + (1 + (1 + (1 + len rest))) <? 4) with false
    by (symmetry; apply Z.ltb_ge; lia).
  now rewrite unmarshalUint32_cons.
Qed.

Lemma unmarshalUint32Safe_long (b : list byte) :
  4 <= len b ->
  exists v rest,
    unmarshalUint32Safe b = Some (v, rest, None) /\
    b = marshalUint32 [] v ++ rest /\ is_uint32 v.
Proof.
  intros Hb. destruct (long_buffer_4 b Hb) as (b0 & b1 & b2 & b3 & rest & ->).
  exists (be32 b0 b1 b2 b3), rest. split; [apply unmarshalUint32Safe_cons|].
  split; [now rewrite marshalUint32_be32|apply be32_range].
Qed.

Lemma unmarshalUint32Safe_marshal (v : Z) (rest : list byte) :
  unmarshalUint32Safe (marshalUint32 [] v ++ rest) = Some (uint32 v, rest, None).
Proof.
  unfold marshalUint32. cbn [app].
  now rewrite unmarshalUint32Safe_cons, be32_marshal.
Qed.

(** What a call of [unmarshalUint32Safe] can return. *)
Lemma unmarshalUint32Safe_cases (b : list byte) :
  (len b < 4 /\ unmarshalUint32Safe b = Some (0, [], Some shortPacketError)) \/
  (exists v rest,
      b = marshalUint32 [] v ++ rest /\ is_uint32 v /\
      unmarshalUint32Safe b = Some (v, rest, None)).
Proof.
  destruct (Z_lt_le_dec (len b) 4) as [Hb|Hb].
  - left. split; [exact Hb|now apply unmarshalUint32Safe_short].
  - right. destruct (unmarshalUint32Safe_long b Hb) as (v & rest & E & Eb & Hv).
    now exists v, rest.
Qed.

(** ** [unmarshalUint64Safe] *)

Lemma uint64_range (v : Z) : is_uint64 (uint64 v).
Proof. apply Z.mod_pos_bound. reflexivity. Qed.

Lemma uint64_small (v : Z) : is_uint64 v -> uint64 v = v.
Proof. intros Hv. apply Z.mod_small. exact Hv. Qed.

Lemma marshalUint64_app (b : list byte) (v : Z) :
  marshalUint64 b v = b ++ marshalUint64 [] v.
Proof.
  unfold marshalUint64, marshalUint32. now rewrite <- !app_assoc.
Qed.

Lemma len_marshalUint64 (b : list byte) (v : Z) :
  len (marshalUint64 b v) = len b + 8.
Proof. unfold marshalUint64. rewrite !len_marshalUint32. lia. Qed.

Lemma testbit_uint32 (v n : Z) :
  Z.testbit (uint32 v) n = (n <? 32) && Z.testbit v n.
Proof. unfold uint32. apply Z.testbit_mod_pow2. lia. Qed.

Lemma testbit_high_uint32 (v n : Z) :
  is_uint32 v -> 32 <= n -> Z.testbit v n = false.
Proof.
  intros Hv Hn. rewrite <- (uint32_small v Hv), testbit_uint32.
  replace (n <? 32) with false by (symmetry; apply Z.ltb_ge; lia).
  reflexivity.
Qed.

Lemma testbit_be64 (h l n : Z) :
  is_uint32 h -> is_uint32 l -> 0 <= n ->
  Z.testbit (be64 h l) n =
    if n <? 32 then Z.testbit l n else Z.testbit h (n - 32).
Proof.
  intros Hh Hl Hn. unfold be64, uint64.
  rewrite Z.lor_spec, Z.testbit_mod_pow2, Z.shiftl_spec by lia.
  destruct (n <? 32) eqn:E; [apply Z.ltb_lt in E|apply Z.ltb_ge in E].
  - rewrite (Z.testbit_neg_r _ (n - 32)) by lia. now rewrite andb_false_r.
  - rewrite (testbit_high_uint32 l n Hl E), orb_false_r.
    destruct (n <? 64) eqn:E64; [reflexivity|apply Z.ltb_ge in E64].
    cbn [andb]. symmetry. apply testbit_high_uint32; [exact Hh|lia].
Qed.

Lemma be64_range (h l : Z) : is_uint32 h -> is_uint32 l -> is_uint64 (be64 h l).
Proof.
  intros Hh Hl.
  assert (E : be64 h l = uint64 (be64 h l)).
  { apply Z.bits_inj'. intros n Hn. unfold uint64 at 1.
    rewrite Z.testbit_mod_pow2 by lia.
    destruct (n <? 64) eqn:E64; [reflexivity|apply Z.ltb_ge in E64].
    rewrite testbit_be64 by assumption.
    replace (n <? 32) with false by (symmetry; apply Z.ltb_ge; lia).
    cbn [andb]. apply testbit_high_uint32; [exact Hh|lia]. }
  rewrite E. apply uint64_range.
Qed.

Lemma be64_marshal (v : Z) :
  be64 (uint32 (uint32 (Z.shiftr v 32))) (uint32 (uint32 v)) = uint64 v.
Proof.
  apply Z.bits_inj'. intros n Hn.
  rewrite testbit_be64 by (try apply uint32_range; exact Hn).
  unfold uint64. rewrite Z.testbit_mod_pow2 by lia.
  rewrite !testbit_uint32.
  destruct (n <? 32) eqn:E; [apply Z.ltb_lt in E|apply Z.ltb_ge in E].
  - replace (n <? 64) with true by (symmetry; apply Z.ltb_lt; lia).
    reflexivity.
  - rewrite Z.shiftr_spec by lia. replace (n - 32 + 32) with n by lia.
    destruct (n <? 64) eqn:E64; [apply Z.ltb_lt in E64|apply Z.ltb_ge in E64].
    + replace (n - 32 <? 32) with true by (symmetry; apply Z.ltb_lt; lia).
      reflexivity.
    + replace (n - 32 <? 32) with false by (symmetry; apply Z.ltb_ge; lia).
      reflexivity.
Qed.

(** Encoding the value of two halves gives the encodings of the halves. *)
Lemma marshalUint64_be64 (h l : Z) :
  is_uint32 h -> is_uint32 l ->
  marshalUint64 [] (be64 h l) = marshalUint32 [] h ++ marshalUint32 [] l.
Proof.
  intros Hh Hl. unfold marshalUint64.
  rewrite (marshalUint32_app (marshalUint32 _ _)).
  assert (E1 : uint32 (Z.shiftr (be64 h l) 32) = h).
  { apply Z.bits_inj'. intros n Hn.
    rewrite testbit_uint32, Z.shiftr_spec, testbit_be64 by (assumption || lia).
    replace (n + 32 <? 32) with false by (symmetry; apply Z.ltb_ge; lia).
    replace (n + 32 - 32) with n by lia.
    destruct (n <? 32) eqn:E; [reflexivity|apply Z.ltb_ge in E].
    cbn [andb]. symmetry. now apply testbit_high_uint32. }
  assert (E2 : uint32 (be64 h l) = l).
  { apply Z.bits_inj'. intros n Hn.
    rewrite testbit_uint32, testbit_be64 by (assumption || lia).
    destruct (n <? 32) eqn:E; [reflexivity|apply Z.ltb_ge in E].
    cbn [andb]. symmetry. now apply testbit_high_uint32. }
  now rewrite E1, E2.
Qed.

Lemma long_buffer_8 (b : list byte) :
  8 <= len b ->
  exists b0 b1 b2 b3 b4 b5 b6 b7 rest,
    b = b0 :: b1 :: b2 :: b3 :: b4 :: b5 :: b6 :: b7 :: rest.
Proof.
  unfold len. intros Hb.
  destruct b as [|b0 [|b1 [|b2 [|b3 [|b4 [|b5 [|b6 [|b7 rest]]]]]]]];
    cbn in Hb; try lia.
  now exists b0, b1, b2, b3, b4, b5, b6, b7, rest.
Qed.

Lemma unmarshalUint64_cons (b0 b1 b2 b3 b4 b5 b6 b7 : byte) (rest : list byte) :
  unmarshalUint64 (b0 :: b1 :: b2 :: b3 :: b4 :: b5 :: b6 :: b7 :: rest) =
    Some (be64 (be32 b0 b1 b2 b3) (be32 b4 b5 b6 b7), rest).
Proof.
  unfold unmarshalUint64. now rewrite !unmarshalUint32_cons.
Qed.

Lemma unmarshalUint64Safe_short (b : list byte) :
  len b < 8 -> unmarshalUint64Safe b = Some (0, [], Some shortPacketError).
Proof.
  intros Hb. unfold unmarshalUint64Safe.
  replace (len b <? 8) with true by (symmetry; apply Z.ltb_lt; lia).
  reflexivity.
Qed.

Lemma unmarshalUint64Safe_cons (b0 b1 b2 b3 b4 b5 b6 b7 : byte)
  (rest : list byte) :
  unmarshalUint64Safe (b0 :: b1 :: b2 :: b3 :: b4 :: b5 :: b6 :: b7 :: rest) =
    Some (be64 (be32 b0 b1 b2 b3) (be32 b4 b5 b6 b7), rest, None).
Proof.
  unfold unmarshalUint64Safe. rewrite !len_cons.
  pose proof (len_nonneg rest).
  match goal with
  | |- context [?x <? 8] =>
      replace (x <? 8) with false by (symmetry; apply Z.ltb_ge; lia)
  end.
  now rewrite unmarshalUint64_cons.
Qed.

Lemma unmarshalUint64Safe_long (b : list byte) :
  8 <= len b ->
  exists v rest,
    unmarshalUint64Safe b = Some (v, rest, None) /\
    b = marshalUint64 [] v ++ rest /\ is_uint64 v.
Proof.
  intros Hb.
  destruct (long_buffer_8 b Hb)
    as (b0 & b1 & b2 & b3 & b4 & b5 & b6 & b7 & rest & ->).
  exists (be64 (be32 b0 b1 b2 b3) (be32 b4 b5 b6 b7)), rest.
  split; [apply unmarshalUint64Safe_cons|]. split.
  - rewrite marshalUint64_be64 by apply be32_range.
    now rewrite !marshalUint32_be32.
  - apply be64_range; apply be32_range.
Qed.

Lemma unmarshalUint64Safe_marshal (v : Z) (rest : list byte) :
  unmarshalUint64Safe (marshalUint64 [] v ++ rest) = Some (uint64 v, rest, None).
Proof.
  unfold marshalUint64, marshalUint32. cbn [app].
  rewrite unmarshalUint64Safe_cons, !be32_marshal. now rewrite be64_marshal.
Qed.

Lemma unmarshalUint64Safe_cases (b : list byte) :
  (len b < 8 /\ unmarshalUint64Safe b = Some (0, [], Some shortPacketError)) \/
  (exists v rest,
      b = marshalUint64 [] v ++ rest /\ is_uint64 v /\
      unmarshalUint64Safe b = Some (v, rest, None)).
Proof.
  destruct (Z_lt_le_dec (len b) 8) as [Hb|Hb].
  - left. split; [exact Hb|now apply unmarshalUint64Safe_short].
  - right. destruct (unmarshalUint64Safe_long b Hb) as (v & rest & E & Eb & Hv).
    now exists v, rest.
Qed.

(** ** Slices *)

Lemma slice_to_app (s rest : list byte) :
  slice_to (s ++ rest) (len s) = Some s.
Proof.
  unfold slice_to. rewrite len_app.
  pose proof (len_nonneg s). pose proof (len_nonneg rest).
  replace (0 <=? len s) with true by (symmetry; apply Z.leb_le; lia).
  replace (len s <=? len s + len rest) with true
    by (symmetry; apply Z.leb_le; lia).
  cbn [andb]. unfold len. rewrite Nat2Z.id.
  rewrite firstn_app, Nat.sub_diag, firstn_all. cbn [firstn].
  now rewrite app_nil_r.
Qed.

Lemma slice_from_app (s rest : list byte) :
  slice_from (s ++ rest) (len s) = Some rest.
Proof.
  unfold slice_from. rewrite len_app.
  pose proof (len_nonneg s). pose proof (len_nonneg rest).
  replace (0 <=? len s) with true by (symmetry; apply Z.leb_le; lia).
  replace (len s <=? len s + len rest) with true
    by (symmetry; apply Z.leb_le; lia).
  cbn [andb]. unfold len. rewrite Nat2Z.id.
  rewrite skipn_app, Nat.sub_diag, skipn_all. reflexivity.
Qed.

(** A buffer of at least [n] bytes is its first [n] bytes followed by the
    rest. *)
Lemma split_buffer (b : list byte) (n : Z) :
  0 <= n <= len b ->
  exists s rest, b = s ++ rest /\ len s = n.
Proof.
  intros Hn. exists (firstn (Z.to_nat n) b), (skipn (Z.to_nat n) b).
  split; [now rewrite firstn_skipn|].
  unfold len in *. rewrite length_firstn. lia.
Qed.

(** ** [unmarshalStringSafe] *)

Lemma marshalString_app (b : list byte) (v : string) :
  marshalString b v = b ++ marshalString [] v.
Proof.
  unfold marshalString, marshalUint32. now rewrite <- !app_assoc.
Qed.

Lemma len_marshalString (b : list byte) (v : string) :
  len (marshalString b v) = len b + 4 + strlen v.
Proof.
  unfold marshalString.
  now rewrite len_app, len_marshalUint32, len_list_byte_of_string.
Qed.

Lemma strlen_string_of_list_byte (s : list byte) :
  strlen (string_of_list_byte s) = len s.
Proof.
  rewrite <- len_list_byte_of_string.
  now rewrite list_byte_of_string_of_list_byte.
Qed.

Lemma strlen_nonneg (s : string) : 0 <= strlen s.
Proof. unfold strlen. lia. Qed.

Lemma unmarshalStringSafe_short (b : list byte) :
  len b < 4 ->
  unmarshalStringSafe b = Some (EmptyString, [], Some shortPacketError).
Proof.
  intros Hb. unfold unmarshalStringSafe.
  now rewrite unmarshalUint32Safe_short.
Qed.

(** The declared length exceeds what is left after the length field. *)
Lemma unmarshalStringSafe_spoofed (n : Z) (b' : list byte) :
  is_uint32 n -> len b' < n ->
  unmarshalStringSafe (marshalUint32 [] n ++ b') =
    Some (EmptyString, [], Some shortPacketError).
Proof.
  intros Hn Hb. unfold unmarshalStringSafe.
  rewrite unmarshalUint32Safe_marshal, uint32_small by exact Hn.
  replace (n >? len b') with true by (symmetry; rewrite Z.gtb_ltb; apply Z.ltb_lt; lia).
  reflexivity.
Qed.

(** The declared length is covered by what is left after the length
    field. *)
Lemma unmarshalStringSafe_bytes (s rest : list byte) :
  len s < 2 ^ 32 ->
  unmarshalStringSafe (marshalUint32 [] (len s) ++ s ++ rest) =
    Some (string_of_list_byte s, rest, None).
Proof.
  intros Hs. pose proof (len_nonneg s) as Hs0. pose proof (len_nonneg rest).
  unfold unmarshalStringSafe.
  rewrite unmarshalUint32Safe_marshal, uint32_small by (split; assumption).
  replace (len s >? len (s ++ rest)) with false
    by (symmetry; rewrite len_app, Z.gtb_ltb; apply Z.ltb_ge; lia).
  now rewrite slice_to_app, slice_from_app.
Qed.

Lemma unmarshalStringSafe_marshal (s : string) (rest : list byte) :
  strlen s < 2 ^ 32 ->
  unmarshalStringSafe (marshalString [] s ++ rest) = Some (s, rest, None).
Proof.
  intros Hs. pose proof (strlen_nonneg s) as Hs0.
  unfold marshalString.
  rewrite uint32_small by (split; assumption).
  rewrite <- len_list_byte_of_string in *.
  rewrite <- app_assoc, unmarshalStringSafe_bytes by exact Hs.
  now rewrite string_of_list_byte_of_string.
Qed.

(** What a call of [unmarshalStringSafe] can return. *)
Lemma unmarshalStringSafe_cases (b : list byte) :
  (len b < 4 /\
   unmarshalStringSafe b = Some (EmptyString, [], Some shortPacketError)) \/
  (exists n b',
      b = marshalUint32 [] n ++ b' /\ is_uint32 n /\ len b' < n /\
      unmarshalStringSafe b = Some (EmptyString, [], Some shortPacketError)) \/
  (exists s rest,
      b = marshalString [] s ++ rest /\ strlen s < 2 ^ 32 /\
      unmarshalStringSafe b = Some (s, rest, None)).
Proof.
  destruct (unmarshalUint32Safe_cases b) as [[Hb _]|(n & b' & -> & Hn & _)].
  - left. split; [exact Hb|now apply unmarshalStringSafe_short].
  - right. destruct (Z_lt_le_dec (len b') n) as [Hlt|Hle].
    + left. exists n, b'. repeat split; try assumption; try apply Hn.
      now apply unmarshalStringSafe_spoofed.
    + right. destruct (split_buffer b' n) as (s & rest & -> & Es);
        [split; [apply Hn|exact Hle]|].
      subst n. exists (string_of_list_byte s), rest.
      assert (Hs : len s < 2 ^ 32) by apply Hn.
      split; [|split].
      * unfold marshalString.
        rewrite strlen_string_of_list_byte, uint32_small by exact Hn.
        now rewrite list_byte_of_string_of_list_byte, <- app_assoc.
      * now rewrite strlen_string_of_list_byte.
      * now apply unmarshalStringSafe_bytes.
Qed.

(** A successful checked decode is not disturbed by bytes that follow the
    buffer. *)
Lemma unmarshalUint32Safe_extra (b extra rest : list byte) (v : Z) :
  unmarshalUint32Safe b = Some (v, rest, None) ->
  unmarshalUint32Safe (b ++ extra) = Some (v, rest ++ extra, None).
Proof.
  intros E.
  destruct (unmarshalUint32Safe_cases b) as [[_ E']|(v' & r' & -> & Hv & E')];
    rewrite E' in E; [discriminate|].
  injection E as -> ->.
  now rewrite <- app_assoc, unmarshalUint32Safe_marshal, uint32_small.
Qed.

Lemma unmarshalUint64Safe_extra (b extra rest : list byte) (v : Z) :
  unmarshalUint64Safe b = Some (v, rest, None) ->
  unmarshalUint64Safe (b ++ extra) = Some (v, rest ++ extra, None).
Proof.
  intros E.
  destruct (unmarshalUint64Safe_cases b) as [[_ E']|(v' & r' & -> & Hv & E')];
    rewrite E' in E; [discriminate|].
  injection E as -> ->.
  now rewrite <- app_assoc, unmarshalUint64Safe_marshal, uint64_small.
Qed.

Lemma unmarshalStringSafe_extra (b extra rest : list byte) (s : string) :
  unmarshalStringSafe b = Some (s, rest, None) ->
  unmarshalStringSafe (b ++ extra) = Some (s, rest ++ extra, None).
Proof.
  intros E.
  destruct (unmarshalStringSafe_cases b)
    as [[_ E']|[(n & b' & _ & _ & _ & E')|(s' & r' & -> & Hs & E')]];
    rewrite E' in E; try discriminate.
  injection E as -> ->.
  now rewrite <- app_assoc, unmarshalStringSafe_marshal.
Qed.

(** Every outcome of a checked decoder with an error is the short-packet
    error. *)
Lemma unmarshalUint32Safe_error (b rest : list byte) (v : Z) (e : error) :
  unmarshalUint32Safe b = Some (v, rest, Some e) ->
  e = shortPacketError /\ v = 0 /\ rest = [].
Proof.
  intros E.
  destruct (unmarshalUint32Safe_cases b) as [[_ E']|(v' & r' & _ & _ & E')];
    rewrite E' in E; [|discriminate].
  injection E as <- <- <-. now repeat split.
Qed.

Lemma unmarshalUint64Safe_error (b rest : list byte) (v : Z) (e : error) :
  unmarshalUint64Safe b = Some (v, rest, Some e) ->
  e = shortPacketError /\ v = 0 /\ rest = [].
Proof.
  intros E.
  destruct (unmarshalUint64Safe_cases b) as [[_ E']|(v' & r' & _ & _ & E')];
    rewrite E' in E; [|discriminate].
  injection E as <- <- <-. now repeat split.
Qed.

Lemma unmarshalStringSafe_error (b rest : list byte) (s : string) (e : error) :
  unmarshalStringSafe b = Some (s, rest, Some e) ->
  e = shortPacketError /\ s = EmptyString /\ rest = [].
Proof.
  intros E.
  destruct (unmarshalStringSafe_cases b)
    as [[_ E']|[(n & b' & _ & _ & _ & E')|(s' & r' & _ & _ & E')]];
    rewrite E' in E; try discriminate;
    injection E as <- <- <-; now repeat split.
Qed.

Lemma unmarshalUint32Safe_total (b : list byte) :
  exists v rest err, unmarshalUint32Safe b = Some (v, rest, err).
Proof.
  destruct (unmarshalUint32Safe_cases b) as [[_ E]|(v & r & _ & _ & E)];
    rewrite E; eauto.
Qed.

Lemma unmarshalUint64Safe_total (b : list byte) :
  exists v rest err, unmarshalUint64Safe b = Some (v, rest, err).
Proof.
  destruct (unmarshalUint64Safe_cases b) as [[_ E]|(v & r & _ & _ & E)];
    rewrite E; eauto.
Qed.

Lemma unmarshalStringSafe_total (b : list byte) :
  exists s rest err, unmarshalStringSafe b = Some (s, rest, err).
Proof.
  destruct (unmarshalStringSafe_cases b)
    as [[_ E]|[(n & b' & _ & _ & _ & E)|(s & r & _ & _ & E)]];
    rewrite E; eauto.
Qed.

(** * Type tags of STAT, LSTAT, REALPATH and READLINK *)

(** C1 (violated by the code): the claim asks for distinct first bytes for
    STAT and LSTAT and for REALPATH and READLINK. In the code the STAT
    packet is marshalled with [ssh_FXP_LSTAT] and the REALPATH packet with
    [ssh_FXP_READLINK]: the first bytes of each pair are equal, for all
    packets, although the registry's tags differ. *)
Theorem stat_and_realpath_reuse_tags
  (p : sshFxpStatPacket.t) (q : sshFxpLstatPacket.t)
  (r : sshFxpRealpathPacket.t) (s : sshFxpReadlinkPacket.t) :
  (exists bp bq,
      sshFxpStatPacket.MarshalBinary p = Some (ssh_FXP_LSTAT :: bp, None) /\
      sshFxpLstatPacket.MarshalBinary q = Some (ssh_FXP_LSTAT :: bq, None)) /\
  (exists br bs,
      sshFxpRealpathPacket.MarshalBinary r = Some (ssh_FXP_READLINK :: br, None) /\
      sshFxpReadlinkPacket.MarshalBinary s = Some (ssh_FXP_READLINK :: bs, None)) /\
  ssh_FXP_STAT <> ssh_FXP_LSTAT /\ ssh_FXP_REALPATH <> ssh_FXP_READLINK.
Proof.
  split; [|split; [|split; discriminate]].
  - eexists _, _. split; reflexivity.
  - eexists _, _. split; reflexivity.
Qed.

(** * Checked decoders *)

(** C3: on every buffer each checked decoder returns (it does not panic on
    an index out of range), and it either fails with [shortPacketError]
    or gives back the value and the buffer without the bytes of the field,
    which are exactly the encoding of the value. The 32-bit decoder fails
    exactly below 4 bytes, the 64-bit decoder exactly below 8 bytes, the
    string decoder exactly when fewer than 4 bytes remain or the declared
    length exceeds what follows the length field. *)
Theorem checked_decoders_consume_or_fail (b : list byte) :
  ((len b < 4 /\ unmarshalUint32Safe b = Some (0, [], Some shortPacketError)) \/
   (exists v rest,
       b = marshalUint32 [] v ++ rest /\ is_uint32 v /\
       unmarshalUint32Safe b = Some (v, rest, None))) /\
  ((len b < 8 /\ unmarshalUint64Safe b = Some (0, [], Some shortPacketError)) \/
   (exists v rest,
       b = marshalUint64 [] v ++ rest /\ is_uint64 v /\
       unmarshalUint64Safe b = Some (v, rest, None))) /\
  ((len b < 4 /\
    unmarshalStringSafe b = Some (EmptyString, [], Some shortPacketError)) \/
   (exists n b',
       b = marshalUint32 [] n ++ b' /\ is_uint32 n /\ len b' < n /\
       unmarshalStringSafe b = Some (EmptyString, [], Some shortPacketError)) \/
   (exists s rest,
       b = marshalString [] s ++ rest /\ strlen s < 2 ^ 32 /\
       unmarshalStringSafe b = Some (s, rest, None))).
Proof.
  split; [apply unmarshalUint32Safe_cases|].
  split; [apply unmarshalUint64Safe_cases|apply unmarshalStringSafe_cases].
Qed.

(** * Declared lengths of WRITE and DATA *)

(** C2 (violated by the code for DATA): a WRITE or DATA body whose fixed
    fields are complete and whose declared length [n] exceeds the bytes
    that follow is rejected, without a panic and without touching [Data].
    [sshFxpWritePacket.UnmarshalBinary] returns [shortPacketError], as the
    claim asks; [sshFxpDataPacket.UnmarshalBinary] returns another error,
    made on the spot with the text "truncated packet". *)
Theorem write_and_data_reject_spoofed_length
  (p : sshFxpWritePacket.t) (q : sshFxpDataPacket.t)
  (id off n : Z) (h : string) (rest : list byte)
  (Hid : is_uint32 id) (Hh : strlen h < 2 ^ 32) (Hoff : is_uint64 off)
  (Hn : is_uint32 n) (Hrest : len rest < n) :
  sshFxpWritePacket.UnmarshalBinary p
    (marshalUint32 [] id ++ marshalString [] h ++ marshalUint64 [] off ++
     marshalUint32 [] n ++ rest) =
    Some (sshFxpWritePacket.mk id h off n (sshFxpWritePacket.Data p),
          Some shortPacketError) /\
  sshFxpDataPacket.UnmarshalBinary q
    (marshalUint32 [] id ++ marshalUint32 [] n ++ rest) =
    Some (sshFxpDataPacket.mk id n (sshFxpDataPacket.Data q),
          Some (Errorf "truncated packet")).
Proof.
  assert (Hlt : (uint32 (len rest) <? n) = true).
  { apply Z.ltb_lt. rewrite uint32_small; [exact Hrest|].
    pose proof (len_nonneg rest). unfold is_uint32 in *. lia. }
  split.
  - unfold sshFxpWritePacket.UnmarshalBinary.
    rewrite unmarshalUint32Safe_marshal, (uint32_small id) by exact Hid.
    rewrite unmarshalStringSafe_marshal by exact Hh.
    rewrite unmarshalUint64Safe_marshal, (uint64_small off) by exact Hoff.
    rewrite unmarshalUint32Safe_marshal, (uint32_small n) by exact Hn.
    cbn [sshFxpWritePacket.Id sshFxpWritePacket.Handle sshFxpWritePacket.Offset
         sshFxpWritePacket.Length sshFxpWritePacket.Data].
    now rewrite Hlt.
  - unfold sshFxpDataPacket.UnmarshalBinary.
    rewrite unmarshalUint32Safe_marshal, (uint32_small id) by exact Hid.
    rewrite unmarshalUint32Safe_marshal, (uint32_small n) by exact Hn.
    cbn [sshFxpDataPacket.Id sshFxpDataPacket.Length sshFxpDataPacket.Data].
    now rewrite Hlt.
Qed.

Lemma write_and_data_reject_spoofed_length_witness :
  sshFxpWritePacket.UnmarshalBinary
    (sshFxpWritePacket.mk 0 EmptyString 0 0 [])
    (marshalUint32 [] 7 ++ marshalString [] "h" ++ marshalUint64 [] 16 ++
     marshalUint32 [] 5 ++ [x61; x62]) =
    Some (sshFxpWritePacket.mk 7 "h" 16 5 [], Some shortPacketError) /\
  sshFxpDataPacket.UnmarshalBinary
    (sshFxpDataPacket.mk 0 0 [])
    (marshalUint32 [] 7 ++ marshalUint32 [] 5 ++ [x61; x62]) =
    Some (sshFxpDataPacket.mk 7 5 [], Some (Errorf "truncated packet")).
Proof.
  apply (write_and_data_reject_spoofed_length
           (sshFxpWritePacket.mk 0 EmptyString 0 0 [])
           (sshFxpDataPacket.mk 0 0 []) 7 16 5 "h" [x61; x62]);
    unfold is_uint32, is_uint64, strlen, len; cbn; lia.
Defined.

(** A DATA body that declares five bytes and carries one is rejected with
    an error that is not [shortPacketError]. *)
Lemma data_spoofed_length_is_not_shortPacketError :
  exists e,
    sshFxpDataPacket.UnmarshalBinary (sshFxpDataPacket.mk 0 0 [])
      [x00; x00; x00; x01; x00; x00; x00; x05; xaa] =
      Some (sshFxpDataPacket.mk 1 5 [], Some e) /\
    e <> shortPacketError.
Proof.
  exists (Errorf "truncated packet"). split; [reflexivity|discriminate].
Qed.

(** * StatVFS *)

(** C8: [TotalSpace] is [Frsize * Blocks] and [FreeSpace] is
    [Frsize * Bfree], both modulo 2^64; the receiver is left as it was, and
    whatever the other fields hold, the results are the same. *)
Theorem StatVFS_accessors (p : StatVFS.t)
  (id bsize blocks bfree bavail files ffree favail fsid flag namemax : Z) :
  StatVFS.TotalSpace p =
    ((StatVFS.Frsize p * StatVFS.Blocks p) mod 2 ^ 64, p) /\
  StatVFS.FreeSpace p =
    ((StatVFS.Frsize p * StatVFS.Bfree p) mod 2 ^ 64, p) /\
  is_uint64 (fst (StatVFS.TotalSpace p)) /\
  is_uint64 (fst (StatVFS.FreeSpace p)) /\
  fst (StatVFS.TotalSpace
         (StatVFS.mk id bsize (StatVFS.Frsize p) (StatVFS.Blocks p) bfree
            bavail files ffree favail fsid flag namemax)) =
    fst (StatVFS.TotalSpace p) /\
  fst (StatVFS.FreeSpace
         (StatVFS.mk id bsize (StatVFS.Frsize p) blocks (StatVFS.Bfree p)
            bavail files ffree favail fsid flag namemax)) =
    fst (StatVFS.FreeSpace p).
Proof.
  repeat split; cbn; apply Z.mod_pos_bound; reflexivity.
Qed.

(** * Framing *)

Lemma ReadFull_enough (s rest : list byte) :
  io.ReadFull (s ++ rest) (len s) = (rest, s, None).
Proof.
  unfold io.ReadFull. rewrite len_app. pose proof (len_nonneg rest).
  replace (len s <=? len s + len rest) with true
    by (symmetry; apply Z.leb_le; lia).
  unfold len. rewrite Nat2Z.id.
  rewrite skipn_app, firstn_app, Nat.sub_diag, skipn_all, firstn_all.
  cbn [skipn firstn]. now rewrite app_nil_r.
Qed.

Lemma len_make (n : Z) : 0 <= n -> len (make n) = n.
Proof. intros Hn. unfold len, make. rewrite repeat_length. lia. Qed.

(** The header is the big-endian encoding of the payload length reduced to
    32 bits. *)
Lemma sendPacket_hdr_marshalUint32 (bb : list byte) :
  sendPacket_hdr bb = marshalUint32 [] (uint32 (len bb)).
Proof. reflexivity. Qed.

(** [recvPacket] on a stream that starts with a length field [l] followed
    by at least [l] bytes. *)
Lemma recvPacket_frame (l : Z) (payload rest : list byte) :
  is_uint32 l -> len payload = l ->
  recvPacket (marshalUint32 [] l ++ payload ++ rest) =
    match payload with
    | [] => None
    | b0 :: b1 => Some (rest, (b0, b1, None))
    end.
Proof.
  intros Hl Hp. unfold recvPacket.
  change (len [x00; x00; x00; x00]) with (len (marshalUint32 [] l)).
  rewrite ReadFull_enough.
  rewrite <- (app_nil_r (marshalUint32 [] l)) at 1.
  rewrite unmarshalUint32_marshalUint32, uint32_small by exact Hl.
  rewrite len_make by apply Hl. rewrite <- Hp, ReadFull_enough.
  destruct payload as [|b0 b1]; [reflexivity|].
  unfold index, slice_from. rewrite len_cons. pose proof (len_nonneg b1).
  replace (0 <? 1 + len b1) with true by (symmetry; apply Z.ltb_lt; lia).
  replace (1 <=? 1 + len b1) with true by (symmetry; apply Z.leb_le; lia).
  reflexivity.
Qed.



(** * [sendPacket] *)

Section SendPacketFacts.

Context {W : Type} `{io.Writer W}.
Context {M : Type} `{encoding.BinaryMarshaler M}.

(** [sendPacket] once the marshaller has returned a payload: a [Write] of
    the header and, if that succeeds, a [Write] of the payload. *)
Lemma sendPacket_writes (w : W) (m : M) (bb : list byte) :
  encoding.MarshalBinary m = Some (bb, None) ->
  sendPacket w m =
    match io.Write w (sendPacket_hdr bb) with
    | (w', Some e) => Some (w', Some e)
    | (w', None) => Some (io.Write w' bb)
    end.
Proof.
  intros E. unfold sendPacket. rewrite E. cbn.
  destruct (io.Write w (sendPacket_hdr bb)) as [w' [e|]]; [reflexivity|].
  now destruct (io.Write w' bb).
Qed.

End SendPacketFacts.

Lemma unmarshalUint32_hdr (bb : list byte) :
  unmarshalUint32 (sendPacket_hdr bb) = Some (uint32 (len bb), []).
Proof.
  rewrite sendPacket_hdr_marshalUint32.
  rewrite <- (app_nil_r (marshalUint32 _ _)).
  rewrite unmarshalUint32_marshalUint32. f_equal. f_equal.
  apply uint32_small, uint32_range.
Qed.

(** C5, as the code has it: for a payload [bb] of fewer than 2^32 bytes
    that the marshaller returns (the empty payload included), [sendPacket]
    writes a header of four bytes, then the payload; the header decodes to
    the length of the payload alone. A writer that fails on the header gets
    no payload; on the in-memory writer the output grows by header and
    payload. *)
Theorem sendPacket_length_prefix
  {W : Type} `{io.Writer W} {M : Type} `{encoding.BinaryMarshaler M}
  (w : W) (buf : list byte) (m : M) (bb : list byte)
  (Hm : encoding.MarshalBinary m = Some (bb, None))
  (Hlen : len bb < 2 ^ 32) :
  len (sendPacket_hdr bb) = 4 /\
  unmarshalUint32 (sendPacket_hdr bb) = Some (len bb, []) /\
  sendPacket w m =
    match io.Write w (sendPacket_hdr bb) with
    | (w', Some e) => Some (w', Some e)
    | (w', None) => Some (io.Write w' bb)
    end /\
  sendPacket buf m = Some (buf ++ sendPacket_hdr bb ++ bb, None).
Proof.
  split; [reflexivity|]. split; [|split].
  - rewrite unmarshalUint32_hdr, uint32_small; [reflexivity|].
    split; [apply len_nonneg|exact Hlen].
  - now apply sendPacket_writes.
  - rewrite (sendPacket_writes buf m bb Hm). cbn.
    unfold io.Write, buffer_Writer. now rewrite <- app_assoc.
Qed.

Lemma sendPacket_length_prefix_witness :
  sendPacket (H0 := sshFxpHandlePacket.MarshalBinary) [xff]
    (sshFxpHandlePacket.mk 7 "h") =
    Some ([xff; x00; x00; x00; x0a;
           x66; x00; x00; x00; x07; x00; x00; x00; x01; x68], None).
Proof.
  pose proof (sendPacket_length_prefix (H0 := sshFxpHandlePacket.MarshalBinary)
                [xff] [xff] (sshFxpHandlePacket.mk 7 "h")
                [x66; x00; x00; x00; x07; x00; x00; x00; x01; x68]
                eq_refl eq_refl) as (_ & _ & _ & E).
  exact E.
Defined.

(** The payload of a WRITE packet is 21 bytes, the handle and the data. *)
Lemma len_write_payload (p : sshFxpWritePacket.t) :
  exists bb,
    sshFxpWritePacket.MarshalBinary p = Some (bb, None) /\
    len bb = 21 + strlen (sshFxpWritePacket.Handle p) +
             len (sshFxpWritePacket.Data p).
Proof.
  eexists. split; [reflexivity|].
  rewrite len_app, len_marshalUint32, len_marshalUint64, len_marshalString,
    len_marshalUint32.
  unfold make_cap. rewrite len_app, len_cons, !len_nil. lia.
Qed.

(** C5, counterexample: the payload of a WRITE packet that carries
    2^32 - 21 bytes of data is 2^32 bytes long, and [sendPacket] sends it
    behind the header 00 00 00 00. *)
Lemma sendPacket_prefix_wraps_at_4GiB :
  exists bb,
    sshFxpWritePacket.MarshalBinary
      (sshFxpWritePacket.mk 0 EmptyString 0 0
         (repeat x00 (Z.to_nat (2 ^ 32 - 21)))) = Some (bb, None) /\
    len bb = 2 ^ 32 /\
    sendPacket_hdr bb = [x00; x00; x00; x00] /\
    unmarshalUint32 (sendPacket_hdr bb) = Some (0, []).
Proof.
  destruct (len_write_payload
              (sshFxpWritePacket.mk 0 EmptyString 0 0
                 (repeat x00 (Z.to_nat (2 ^ 32 - 21)))))
    as (bb & Hbb & Hlen).
  exists bb. split; [exact Hbb|].
  assert (E : len bb = 2 ^ 32).
  { rewrite Hlen.
    cbn [sshFxpWritePacket.Handle sshFxpWritePacket.Data].
    unfold len. rewrite repeat_length, Z2Nat.id by (apply Z.lt_le_incl; reflexivity).
    reflexivity. }
  split; [exact E|].
  assert (Eh : sendPacket_hdr bb = [x00; x00; x00; x00]).
  { unfold sendPacket_hdr. rewrite E. reflexivity. }
  split; [exact Eh|]. rewrite Eh. reflexivity.
Qed.

(** * Decoding what was encoded *)

Lemma decode_uint32 (v : Z) (rest : list byte) :
  is_uint32 v ->
  unmarshalUint32Safe (marshalUint32 [] v ++ rest) = Some (v, rest, None).
Proof. intros Hv. now rewrite unmarshalUint32Safe_marshal, uint32_small. Qed.

Lemma decode_uint32_end (v : Z) :
  is_uint32 v ->
  unmarshalUint32Safe (marshalUint32 [] v) = Some (v, [], None).
Proof.
  intros Hv. rewrite <- (app_nil_r (marshalUint32 [] v)).
  now apply decode_uint32.
Qed.

Lemma decode_uint64 (v : Z) (rest : list byte) :
  is_uint64 v ->
  unmarshalUint64Safe (marshalUint64 [] v ++ rest) = Some (v, rest, None).
Proof. intros Hv. now rewrite unmarshalUint64Safe_marshal, uint64_small. Qed.

Lemma decode_string (s : string) (rest : list byte) :
  short_string s ->
  unmarshalStringSafe (marshalString [] s ++ rest) = Some (s, rest, None).
Proof. apply unmarshalStringSafe_marshal. Qed.

Lemma decode_string_end (s : string) :
  short_string s ->
  unmarshalStringSafe (marshalString [] s) = Some (s, [], None).
Proof.
  intros Hs. rewrite <- (app_nil_r (marshalString [] s)).
  now apply decode_string.
Qed.

Lemma slice_to_all (d : list byte) : slice_to d (len d) = Some d.
Proof. rewrite <- (app_nil_r d) at 1. apply slice_to_app. Qed.

Lemma copy_make (d : list byte) : copy (make (len d)) d = d.
Proof.
  unfold copy, make, len. rewrite Nat2Z.id, repeat_length.
  rewrite firstn_all, skipn_all2 by (rewrite repeat_length; lia).
  apply app_nil_r.
Qed.

(** The encoders only append: what they write does not depend on the bytes
    already in the buffer. These three rewrite an encoder call on a buffer
    that is not empty. *)
Ltac split_encoders :=
  repeat match goal with
    | |- context [marshalUint32 (?x :: ?b) ?v] =>
        rewrite (marshalUint32_app (x :: b) v)
    | |- context [marshalUint32 (?a ++ ?b) ?v] =>
        rewrite (marshalUint32_app (a ++ b) v)
    | |- context [marshalUint64 (?x :: ?b) ?v] =>
        rewrite (marshalUint64_app (x :: b) v)
    | |- context [marshalUint64 (?a ++ ?b) ?v] =>
        rewrite (marshalUint64_app (a ++ b) v)
    | |- context [marshalString (?x :: ?b) ?v] =>
        rewrite (marshalString_app (x :: b) v)
    | |- context [marshalString (?a ++ ?b) ?v] =>
        rewrite (marshalString_app (a ++ b) v)
    end;
  rewrite <- ?app_assoc; cbn [app].

Ltac fields :=
  cbn [sshFxInitPacket.Version sshFxInitPacket.Extensions
       sshFxpReaddirPacket.Id sshFxpReaddirPacket.Handle
       sshFxpOpendirPacket.Id sshFxpOpendirPacket.Path
       sshFxpLstatPacket.Id sshFxpLstatPacket.Path
       sshFxpStatPacket.Id sshFxpStatPacket.Path
       sshFxpFstatPacket.Id sshFxpFstatPacket.Handle
       sshFxpClosePacket.Id sshFxpClosePacket.Handle
       sshFxpRemovePacket.Id sshFxpRemovePacket.Filename
       sshFxpRmdirPacket.Id sshFxpRmdirPacket.Path
       sshFxpSymlinkPacket.Id sshFxpSymlinkPacket.Targetpath
       sshFxpSymlinkPacket.Linkpath
       sshFxpReadlinkPacket.Id sshFxpReadlinkPacket.Path
       sshFxpRealpathPacket.Id sshFxpRealpathPacket.Path
       sshFxpOpenPacket.Id sshFxpOpenPacket.Path sshFxpOpenPacket.Pflags
       sshFxpOpenPacket.Flags
       sshFxpReadPacket.Id sshFxpReadPacket.Handle sshFxpReadPacket.Offset
       sshFxpReadPacket.Len
       sshFxpRenamePacket.Id sshFxpRenamePacket.Oldpath
       sshFxpRenamePacket.Newpath
       sshFxpWritePacket.Id sshFxpWritePacket.Handle sshFxpWritePacket.Offset
       sshFxpWritePacket.Length sshFxpWritePacket.Data
       sshFxpMkdirPacket.Id sshFxpMkdirPacket.Path sshFxpMkdirPacket.Flags
       sshFxpSetstatPacket.Id sshFxpSetstatPacket.Path
       sshFxpSetstatPacket.Flags sshFxpSetstatPacket.Attrs
       sshFxpFsetstatPacket.Id sshFxpFsetstatPacket.Handle
       sshFxpFsetstatPacket.Flags sshFxpFsetstatPacket.Attrs
       sshFxpDataPacket.Id sshFxpDataPacket.Length sshFxpDataPacket.Data
       sshFxpStatvfsPacket.Id sshFxpStatvfsPacket.Path
       Name Data] in *.

(** Runs a decoder over a buffer that is written as the encodings of its
    fields. *)
Ltac decode_fields :=
  repeat (first
    [ rewrite decode_uint32 by assumption
    | rewrite decode_uint32_end by assumption
    | rewrite decode_uint64 by assumption
    | rewrite decode_string by assumption
    | rewrite decode_string_end by assumption ];
    cbv beta iota zeta; fields).

Lemma marshalIdString_body (packetType : byte) (id : Z) (str : string) :
  marshalIdString packetType id str =
    Some (packetType :: marshalUint32 [] id ++ marshalString [] str, None).
Proof.
  unfold marshalIdString, make_cap. cbn [app]. split_encoders. reflexivity.
Qed.

Lemma unmarshalIdString_body (id id0 : Z) (str str0 : string) :
  is_uint32 id -> short_string str ->
  unmarshalIdString (marshalUint32 [] id ++ marshalString [] str) id0 str0 =
    Some (id, str, None).
Proof.
  intros Hid Hstr. unfold unmarshalIdString. decode_fields. reflexivity.
Qed.

(** ** INIT *)

Lemma marshalExtensions_app (b : list byte) (es : list ExtensionPair) :
  marshalExtensions b es = b ++ marshalExtensions [] es.
Proof.
  revert b. induction es as [|e es IH]; intros b; cbn [marshalExtensions].
  - now rewrite app_nil_r.
  - rewrite IH, (IH (marshalString _ _)).
    rewrite (marshalString_app (marshalString b _)), (marshalString_app b).
    rewrite (marshalString_app (marshalString [] _)).
    now rewrite <- !app_assoc.
Qed.

Lemma unmarshalExtensionPair_marshal (e : ExtensionPair) (rest : list byte) :
  short_string (Name e) -> short_string (Data e) ->
  unmarshalExtensionPair
    (marshalString [] (Name e) ++ marshalString [] (Data e) ++ rest) =
    Some (e, rest, None).
Proof.
  intros Hn Hd. unfold unmarshalExtensionPair. decode_fields.
  now destruct e.
Qed.

Lemma len_marshalExtensions_pos (e : ExtensionPair) (es : list ExtensionPair) :
  len (marshalString [] (Name e) ++ marshalString [] (Data e) ++
       marshalExtensions [] es) > 0.
Proof.
  rewrite !len_app, !len_marshalString, len_nil.
  pose proof (strlen_nonneg (Name e)). pose proof (strlen_nonneg (Data e)).
  pose proof (len_nonneg (marshalExtensions [] es)). lia.
Qed.

Lemma Init_loop_marshalExtensions (es : list ExtensionPair) :
  Forall (fun e => short_string (Name e) /\ short_string (Data e)) es ->
  forall (fuel : nat) (p : sshFxInitPacket.t),
    (List.length es <= fuel)%nat ->
    sshFxInitPacket.UnmarshalBinary_loop fuel p (marshalExtensions [] es) =
      Some (sshFxInitPacket.mk (sshFxInitPacket.Version p)
              (sshFxInitPacket.Extensions p ++ es), None).
Proof.
  induction 1 as [|e es [Hn Hd] Hes IH]; intros fuel p Hfuel.
  - destruct fuel; cbn; rewrite app_nil_r; now destruct p.
  - cbn [marshalExtensions]. rewrite marshalExtensions_app.
    rewrite (marshalString_app (marshalString [] _)), <- !app_assoc.
    destruct fuel as [|fuel]; [cbn in Hfuel; lia|].
    cbn [sshFxInitPacket.UnmarshalBinary_loop].
    pose proof (len_marshalExtensions_pos e es) as Hpos.
    apply Z.gtb_gt in Hpos. rewrite Hpos.
    rewrite unmarshalExtensionPair_marshal by assumption.
    rewrite IH by (cbn in Hfuel; lia). fields.
    now rewrite <- app_assoc.
Qed.

Lemma length_marshalExtensions (es : list ExtensionPair) :
  (List.length es <= List.length (marshalExtensions [] es))%nat.
Proof.
  induction es as [|e es IH]; [cbn; lia|].
  cbn [marshalExtensions]. rewrite marshalExtensions_app, length_app.
  pose proof (len_marshalString (marshalString [] (Name e)) (Data e)) as H.
  pose proof (len_nonneg (marshalString [] (Name e))).
  pose proof (strlen_nonneg (Data e)). unfold len in H at 1.
  cbn [List.length]. lia.
Qed.

(** The loop of [sshFxInitPacket.UnmarshalBinary] ends: a pair that is
    decoded takes at least eight bytes off the buffer, so the fuel given,
    the length of the buffer, is never used up, and more fuel changes
    nothing. *)
Lemma unmarshalStringSafe_shrinks (b rest : list byte) (s : string) :
  unmarshalStringSafe b = Some (s, rest, None) -> len rest + 4 <= len b.
Proof.
  intros E.
  destruct (unmarshalStringSafe_cases b)
    as [[_ E']|[(n & b' & _ & _ & _ & E')|(s' & r' & -> & Hs & E')]];
    rewrite E' in E; try discriminate.
  injection E as -> ->. rewrite len_app, len_marshalString, len_nil.
  pose proof (strlen_nonneg s). lia.
Qed.

Lemma unmarshalExtensionPair_total (b : list byte) :
  exists ep rest err, unmarshalExtensionPair b = Some (ep, rest, err).
Proof.
  unfold unmarshalExtensionPair.
  destruct (unmarshalStringSafe_total b) as (s1 & r1 & [e1|] & ->);
    cbv beta iota zeta; [eauto|].
  destruct (unmarshalStringSafe_total r1) as (s2 & r2 & [e2|] & ->);
    cbv beta iota zeta; eauto.
Qed.

Lemma unmarshalExtensionPair_shrinks (b rest : list byte) (ep : ExtensionPair) :
  unmarshalExtensionPair b = Some (ep, rest, None) -> len rest + 8 <= len b.
Proof.
  unfold unmarshalExtensionPair.
  destruct (unmarshalStringSafe b) as [[[s1 r1] [e1|]]|] eqn:E1;
    cbv beta iota zeta; try discriminate.
  destruct (unmarshalStringSafe r1) as [[[s2 r2] [e2|]]|] eqn:E2;
    cbv beta iota zeta; try discriminate.
  intros E. injection E as _ <-.
  apply unmarshalStringSafe_shrinks in E1, E2. lia.
Qed.

Lemma Init_loop_total (fuel : nat) :
  forall (p : sshFxInitPacket.t) (b : list byte),
    (List.length b <= fuel)%nat ->
    exists p' err,
      sshFxInitPacket.UnmarshalBinary_loop fuel p b = Some (p', err) /\
      forall fuel' : nat,
        (List.length b <= fuel')%nat ->
        sshFxInitPacket.UnmarshalBinary_loop fuel' p b = Some (p', err).
Proof.
  induction fuel as [|fuel IH]; intros p b Hfuel.
  - destruct b; [|cbn in Hfuel; lia]. exists p, None.
    split; [reflexivity|]. intros [|fuel'] _; reflexivity.
  - destruct (len b >? 0) eqn:Epos.
    + destruct (unmarshalExtensionPair_total b) as (ep & rest & [e|] & Eep).
      * exists p, (Some e). split.
        -- cbn [sshFxInitPacket.UnmarshalBinary_loop]. now rewrite Epos, Eep.
        -- intros [|fuel'] Hfuel';
             [destruct b; [discriminate Epos|cbn in Hfuel'; lia]|].
           cbn [sshFxInitPacket.UnmarshalBinary_loop]. now rewrite Epos, Eep.
      * pose proof (unmarshalExtensionPair_shrinks _ _ _ Eep) as Hshrink.
        unfold len in Hshrink.
        destruct (IH (sshFxInitPacket.mk (sshFxInitPacket.Version p)
                        (sshFxInitPacket.Extensions p ++ [ep])) rest)
          as (p' & err & E & Emore); [lia|].
        exists p', err. split.
        -- cbn [sshFxInitPacket.UnmarshalBinary_loop].
           now rewrite Epos, Eep.
        -- intros [|fuel'] Hfuel';
             [destruct b; [discriminate Epos|cbn in Hfuel'; lia]|].
           cbn [sshFxInitPacket.UnmarshalBinary_loop]. rewrite Epos, Eep.
           apply Emore. lia.
    + exists p, None. split.
      * cbn [sshFxInitPacket.UnmarshalBinary_loop]. now rewrite Epos.
      * intros [|fuel'] _; cbn [sshFxInitPacket.UnmarshalBinary_loop];
          now rewrite Epos.
Qed.

Lemma Init_UnmarshalBinary_total (p : sshFxInitPacket.t) (b : list byte) :
  exists p' err, sshFxInitPacket.UnmarshalBinary p b = Some (p', err).
Proof.
  unfold sshFxInitPacket.UnmarshalBinary.
  destruct (unmarshalUint32Safe_total b) as (v & rest & [e|] & ->);
    cbv beta iota zeta; [eauto|].
  destruct (Init_loop_total (List.length rest)
              (sshFxInitPacket.mk v (sshFxInitPacket.Extensions p)) rest)
    as (p' & err & E & _); [lia|eauto].
Qed.

Section RoundTrip.

Variable FileInfo : Type.
Variable marshalFileInfo : list byte -> FileInfo -> list byte.

Lemma marshal_VBytes (b attrs : list byte) :
  marshal marshalFileInfo b (VBytes attrs) = Some (b ++ attrs).
Proof.
  unfold VBytes. cbn [marshal]. revert b.
  induction attrs as [|a attrs IH]; intros b; cbn [map].
  - now rewrite app_nil_r.
  - cbn [marshal]. rewrite IH. now rewrite <- app_assoc.
Qed.

Ltac unpack :=
  repeat match goal with
    | H : _ /\ _ |- _ => destruct H
    | H : exists _, _ |- _ => destruct H
    end.

Ltac roundtrip_idstring :=
  eexists _, _; split;
  [ first [ progress unfold sshFxpReaddirPacket.MarshalBinary
          | progress unfold sshFxpOpendirPacket.MarshalBinary
          | progress unfold sshFxpLstatPacket.MarshalBinary
          | progress unfold sshFxpStatPacket.MarshalBinary
          | progress unfold sshFxpFstatPacket.MarshalBinary
          | progress unfold sshFxpClosePacket.MarshalBinary
          | progress unfold sshFxpRemovePacket.MarshalBinary
          | progress unfold sshFxpRmdirPacket.MarshalBinary
          | progress unfold sshFxpReadlinkPacket.MarshalBinary
          | progress unfold sshFxpRealpathPacket.MarshalBinary ];
    fields; rewrite marshalIdString_body; reflexivity
  | cbn [UnmarshalBinary zero];
    first [ progress unfold sshFxpReaddirPacket.UnmarshalBinary
          | progress unfold sshFxpOpendirPacket.UnmarshalBinary
          | progress unfold sshFxpLstatPacket.UnmarshalBinary
          | progress unfold sshFxpStatPacket.UnmarshalBinary
          | progress unfold sshFxpFstatPacket.UnmarshalBinary
          | progress unfold sshFxpClosePacket.UnmarshalBinary
          | progress unfold sshFxpRemovePacket.UnmarshalBinary
          | progress unfold sshFxpRmdirPacket.UnmarshalBinary
          | progress unfold sshFxpReadlinkPacket.UnmarshalBinary
          | progress unfold sshFxpRealpathPacket.UnmarshalBinary ];
    fields; rewrite unmarshalIdString_body by assumption; reflexivity ].

Ltac roundtrip_fixed :=
  eexists _, _; split;
  [ cbn [MarshalBinary];
    first [ progress unfold sshFxpSymlinkPacket.MarshalBinary
          | progress unfold sshFxpOpenPacket.MarshalBinary
          | progress unfold sshFxpReadPacket.MarshalBinary
          | progress unfold sshFxpRenamePacket.MarshalBinary
          | progress unfold sshFxpMkdirPacket.MarshalBinary ];
    unfold make_cap; cbv zeta; cbn [app]; fields; split_encoders; reflexivity
  | cbn [UnmarshalBinary zero];
    first [ progress unfold sshFxpSymlinkPacket.UnmarshalBinary
          | progress unfold sshFxpOpenPacket.UnmarshalBinary
          | progress unfold sshFxpReadPacket.UnmarshalBinary
          | progress unfold sshFxpRenamePacket.UnmarshalBinary
          | progress unfold sshFxpMkdirPacket.UnmarshalBinary ];
    decode_fields; reflexivity ].

(** C4, as the code has it: for every kind that has both methods and every
    packet [u] of it whose strings fit their 32-bit length field, whose
    [Length] (WRITE, DATA) is the length of its [Data] and whose [Attrs]
    (SETSTAT, FSETSTAT) are a [[]byte], [MarshalBinary] returns a tag byte
    followed by a body, and [UnmarshalBinary] of that body on a zero value
    of the kind succeeds and gives [u] back. *)
Theorem unmarshal_marshal_roundtrip (u : unmarshaler FileInfo)
  (Htyped : well_typed u) (Hcanonical : canonical u) :
  exists (tag : byte) (body : list byte),
    MarshalBinary marshalFileInfo (MU u) = Some (tag :: body, None) /\
    UnmarshalBinary (zero u) body = Some (u, None).
Proof.
  destruct u as [p|p|p|p|p|p|p|p|p|p|p|p|p|p|p|p|p|p|p|p]; destruct p;
    cbn [well_typed canonical] in Htyped, Hcanonical; fields; unpack;
    cbn [MarshalBinary].
  - (* INIT *)
    eexists _, _. split.
    + unfold sshFxInitPacket.MarshalBinary, make_cap. cbv zeta. cbn [app].
      fields. rewrite marshalExtensions_app. split_encoders. reflexivity.
    + cbn [UnmarshalBinary zero]. unfold sshFxInitPacket.UnmarshalBinary.
      decode_fields.
      rewrite Init_loop_marshalExtensions;
        [reflexivity|assumption|apply length_marshalExtensions].
  - roundtrip_idstring.
  - roundtrip_idstring.
  - roundtrip_idstring.
  - roundtrip_idstring.
  - roundtrip_idstring.
  - roundtrip_idstring.
  - roundtrip_idstring.
  - roundtrip_idstring.
  - roundtrip_fixed.
  - roundtrip_idstring.
  - roundtrip_idstring.
  - roundtrip_fixed.
  - roundtrip_fixed.
  - roundtrip_fixed.
  - (* WRITE *)
    subst. eexists _, _. split.
    + unfold sshFxpWritePacket.MarshalBinary, make_cap. cbv zeta. cbn [app].
      fields. split_encoders. reflexivity.
    + cbn [UnmarshalBinary zero]. unfold sshFxpWritePacket.UnmarshalBinary.
      decode_fields.
      match goal with
      | |- context [uint32 (len ?d)] =>
          rewrite (uint32_small (len d)) by assumption
      end.
      rewrite Z.ltb_irrefl, slice_to_all. reflexivity.
  - roundtrip_fixed.
  - (* SETSTAT *)
    subst. eexists _, _. split.
    + unfold sshFxpSetstatPacket.MarshalBinary, make_cap. cbv zeta. cbn [app].
      fields. rewrite marshal_VBytes. split_encoders. reflexivity.
    + cbn [UnmarshalBinary zero]. unfold sshFxpSetstatPacket.UnmarshalBinary.
      decode_fields. reflexivity.
  - (* FSETSTAT *)
    subst. eexists _, _. split.
    + unfold sshFxpFsetstatPacket.MarshalBinary, make_cap. cbv zeta. cbn [app].
      fields. rewrite marshal_VBytes. split_encoders. reflexivity.
    + cbn [UnmarshalBinary zero]. unfold sshFxpFsetstatPacket.UnmarshalBinary.
      decode_fields. reflexivity.
  - (* DATA *)
    subst. eexists _, _. split.
    + unfold sshFxpDataPacket.MarshalBinary,
        sshFxpDataPacket.MarshalBinary_cap. cbv zeta. fields.
      rewrite app_nil_r, slice_to_all. split_encoders. reflexivity.
    + cbn [UnmarshalBinary zero]. unfold sshFxpDataPacket.UnmarshalBinary.
      decode_fields.
      match goal with
      | |- context [uint32 (len ?d)] =>
          rewrite (uint32_small (len d)) by assumption
      end.
      rewrite Z.ltb_irrefl, copy_make. reflexivity.
Qed.

End RoundTrip.

(** * Bytes after the declared fields *)

Lemma unmarshalUint32Safe_ok (b rest : list byte) (v : Z) :
  unmarshalUint32Safe b = Some (v, rest, None) ->
  is_uint32 v /\ len rest <= len b.
Proof.
  intros E.
  destruct (unmarshalUint32Safe_cases b) as [[_ E']|(v' & r' & -> & Hv & E')];
    rewrite E' in E; [discriminate|].
  injection E as -> ->. split; [exact Hv|].
  rewrite len_app. pose proof (len_nonneg (marshalUint32 [] v)). lia.
Qed.

Lemma unmarshalUint64Safe_ok (b rest : list byte) (v : Z) :
  unmarshalUint64Safe b = Some (v, rest, None) ->
  is_uint64 v /\ len rest <= len b.
Proof.
  intros E.
  destruct (unmarshalUint64Safe_cases b) as [[_ E']|(v' & r' & -> & Hv & E')];
    rewrite E' in E; [discriminate|].
  injection E as -> ->. split; [exact Hv|].
  rewrite len_app. pose proof (len_nonneg (marshalUint64 [] v)). lia.
Qed.

Lemma unmarshalStringSafe_ok (b rest : list byte) (s : string) :
  unmarshalStringSafe b = Some (s, rest, None) ->
  short_string s /\ len rest <= len b.
Proof.
  intros E.
  destruct (unmarshalStringSafe_cases b)
    as [[_ E']|[(n & b' & _ & _ & _ & E')|(s' & r' & -> & Hs & E')]];
    rewrite E' in E; try discriminate.
  injection E as -> ->. split; [exact Hs|].
  rewrite len_app. pose proof (len_nonneg (marshalString [] s)). lia.
Qed.

Lemma uint32_le (x : Z) : 0 <= x -> uint32 x <= x.
Proof. intros Hx. unfold uint32. apply Z.mod_le; lia. Qed.

Lemma slice_to_extra (r extra : list byte) (n : Z) :
  0 <= n <= len r -> slice_to (r ++ extra) n = slice_to r n.
Proof.
  intros Hn. unfold slice_to. rewrite len_app. pose proof (len_nonneg extra).
  replace (n <=? len r + len extra) with true by (symmetry; apply Z.leb_le; lia).
  replace (n <=? len r) with true by (symmetry; apply Z.leb_le; lia).
  replace (0 <=? n) with true by (symmetry; apply Z.leb_le; lia).
  cbn [andb]. f_equal. rewrite firstn_app.
  replace (Z.to_nat n - List.length r)%nat with 0%nat by (unfold len in Hn; lia).
  cbn [firstn]. apply app_nil_r.
Qed.

Lemma copy_make_extra (r extra : list byte) (n : Z) :
  0 <= n <= len r -> copy (make n) (r ++ extra) = copy (make n) r.
Proof.
  intros Hn. unfold copy, make. rewrite repeat_length, length_app.
  unfold len in Hn.
  rewrite !skipn_all2 by (rewrite repeat_length; lia).
  rewrite firstn_app.
  replace (Z.to_nat n - List.length r)%nat with 0%nat by lia.
  cbn [firstn]. now rewrite !app_nil_r.
Qed.

(** The length test of WRITE and DATA, once more bytes follow. *)
Lemma declared_length_extra (r extra : list byte) (n : Z) :
  len (r ++ extra) < 2 ^ 32 ->
  (uint32 (len r) <? n) = false ->
  (uint32 (len (r ++ extra)) <? n) = false /\ n <= len r.
Proof.
  intros Hlen Hn. apply Z.ltb_ge in Hn.
  pose proof (len_nonneg r). pose proof (len_nonneg extra).
  pose proof (uint32_le (len r)). rewrite len_app in *.
  rewrite (uint32_small (len r + len extra)) by (unfold is_uint32; lia).
  rewrite (uint32_small (len r)) in Hn by (unfold is_uint32; lia).
  split; [apply Z.ltb_ge|]; lia.
Qed.

Section Trailing.

Variable FileInfo : Type.

(** One decoding step of the hypothesis [E], replayed on the longer buffer
    of the goal. *)
Ltac replay extra :=
  match goal with
  | E : context [unmarshalUint32Safe ?b] |- _ =>
      let E1 := fresh "E" in
      destruct (unmarshalUint32Safe b) as [[[? ?] [?|]]|] eqn:E1;
      cbv beta iota zeta in E; fields; try discriminate;
      rewrite (unmarshalUint32Safe_extra _ extra _ _ E1);
      apply unmarshalUint32Safe_ok in E1; destruct E1
  | E : context [unmarshalUint64Safe ?b] |- _ =>
      let E1 := fresh "E" in
      destruct (unmarshalUint64Safe b) as [[[? ?] [?|]]|] eqn:E1;
      cbv beta iota zeta in E; fields; try discriminate;
      rewrite (unmarshalUint64Safe_extra _ extra _ _ E1);
      apply unmarshalUint64Safe_ok in E1; destruct E1
  | E : context [unmarshalStringSafe ?b] |- _ =>
      let E1 := fresh "E" in
      destruct (unmarshalStringSafe b) as [[[? ?] [?|]]|] eqn:E1;
      cbv beta iota zeta in E; fields; try discriminate;
      rewrite (unmarshalStringSafe_extra _ extra _ _ E1);
      apply unmarshalStringSafe_ok in E1; destruct E1
  end; cbv beta iota zeta; fields.

Ltac open_decoder :=
  cbn [UnmarshalBinary] in *;
  unfold sshFxpReaddirPacket.UnmarshalBinary,
    sshFxpOpendirPacket.UnmarshalBinary, sshFxpLstatPacket.UnmarshalBinary,
    sshFxpStatPacket.UnmarshalBinary, sshFxpFstatPacket.UnmarshalBinary,
    sshFxpClosePacket.UnmarshalBinary, sshFxpRemovePacket.UnmarshalBinary,
    sshFxpRmdirPacket.UnmarshalBinary, sshFxpSymlinkPacket.UnmarshalBinary,
    sshFxpReadlinkPacket.UnmarshalBinary,
    sshFxpRealpathPacket.UnmarshalBinary, sshFxpOpenPacket.UnmarshalBinary,
    sshFxpReadPacket.UnmarshalBinary, sshFxpRenamePacket.UnmarshalBinary,
    sshFxpWritePacket.UnmarshalBinary, sshFxpMkdirPacket.UnmarshalBinary,
    sshFxpDataPacket.UnmarshalBinary, unmarshalIdString in *.

(** C6, as the code has it: for every kind whose decoder reads a fixed
    list of fields (every kind but INIT, SETSTAT and FSETSTAT), if
    [UnmarshalBinary] succeeds on a buffer [b], it succeeds on [b] followed
    by any bytes [extra] and leaves the same packet; for WRITE and DATA,
    which compare the 32-bit length of the rest, this holds for buffers of
    fewer than 2^32 bytes. *)
Theorem trailing_bytes_ignored
  (u u' : unmarshaler FileInfo) (b extra : list byte)
  (Hkind : fixed_fields u = true)
  (Hlen : declares_length u = true -> len (b ++ extra) < 2 ^ 32)
  (Hb : UnmarshalBinary u b = Some (u', None)) :
  UnmarshalBinary u (b ++ extra) = Some (u', None).
Proof.
  destruct u as [p|p|p|p|p|p|p|p|p|p|p|p|p|p|p|p|p|p|p|p];
    try discriminate Hkind; cbn [declares_length] in Hlen; clear Hkind;
    destruct p; open_decoder; repeat replay extra; try exact Hb.
  - (* WRITE *)
    specialize (Hlen eq_refl).
    match type of Hb with
    | context [uint32 (len ?r) <? ?n] =>
        destruct (uint32 (len r) <? n) eqn:En; [discriminate|];
        destruct (declared_length_extra r extra n) as [En' Hn];
          [rewrite len_app in *; pose proof (len_nonneg extra); lia|exact En|];
        rewrite En', slice_to_extra by (unfold is_uint32 in *; lia)
    end.
    exact Hb.
  - (* DATA *)
    specialize (Hlen eq_refl).
    match type of Hb with
    | context [uint32 (len ?r) <? ?n] =>
        destruct (uint32 (len r) <? n) eqn:En; [discriminate|];
        destruct (declared_length_extra r extra n) as [En' Hn];
          [rewrite len_app in *; pose proof (len_nonneg extra); lia|exact En|];
        rewrite En', copy_make_extra by (unfold is_uint32 in *; lia)
    end.
    exact Hb.
Qed.

End Trailing.

(** * The pre-computed length [l] *)

Lemma len_marshalExtensions (b : list byte) (es : list ExtensionPair) (l : Z) :
  len b = l -> len (marshalExtensions b es) = extensions_l l es.
Proof.
  revert b l. induction es as [|e es IH]; intros b l Hb;
    cbn [marshalExtensions extensions_l]; [exact Hb|].
  apply IH. rewrite !len_marshalString. lia.
Qed.

Lemma Some_fst_inj {A B : Type} (a a' : A) (b b' : B) :
  Some (a, b) = Some (a', b') -> a = a'.
Proof. congruence. Qed.

Ltac lengths :=
  repeat match goal with
    | |- context [len (marshalUint32 ?b ?v)] => rewrite (len_marshalUint32 b v)
    | |- context [len (marshalUint64 ?b ?v)] => rewrite (len_marshalUint64 b v)
    | |- context [len (marshalString ?b ?v)] => rewrite (len_marshalString b v)
    | |- context [len (?a ++ ?b)] => rewrite (len_app a b)
    | |- context [len (?x :: ?b)] => rewrite (len_cons x b)
    | |- context [len (@nil ?A)] => rewrite (@len_nil A)
    end.

Section PrecomputedLength.

Variable FileInfo : Type.
Variable marshalFileInfo : list byte -> FileInfo -> list byte.

(** C7, as the code has it: for every kind that computes [l], the statvfs
    request apart, [l] is the length of the bytes returned when the packet
    has no field of dynamic type (INIT, VERSION, the kinds built by
    [marshalIdString], SYMLINK, OPEN, READ, RENAME, WRITE, MKDIR); for
    SETSTAT and FSETSTAT [l] is the length of the buffer that holds tag,
    [Id], string and [Flags], and the bytes returned are that buffer with
    the [Attrs] marshalled onto it. *)
Theorem precomputed_length_and_output
  (m : marshaler FileInfo) (l : Z) (bb : list byte)
  (Hkind : statvfs_request m = false)
  (Hl : MarshalBinary_l m = Some l)
  (Hbb : MarshalBinary marshalFileInfo m = Some (bb, None)) :
  match dynamic_attrs m with
  | None => len bb = l
  | Some attrs =>
      exists fixed,
        len fixed = l /\ marshal marshalFileInfo fixed attrs = Some bb
  end.
Proof.
  destruct m as [u|p|p|p|p]; [destruct u as [p|p|p|p|p|p|p|p|p|p|p|p|p|p|p|p|p|p|p|p]| | | |];
    try discriminate Hl; try discriminate Hkind; clear Hkind; destruct p;
    cbn [dynamic_attrs];
    cbn [MarshalBinary_l] in Hl; cbn [MarshalBinary] in Hbb;
    injection Hl as <-.
  all: try (unfold marshalIdString_l;
            first [ progress unfold sshFxpReaddirPacket.MarshalBinary in Hbb
                  | progress unfold sshFxpOpendirPacket.MarshalBinary in Hbb
                  | progress unfold sshFxpLstatPacket.MarshalBinary in Hbb
                  | progress unfold sshFxpStatPacket.MarshalBinary in Hbb
                  | progress unfold sshFxpFstatPacket.MarshalBinary in Hbb
                  | progress unfold sshFxpClosePacket.MarshalBinary in Hbb
                  | progress unfold sshFxpRemovePacket.MarshalBinary in Hbb
                  | progress unfold sshFxpRmdirPacket.MarshalBinary in Hbb
                  | progress unfold sshFxpReadlinkPacket.MarshalBinary in Hbb
                  | progress unfold sshFxpRealpathPacket.MarshalBinary in Hbb ];
            unfold marshalIdString, make_cap in Hbb; fields;
            apply Some_fst_inj in Hbb; subst bb; lengths; lia).
  all: try (first [ progress unfold sshFxpSymlinkPacket.MarshalBinary,
                      sshFxpSymlinkPacket.MarshalBinary_l in *
                  | progress unfold sshFxpOpenPacket.MarshalBinary,
                      sshFxpOpenPacket.MarshalBinary_l in *
                  | progress unfold sshFxpReadPacket.MarshalBinary,
                      sshFxpReadPacket.MarshalBinary_l in *
                  | progress unfold sshFxpRenamePacket.MarshalBinary,
                      sshFxpRenamePacket.MarshalBinary_l in *
                  | progress unfold sshFxpWritePacket.MarshalBinary,
                      sshFxpWritePacket.MarshalBinary_l in *
                  | progress unfold sshFxpMkdirPacket.MarshalBinary,
                      sshFxpMkdirPacket.MarshalBinary_l in * ];
            unfold make_cap in Hbb; fields;
            apply Some_fst_inj in Hbb; subst bb; lengths; lia).
  - (* INIT *)
    unfold sshFxInitPacket.MarshalBinary, sshFxInitPacket.MarshalBinary_l,
      make_cap in *. fields. apply Some_fst_inj in Hbb; subst bb.
    apply len_marshalExtensions. now lengths.
  - (* SETSTAT *)
    unfold sshFxpSetstatPacket.MarshalBinary,
      sshFxpSetstatPacket.MarshalBinary_l, make_cap in *. fields.
    match type of Hbb with
    | context [marshal _ ?fixed ?attrs] =>
        exists fixed; destruct (marshal marshalFileInfo fixed attrs) eqn:E;
        [|discriminate]
    end.
    apply Some_fst_inj in Hbb; subst bb. split; [lengths; lia|reflexivity].
  - (* FSETSTAT *)
    unfold sshFxpFsetstatPacket.MarshalBinary,
      sshFxpFsetstatPacket.MarshalBinary_l, make_cap in *. fields.
    match type of Hbb with
    | context [marshal _ ?fixed ?attrs] =>
        exists fixed; destruct (marshal marshalFileInfo fixed attrs) eqn:E;
        [|discriminate]
    end.
    apply Some_fst_inj in Hbb; subst bb. split; [lengths; lia|reflexivity].
  - (* VERSION *)
    unfold sshFxVersionPacket.MarshalBinary,
      sshFxVersionPacket.MarshalBinary_l, make_cap in *.
    cbn [sshFxVersionPacket.Version sshFxVersionPacket.Extensions] in *.
    apply Some_fst_inj in Hbb; subst bb.
    apply len_marshalExtensions. now lengths.
Qed.

(** The statvfs request: the bytes returned are 8 more than [l]. *)
Lemma statvfs_l_leaves_out_length_fields (p : sshFxpStatvfsPacket.t) :
  exists bb,
    sshFxpStatvfsPacket.MarshalBinary p = Some (bb, None) /\
    len bb = sshFxpStatvfsPacket.MarshalBinary_l p + 8.
Proof.
  eexists. split; [reflexivity|].
  unfold make_cap, sshFxpStatvfsPacket.MarshalBinary_l. lengths.
  change (strlen "statvfs@openssh.com") with 19. lia.
Qed.

End PrecomputedLength.

(** The OPEN packet of the specification's example. *)
Lemma unmarshal_marshal_roundtrip_witness :
  MarshalBinary marshal_no_FileInfo
    (MU (UOpen (sshFxpOpenPacket.mk 7 "/tmp/x" 1 0))) =
    Some ([x03; x00; x00; x00; x07;
           x00; x00; x00; x06; x2f; x74; x6d; x70; x2f; x78;
           x00; x00; x00; x01; x00; x00; x00; x00], None) /\
  UnmarshalBinary (UOpen (FileInfo := no_FileInfo)
                     (sshFxpOpenPacket.mk 0 EmptyString 0 0))
    [x00; x00; x00; x07;
     x00; x00; x00; x06; x2f; x74; x6d; x70; x2f; x78;
     x00; x00; x00; x01; x00; x00; x00; x00] =
    Some (UOpen (sshFxpOpenPacket.mk 7 "/tmp/x" 1 0), None).
Proof.
  destruct (unmarshal_marshal_roundtrip no_FileInfo marshal_no_FileInfo
              (UOpen (sshFxpOpenPacket.mk 7 "/tmp/x" 1 0)))
    as (tag & body & Hm & Hu).
  - cbn. unfold is_uint32. lia.
  - cbn. unfold short_string, strlen. cbn. lia.
  - vm_compute in Hm. injection Hm as <- <-.
    split; [reflexivity|exact Hu].
Defined.

(** C4, counterexample: a WRITE packet whose [Length] is 2 and whose [Data]
    is empty is marshalled, and the decoder rejects the body. *)
Lemma write_roundtrip_needs_length_of_data :
  well_typed (UWrite (FileInfo := no_FileInfo)
                (sshFxpWritePacket.mk 0 EmptyString 0 2 [])) /\
  exists tag body p,
    MarshalBinary marshal_no_FileInfo
      (MU (UWrite (sshFxpWritePacket.mk 0 EmptyString 0 2 []))) =
      Some (tag :: body, None) /\
    UnmarshalBinary (UWrite (FileInfo := no_FileInfo)
                       (sshFxpWritePacket.mk 0 EmptyString 0 0 [])) body =
      Some (p, Some shortPacketError).
Proof.
  split; [cbn; unfold is_uint32, is_uint64; lia|].
  eexists _, _, _. split; reflexivity.
Qed.

Lemma trailing_bytes_ignored_witness :
  UnmarshalBinary (UOpen (FileInfo := no_FileInfo)
                     (sshFxpOpenPacket.mk 0 EmptyString 0 0))
    ([x00; x00; x00; x07;
      x00; x00; x00; x06; x2f; x74; x6d; x70; x2f; x78;
      x00; x00; x00; x01; x00; x00; x00; x00] ++ [xde; xad]) =
    Some (UOpen (sshFxpOpenPacket.mk 7 "/tmp/x" 1 0), None).
Proof.
  apply (trailing_bytes_ignored no_FileInfo).
  - reflexivity.
  - discriminate.
  - reflexivity.
Defined.

(** C6, counterexample: an INIT body that holds the version alone is
    decoded; followed by one more byte it is rejected. *)
Lemma init_rejects_trailing_byte :
  UnmarshalBinary (UInit (FileInfo := no_FileInfo) (sshFxInitPacket.mk 0 []))
    [x00; x00; x00; x03] =
    Some (UInit (sshFxInitPacket.mk 3 []), None) /\
  UnmarshalBinary (UInit (FileInfo := no_FileInfo) (sshFxInitPacket.mk 0 []))
    ([x00; x00; x00; x03] ++ [xff]) =
    Some (UInit (sshFxInitPacket.mk 3 []), Some shortPacketError).
Proof. split; reflexivity. Qed.

(** The MKDIR request for the path "/d". *)
Lemma precomputed_length_and_output_witness :
  exists bb,
    MarshalBinary marshal_no_FileInfo
      (MU (UMkdir (sshFxpMkdirPacket.mk 1 "/d" 0))) = Some (bb, None) /\
    len bb = 15.
Proof.
  eexists. split; [reflexivity|].
  apply (precomputed_length_and_output no_FileInfo marshal_no_FileInfo
           (MU (UMkdir (sshFxpMkdirPacket.mk 1 "/d" 0))) 15 _
           eq_refl eq_refl eq_refl).
Defined.

(** C7, counterexample: for a SETSTAT packet with a 32-bit attribute [l] is
    14 and 18 bytes are returned. *)
Lemma setstat_l_leaves_out_attrs :
  MarshalBinary_l
    (MU (USetstat (FileInfo := no_FileInfo)
           (sshFxpSetstatPacket.mk no_FileInfo 1 "/" 4 (VUint32 420)))) =
    Some 14 /\
  exists bb,
    MarshalBinary marshal_no_FileInfo
      (MU (USetstat
             (sshFxpSetstatPacket.mk no_FileInfo 1 "/" 4 (VUint32 420)))) =
      Some (bb, None) /\
    len bb = 18.
Proof.
  split; [reflexivity|]. eexists. split; reflexivity.
Qed.

Module ServerFacts.
Import Server ServerRuns.

Section Sequential.

Context {W : Type} `{io.Writer W}.
Context {M : Type} `{encoding.BinaryMarshaler M}.

Lemma sendPacket_debug_ok (bb : list byte) : sendPacket_debug bb = Some tt.
Proof. reflexivity. Qed.

(** A goroutine that runs [svr.sendPacket(m)] alone, from a free mutex, goes
    through its five control points and ends with what
    [sendPacket(svr.out, m)] gives, the mutex free again, also when the
    call panics. *)
Lemma thread_run_sendPacket (w : W) (m : M) :
  thread_run 5 (mk w false) (AtLock m) =
    match sendPacket w m with
    | Some (w', err) => (mk w' false, Returned (Some err))
    | None => (mk w false, Returned None)
    end.
Proof.
  unfold sendPacket. cbn [thread_run thread_step outMutex out].
  destruct (encoding.MarshalBinary m) as [[bb [e|]]|]; try reflexivity.
  rewrite sendPacket_debug_ok. cbn [thread_run thread_step outMutex out].
  destruct (io.Write w (sendPacket_hdr bb)) as [w1 [e|]];
    cbn [thread_run thread_step outMutex out]; [reflexivity|].
  destruct (io.Write w1 bb) as [w2 e2]. reflexivity.
Qed.

Lemma steps_trans (st1 st2 st3 : state) :
  steps st1 st2 -> steps st2 st3 -> steps st1 st3.
Proof.
  intros H12 H23. induction H23 as [|st2 st3 st4 _ IH Hs]; [exact H12|].
  eapply steps_step; [apply IH; exact H12|exact Hs].
Qed.

End Sequential.

Section Progress.

Context {W : Type} `{io.Writer W}.
Context {M : Type} `{encoding.BinaryMarshaler M}.

Lemma steps_n_steps (n : nat) (st st' : @state W M) :
  steps_n n st st' -> steps st st'.
Proof.
  induction 1 as [|n st1 st2 st3 _ IH Hs]; [apply steps_refl|].
  eapply steps_step; [exact IH|exact Hs].
Qed.

Lemma critical_initial (ms : list M) :
  List.length (filter in_critical_section (map (@AtLock M) ms)) = 0%nat.
Proof. induction ms as [|m ms IH]; [reflexivity|exact IH]. Qed.

(** The mutex is locked exactly when one thread is between [Lock] and
    [Unlock]. *)
Lemma mutex_step (st st' : @state W M) :
  List.length (filter in_critical_section (snd st)) =
    (if outMutex (fst st) then 1%nat else 0%nat) ->
  step st st' ->
  List.length (filter in_critical_section (snd st')) =
    (if outMutex (fst st') then 1%nat else 0%nat).
Proof.
  intros Hmutex Hstep.
  destruct Hstep as [svr svr' c c' before after Hc]. cbn [fst snd] in *.
  rewrite filter_app, length_app in *. cbn [filter] in *.
  destruct c as [m|m|bb|bb|r|r]; cbn [thread_step] in Hc.
  - destruct (outMutex svr); [discriminate|]. injection Hc as <- <-.
    cbn [in_critical_section outMutex List.length] in *. lia.
  - destruct (encoding.MarshalBinary m) as [[bb [e|]]|];
      [| destruct (sendPacket_debug bb) |]; injection Hc as <- <-;
      exact Hmutex.
  - destruct (io.Write (out svr) (sendPacket_hdr bb)) as [w [e|]];
      injection Hc as <- <-; exact Hmutex.
  - destruct (io.Write (out svr) bb) as [w e]. injection Hc as <- <-.
    exact Hmutex.
  - injection Hc as <- <-.
    cbn [in_critical_section outMutex List.length] in *.
    destruct (outMutex svr); lia.
  - discriminate.
Qed.

Lemma mutex_steps (w : W) (ms : list M) (st : @state W M) :
  steps (initial w ms) st ->
  List.length (filter in_critical_section (snd st)) =
    (if outMutex (fst st) then 1%nat else 0%nat).
Proof.
  intros Hrun.
  remember (initial w ms) as st0 eqn:E.
  induction Hrun as [st|st1 st2 st3 _ IH Hs].
  - subst st. apply critical_initial.
  - eapply mutex_step; [apply IH; exact E|exact Hs].
Qed.

Lemma returned_not_critical (cs : list (@pc M)) :
  forallb returned cs = true ->
  List.length (filter in_critical_section cs) = 0%nat.
Proof.
  induction cs as [|c cs IH]; intros Hret; [reflexivity|].
  cbn [forallb] in Hret. apply andb_prop in Hret as [Hc Hret].
  destruct c; try discriminate Hc. cbn [filter in_critical_section].
  now apply IH.
Qed.

Lemma critical_thread (cs : list (@pc M)) :
  List.length (filter in_critical_section cs) = 1%nat ->
  exists before c after,
    cs = before ++ c :: after /\ in_critical_section c = true.
Proof.
  intros Hone.
  destruct (filter in_critical_section cs) as [|c l] eqn:E;
    [discriminate|].
  assert (Hin : In c (filter in_critical_section cs))
    by (rewrite E; now left).
  apply filter_In in Hin as [Hin Hc].
  apply in_split in Hin as (before & after & ->). now exists before, c, after.
Qed.

Lemma waiting_thread (cs : list (@pc M)) :
  List.length (filter in_critical_section cs) = 0%nat ->
  forallb returned cs = false ->
  exists before m after, cs = before ++ AtLock m :: after.
Proof.
  induction cs as [|c cs IH]; intros Hnone Hret; [discriminate|].
  cbn [filter forallb] in *.
  destruct c as [m|m|bb|bb|r|r];
    cbn [in_critical_section returned List.length andb] in *;
    try discriminate Hnone.
  - now exists [], m, cs.
  - destruct (IH Hnone Hret) as (before & m & after & ->).
    now exists (Returned r :: before), m, after.
Qed.

Lemma critical_thread_steps (svr : @t W) (c : @pc M) :
  in_critical_section c = true ->
  exists svr' c', thread_step svr c = Some (svr', c').
Proof.
  destruct c as [m|m|bb|bb|r|r]; intros Hc; try discriminate Hc;
    cbn [thread_step].
  - destruct (encoding.MarshalBinary m) as [[bb [e|]]|];
      [| destruct (sendPacket_debug bb) |]; eauto.
  - destruct (io.Write (out svr) (sendPacket_hdr bb)) as [w [e|]]; eauto.
  - destruct (io.Write (out svr) bb) as [w e]. eauto.
  - eauto.
Qed.

Lemma remaining_step (svr svr' : @t W) (c c' : @pc M) :
  thread_step svr c = Some (svr', c') -> (remaining c' < remaining c)%nat.
Proof.
  destruct c as [m|m|bb|bb|r|r]; cbn [thread_step]; intros Hc.
  - destruct (outMutex svr); [discriminate|]. injection Hc as <- <-.
    cbn [remaining]. lia.
  - destruct (encoding.MarshalBinary m) as [[bb [e|]]|];
      [| destruct (sendPacket_debug bb) |]; injection Hc as <- <-;
      cbn [remaining]; lia.
  - destruct (io.Write (out svr) (sendPacket_hdr bb)) as [w [e|]];
      injection Hc as <- <-; cbn [remaining]; lia.
  - destruct (io.Write (out svr) bb) as [w e]. injection Hc as <- <-.
    cbn [remaining]. lia.
  - injection Hc as <- <-. cbn [remaining]. lia.
  - discriminate.
Qed.

Lemma remaining_decreases (st st' : @state W M) :
  step st st' ->
  (list_sum (map remaining (snd st')) < list_sum (map remaining (snd st)))%nat.
Proof.
  intros Hstep. destruct Hstep as [svr svr' c c' before after Hc].
  cbn [snd]. apply remaining_step in Hc.
  rewrite !map_app, !list_sum_app. cbn [map list_sum fold_right]. lia.
Qed.

Lemma remaining_initial (w : W) (ms : list M) :
  list_sum (map remaining (snd (initial w ms))) = (5 * List.length ms)%nat.
Proof.
  unfold initial. cbn [snd]. induction ms as [|m ms IH]; [reflexivity|].
  change (5 + list_sum (map remaining (map (@AtLock M) ms)) =
          5 * S (List.length ms))%nat.
  rewrite IH. lia.
Qed.

Lemma steps_n_remaining (n : nat) (st st' : @state W M) :
  steps_n n st st' ->
  (n + list_sum (map remaining (snd st')) <=
   list_sum (map remaining (snd st)))%nat.
Proof.
  induction 1 as [|n st1 st2 st3 _ IH Hs]; [lia|].
  apply remaining_decreases in Hs. lia.
Qed.

(** Where the mutex is held exactly when one call is between [Lock] and
    [Unlock], a call that has not returned can take a step: the holder of
    the mutex, or any call when the mutex is free. *)
Lemma some_call_can_step (st : @state W M) :
  List.length (filter in_critical_section (snd st)) =
    (if outMutex (fst st) then 1%nat else 0%nat) ->
  forallb returned (snd st) = false ->
  exists st', step st st'.
Proof.
  destruct st as [svr cs]. cbn [fst snd]. intros Hmutex Hret.
  destruct (outMutex svr) eqn:Emutex.
  - destruct (critical_thread cs Hmutex) as (before & c & after & -> & Hc).
    destruct (critical_thread_steps svr c Hc) as (svr' & c' & Hstep).
    exists (svr', before ++ c' :: after). now apply step_thread.
  - destruct (waiting_thread cs Hmutex Hret) as (before & m & after & ->).
    exists (mk (out svr) true, before ++ AtMarshal m :: after).
    apply step_thread. cbn [thread_step]. now rewrite Emutex.
Qed.

(** Every such state can be run on until all calls have returned. *)
Lemma runs_to_the_end (n : nat) :
  forall st : @state W M,
    (list_sum (map remaining (snd st)) <= n)%nat ->
    List.length (filter in_critical_section (snd st)) =
      (if outMutex (fst st) then 1%nat else 0%nat) ->
    exists st', steps st st' /\ forallb returned (snd st') = true.
Proof.
  induction n as [|n IH]; intros st Hn Hmutex;
    destruct (forallb returned (snd st)) eqn:Hret;
    try (exists st; split; [apply steps_refl|exact Hret]);
    destruct (some_call_can_step st Hmutex Hret) as [st1 Hstep];
    pose proof (remaining_decreases _ _ Hstep) as Hless.
  - lia.
  - destruct (IH st1) as (st' & Hrun & Hdone);
      [lia|exact (mutex_step _ _ Hmutex Hstep)|].
    exists st'. split; [|exact Hdone].
    eapply steps_trans; [|exact Hrun].
    eapply steps_step; [apply steps_refl|exact Hstep].
Qed.

End Progress.

Section Concurrent.

Context {M : Type} `{encoding.BinaryMarshaler M}.

Lemma sent_payloads_app (bbs1 bbs2 : list (list byte)) (cs1 cs2 : list (@pc M)) :
  List.length bbs1 = List.length cs1 ->
  sent_payloads (bbs1 ++ bbs2) (cs1 ++ cs2) =
    sent_payloads bbs1 cs1 ++ sent_payloads bbs2 cs2.
Proof.
  revert cs1. induction bbs1 as [|bb bbs1 IH]; intros [|c cs1] Hlen;
    try discriminate Hlen; [reflexivity|].
  cbn [sent_payloads app]. rewrite IH by (cbn in Hlen; lia).
  now rewrite app_assoc.
Qed.

Lemma no_partial_frame (cs : list (@pc M)) :
  List.length (filter in_critical_section cs) = 0%nat ->
  List.concat (map partial_frame cs) = [].
Proof.
  induction cs as [|c cs IH]; [reflexivity|]. cbn [filter map List.concat].
  destruct c; cbn [in_critical_section partial_frame List.length app];
    try discriminate; exact IH.
Qed.

Lemma invariant_initial (w0 : list byte) (ms : list M)
  (bbs : list (list byte)) :
  Forall2 (fun m bb => encoding.MarshalBinary m = Some (bb, None)) ms bbs ->
  invariant w0 bbs (initial w0 ms).
Proof.
  intros Hms. unfold invariant, initial. cbn [fst snd out outMutex].
  split; [|split].
  - induction Hms; cbn [map]; constructor; assumption.
  - clear Hms. induction ms; [reflexivity|]. cbn. assumption.
  - exists []. split.
    + clear w0. induction Hms; cbn; [constructor|assumption].
    + cbn [map List.concat app]. rewrite no_partial_frame; [now rewrite app_nil_r|].
      clear Hms. induction ms; [reflexivity|]. cbn. assumption.
Qed.

Lemma invariant_step (w0 : list byte) (bbs : list (list byte))
  (st st' : @state (list byte) M) :
  invariant w0 bbs st -> step st st' -> invariant w0 bbs st'.
Proof.
  intros (Hsends & Hmutex & order & Hperm & Hout) Hstep.
  destruct Hstep as [svr svr' c c' before after Hc].
  cbn [fst snd] in *.
  apply Forall2_app_inv_r in Hsends
    as (bbs1 & bbs' & Hbefore & Hsends & ->).
  inversion Hsends as [|bb c0 bbs2 after0 Hbb Hafter]; subst; clear Hsends.
  pose proof (Forall2_length Hbefore) as Hlen1.
  rewrite sent_payloads_app in Hperm by exact Hlen1.
  rewrite filter_app, length_app in Hmutex.
  rewrite map_app, concat_app in Hout.
  cbn [sent_payloads filter map List.concat] in Hperm, Hmutex, Hout.
  unfold invariant. cbn [fst snd].
  rewrite sent_payloads_app by exact Hlen1.
  rewrite filter_app, length_app, map_app, concat_app.
  cbn [sent_payloads filter map List.concat].
  destruct c as [m|m|bb'|bb'|r|r]; cbn [thread_step sends] in Hc, Hbb.
  - (* Lock *)
    destruct (outMutex svr) eqn:Emutex; [discriminate|].
    injection Hc as <- <-. cbn [out outMutex].
    cbn [in_critical_section sent partial_frame List.length app] in *.
    split; [apply Forall2_app; [exact Hbefore|constructor; assumption]|].
    split; [lia|]. exists order. split; assumption.
  - (* MarshalBinary *)
    rewrite Hbb, sendPacket_debug_ok in Hc. injection Hc as <- <-.
    cbn [in_critical_section sent partial_frame List.length app] in *.
    split; [apply Forall2_app; [exact Hbefore|constructor; [reflexivity|assumption]]|].
    split; [exact Hmutex|]. exists order. split; assumption.
  - (* Write of the header *)
    subst bb'. cbn [io.Write buffer_Writer] in Hc. unfold io.Write, buffer_Writer in Hc.
    injection Hc as <- <-. cbn [out outMutex].
    cbn [in_critical_section sent partial_frame List.length app] in *.
    assert (H1 : List.length (filter in_critical_section before) = 0%nat)
      by (destruct (outMutex svr); lia).
    assert (H2 : List.length (filter in_critical_section after) = 0%nat)
      by (destruct (outMutex svr); lia).
    rewrite (no_partial_frame _ H1), (no_partial_frame _ H2) in *.
    split; [apply Forall2_app; [exact Hbefore|constructor; [reflexivity|assumption]]|].
    split; [exact Hmutex|]. exists order. split; [exact Hperm|].
    rewrite Hout. cbn [app]. now rewrite !app_nil_r, <- !app_assoc.
  - (* Write of the payload *)
    subst bb'. unfold io.Write, buffer_Writer in Hc.
    injection Hc as <- <-. cbn [out outMutex].
    cbn [in_critical_section sent partial_frame List.length app] in *.
    assert (H1 : List.length (filter in_critical_section before) = 0%nat)
      by (destruct (outMutex svr); lia).
    assert (H2 : List.length (filter in_critical_section after) = 0%nat)
      by (destruct (outMutex svr); lia).
    rewrite (no_partial_frame _ H1), (no_partial_frame _ H2) in *.
    split; [apply Forall2_app; [exact Hbefore|constructor; [reflexivity|assumption]]|].
    split; [exact Hmutex|]. exists (order ++ [bb]). split.
    + rewrite Hperm, <- app_assoc. apply Permutation_app_head.
      symmetry. apply Permutation_cons_append.
    + rewrite Hout, map_app, concat_app. cbn [map List.concat app]. unfold frame.
      now rewrite !app_nil_r, <- !app_assoc.
  - (* Unlock *)
    injection Hc as <- <-. cbn [out outMutex].
    cbn [in_critical_section sent partial_frame List.length app] in *.
    split; [apply Forall2_app; [exact Hbefore|constructor; assumption]|].
    split; [destruct (outMutex svr); lia|]. exists order. split; assumption.
  - discriminate.
Qed.

Lemma invariant_steps (w0 : list byte) (bbs : list (list byte))
  (st st' : @state (list byte) M) :
  invariant w0 bbs st -> steps st st' -> invariant w0 bbs st'.
Proof.
  intros Hinv Hsteps. induction Hsteps as [|st1 st2 st3 _ IH Hstep];
    [exact Hinv|].
  eapply invariant_step; [apply IH; exact Hinv|exact Hstep].
Qed.

(** Once every thread has returned. *)
Lemma all_returned (bbs : list (list byte)) (cs : list (@pc M)) :
  Forall2 sends bbs cs -> forallb returned cs = true ->
  sent_payloads bbs cs = bbs /\
  List.concat (map partial_frame cs) = [] /\
  List.length (filter in_critical_section cs) = 0%nat /\
  cs = map (fun _ => Returned (Some None)) bbs.
Proof.
  induction 1 as [|bb c bbs cs Hc _ IH]; intros Hret; [now repeat split|].
  cbn [forallb] in Hret. apply andb_prop in Hret as [Hr Hret].
  destruct (IH Hret) as (IH1 & IH2 & IH3 & IH4).
  destruct c; try discriminate Hr. cbn [sends] in Hc. subst.
  cbn [sent_payloads sent map List.concat partial_frame filter
       in_critical_section app].
  rewrite IH1. repeat split; assumption.
Qed.

End Concurrent.

Section Runs.

Context {M : Type} `{encoding.BinaryMarshaler M}.

Lemma steps_one (st st' : @state (list byte) M) : step st st' -> steps st st'.
Proof. intros Hs. eapply steps_step; [apply steps_refl|exact Hs]. Qed.

(** One thread goes through its call while the others wait. *)
Lemma thread_runs_alone (w bb : list byte) (m : M)
  (before after : list (@pc M)) :
  encoding.MarshalBinary m = Some (bb, None) ->
  steps (mk w false, before ++ AtLock m :: after)
        (mk (w ++ frame bb) false, before ++ Returned (Some None) :: after).
Proof.
  intros Hm.
  eapply steps_trans;
    [apply steps_one; eapply step_thread; reflexivity|].
  eapply steps_trans.
  { apply steps_one. eapply step_thread.
    cbn [thread_step]. rewrite Hm. reflexivity. }
  eapply steps_trans;
    [apply steps_one; eapply step_thread; reflexivity|].
  eapply steps_trans;
    [apply steps_one; eapply step_thread; reflexivity|].
  cbn [out outMutex]. unfold frame. rewrite app_assoc.
  apply steps_one. eapply step_thread. reflexivity.
Qed.

(** The schedule that lets the threads run one after the other. *)
Lemma sequential_run (ms : list M) (bbs : list (list byte)) :
  Forall2 (fun m bb => encoding.MarshalBinary m = Some (bb, None)) ms bbs ->
  forall (w : list byte) (before : list (@pc M)),
    steps (mk w false, before ++ map AtLock ms)
          (mk (w ++ List.concat (map frame bbs)) false,
           before ++ map (fun _ => Returned (Some None)) ms).
Proof.
  induction 1 as [|m bb ms bbs Hm _ IH]; intros w before.
  - cbn [map List.concat]. rewrite !app_nil_r. apply steps_refl.
  - cbn [map List.concat].
    eapply steps_trans; [apply (thread_runs_alone w bb m); exact Hm|].
    specialize (IH (w ++ frame bb) (before ++ [Returned (Some None)])).
    rewrite <- !app_assoc in IH. exact IH.
Qed.

Lemma frame_pinned (bb : list byte) :
  len bb < 2 ^ 32 -> frame bb = marshalUint32 [] (len bb) ++ bb.
Proof.
  intros Hbb. unfold frame. rewrite sendPacket_hdr_marshalUint32.
  rewrite uint32_small; [reflexivity|].
  split; [apply len_nonneg|exact Hbb].
Qed.

Lemma frames_pinned (bbs : list (list byte)) :
  Forall (fun bb => len bb < 2 ^ 32) bbs ->
  map frame bbs = map (fun bb => marshalUint32 [] (len bb) ++ bb) bbs.
Proof.
  induction 1 as [|bb bbs Hbb _ IH]; [reflexivity|].
  cbn [map]. now rewrite IH, (frame_pinned bb Hbb).
Qed.

Lemma holder_of_the_mutex (cs : list (@pc M)) :
  (exists c, In c cs /\ in_critical_section c = true) <->
  filter in_critical_section cs <> [].
Proof.
  split.
  - intros (c & Hin & Hc) E.
    assert (Hf : In c (filter in_critical_section cs))
      by (apply filter_In; now split).
    rewrite E in Hf. destruct Hf.
  - intros Hne. destruct (filter in_critical_section cs) as [|c l] eqn:E;
      [now destruct Hne|].
    assert (Hf : In c (filter in_critical_section cs))
      by (rewrite E; now left).
    apply filter_In in Hf. now exists c.
Qed.

(** C10: goroutines that send the responses [ms] through
    [svr.sendPacket], each marshalled without error to its payload in
    [bbs], of fewer than 2^32 bytes, interleaved in any way, on an
    in-memory output that held [w0]. In every state they reach at most one
    of them is between [Lock] and [Unlock], and the mutex is held exactly
    when one is there, from the marshalling of its response to the
    deferred [Unlock]; and the state can be run on until all calls have
    returned. Once all have returned, the output is [w0] followed
    by one frame for each response, in some order of the responses and
    with nothing between or inside them; a frame is the payload behind the
    four bytes of its exact length, which [unmarshalUint32] reads back,
    and [recvPacket] on a stream that starts with the frame of a payload
    returns that payload, tag and body, and stops at the next frame; every
    call has returned nil and the mutex is free. *)
Theorem concurrent_senders_write_whole_frames
  (w0 : list byte) (ms : list M) (bbs : list (list byte))
  (svr : @t (list byte)) (cs : list (@pc M))
  (Hms : Forall2 (fun m bb => encoding.MarshalBinary m = Some (bb, None))
           ms bbs)
  (Hlen : Forall (fun bb => len bb < 2 ^ 32) bbs)
  (Hrun : steps (initial w0 ms) (svr, cs)) :
  (List.length (filter in_critical_section cs) <= 1)%nat /\
  (outMutex svr = true <->
   exists c, In c cs /\ in_critical_section c = true) /\
  (exists st', steps (svr, cs) st' /\ forallb returned (snd st') = true) /\
  (forallb returned cs = true ->
   exists order,
     Permutation order bbs /\
     List.length order = List.length ms /\
     out svr =
       w0 ++ List.concat
               (map (fun bb => marshalUint32 [] (len bb) ++ bb) order) /\
     Forall (fun bb =>
               forall rest,
                 unmarshalUint32 (marshalUint32 [] (len bb) ++ bb ++ rest) =
                   Some (len bb, bb ++ rest) /\
                 forall tag body,
                   bb = tag :: body ->
                   recvPacket (marshalUint32 [] (len bb) ++ bb ++ rest) =
                     Some (rest, (tag, body, None))) order /\
     outMutex svr = false /\
     cs = map (fun _ => Returned (Some None)) ms).
Proof.
  pose proof (invariant_steps w0 bbs _ _ (invariant_initial w0 ms bbs Hms) Hrun)
    as (Hsends & Hmutex & order & Hperm & Hout).
  cbn [fst snd] in *. split; [destruct (outMutex svr); lia|].
  split.
  { rewrite holder_of_the_mutex.
    destruct (outMutex svr), (filter in_critical_section cs);
      try discriminate Hmutex; split; congruence. }
  split; [exact (runs_to_the_end _ (svr, cs) (le_n _) Hmutex)|].
  intros Hret.
  destruct (all_returned bbs cs Hsends Hret) as (Hsent & Hpartial & Hcs & Ecs).
  rewrite Hsent in Hperm. rewrite Hpartial, app_nil_r in Hout.
  rewrite Hcs in Hmutex.
  assert (Horder : Forall (fun bb => len bb < 2 ^ 32) order).
  { apply Forall_forall. intros bb Hin.
    apply (proj1 (Forall_forall _ bbs) Hlen).
    now apply (Permutation_in _ Hperm). }
  exists order. split; [exact Hperm|].
  split; [|split; [|split; [|split]]].
  - rewrite (Permutation_length Hperm). symmetry. apply (Forall2_length Hms).
  - now rewrite <- (frames_pinned order Horder).
  - apply Forall_forall. intros bb Hin rest.
    assert (Hbb : is_uint32 (len bb)).
    { split; [apply len_nonneg|].
      exact (proj1 (Forall_forall _ order) Horder bb Hin). }
    split.
    + now rewrite unmarshalUint32_marshalUint32, (uint32_small _ Hbb).
    + intros tag body ->.
      apply (recvPacket_frame _ (tag :: body) rest Hbb eq_refl).
  - destruct (outMutex svr); [discriminate|reflexivity].
  - rewrite Ecs. clear -Hms. induction Hms; [reflexivity|].
    cbn [map]. f_equal. assumption.
Qed.

End Runs.
End ServerFacts.

Lemma concurrent_senders_write_whole_frames_witness :
  exists order,
    Permutation order
      [[x66; x00; x00; x00; x01; x00; x00; x00; x01; x61];
       [x66; x00; x00; x00; x02; x00; x00; x00; x01; x62]] /\
    [x00; x00; x00; x0a; x66; x00; x00; x00; x01; x00; x00; x00; x01; x61;
     x00; x00; x00; x0a; x66; x00; x00; x00; x02; x00; x00; x00; x01; x62] =
      [] ++ List.concat
              (map (fun bb => marshalUint32 [] (len bb) ++ bb) order) /\
    Forall (fun bb =>
              forall rest tag body,
                bb = tag :: body ->
                recvPacket (marshalUint32 [] (len bb) ++ bb ++ rest) =
                  Some (rest, (tag, body, None))) order.
Proof.
  destruct (ServerFacts.concurrent_senders_write_whole_frames
              (H := sshFxpHandlePacket.MarshalBinary) []
              [sshFxpHandlePacket.mk 1 "a"; sshFxpHandlePacket.mk 2 "b"]
              [[x66; x00; x00; x00; x01; x00; x00; x00; x01; x61];
               [x66; x00; x00; x00; x02; x00; x00; x00; x01; x62]]
              (Server.mk
                 [x00; x00; x00; x0a;
                  x66; x00; x00; x00; x01; x00; x00; x00; x01; x61;
                  x00; x00; x00; x0a;
                  x66; x00; x00; x00; x02; x00; x00; x00; x01; x62] false)
              [Server.Returned (Some None); Server.Returned (Some None)])
    as (_ & _ & _ & Hdone).
  - repeat constructor.
  - repeat constructor.
  - apply (ServerFacts.sequential_run
             (H := sshFxpHandlePacket.MarshalBinary)
             [sshFxpHandlePacket.mk 1 "a"; sshFxpHandlePacket.mk 2 "b"]
             [[x66; x00; x00; x00; x01; x00; x00; x00; x01; x61];
              [x66; x00; x00; x00; x02; x00; x00; x00; x01; x62]]
             ltac:(repeat constructor) [] []).
  - destruct (Hdone eq_refl) as (order & Hperm & _ & Hout & Hparse & _).
    exists order. split; [exact Hperm|]. split; [exact Hout|].
    apply Forall_forall. intros bb Hin rest.
    exact (proj2 (proj1 (Forall_forall _ order) Hparse bb Hin rest)).
Defined.

(** The mutex is held for more than the writes of the frame: a call that
    has taken it is about to marshal its response, with nothing written
    yet. *)
Lemma lock_is_held_across_MarshalBinary :
  exists st : @Server.state (list byte) sshFxpHandlePacket.t,
    Server.steps (H := buffer_Writer) (H0 := sshFxpHandlePacket.MarshalBinary)
      (Server.initial [] [sshFxpHandlePacket.mk 1 "a"]) st /\
    Server.outMutex (fst st) = true /\
    Server.out (fst st) = [] /\
    snd st = [Server.AtMarshal (sshFxpHandlePacket.mk 1 "a")].
Proof.
  exists (Server.mk [] true, [Server.AtMarshal (sshFxpHandlePacket.mk 1 "a")]).
  split; [|now repeat split].
  eapply Server.steps_step; [apply Server.steps_refl|].
  apply (Server.step_thread
           (H := buffer_Writer) (H0 := sshFxpHandlePacket.MarshalBinary)
           (Server.mk [] false) (Server.mk [] true)
           (Server.AtLock (sshFxpHandlePacket.mk 1 "a"))
           (Server.AtMarshal (sshFxpHandlePacket.mk 1 "a")) [] []).
  reflexivity.
Qed.

(** * The unchecked decoders against the checked ones *)

Lemma unmarshalUint64_short (b : list byte) :
  len b < 8 -> unmarshalUint64 b = None.
Proof.
  intros Hb. unfold unmarshalUint64.
  destruct (Z_lt_le_dec (len b) 4) as [H4|H4].
  - now rewrite unmarshalUint32_short.
  - destruct (long_buffer_4 b H4) as (b0 & b1 & b2 & b3 & rest & ->).
    rewrite unmarshalUint32_cons, unmarshalUint32_short; [reflexivity|].
    rewrite !len_cons in Hb. lia.
Qed.

Lemma slice_to_short (b : list byte) (n : Z) : len b < n -> slice_to b n = None.
Proof.
  intros Hn. unfold slice_to.
  replace (n <=? len b) with false by (symmetry; apply Z.leb_gt; lia).
  now rewrite andb_false_r.
Qed.

Lemma unmarshalString_bytes (s rest : list byte) :
  len s < 2 ^ 32 ->
  unmarshalString (marshalUint32 [] (len s) ++ s ++ rest) =
    Some (string_of_list_byte s, rest).
Proof.
  intros Hs. pose proof (len_nonneg s). unfold unmarshalString.
  rewrite unmarshalUint32_marshalUint32, uint32_small by (split; assumption).
  now rewrite slice_to_app, slice_from_app.
Qed.

(** X1: each checked decoder is its unchecked twin with the panic turned
    into [shortPacketError]: on every buffer, where the unchecked decoder
    returns a value and a rest the checked one returns the same with a nil
    error, and where the unchecked decoder panics, on an index or a slice
    bound out of range, the checked one returns zero values and
    [shortPacketError]. *)
Theorem checked_decoders_guard_the_unchecked (b : list byte) :
  unmarshalUint32Safe b =
    match unmarshalUint32 b with
    | Some (v, rest) => Some (v, rest, None)
    | None => Some (0, [], Some shortPacketError)
    end /\
  unmarshalUint64Safe b =
    match unmarshalUint64 b with
    | Some (v, rest) => Some (v, rest, None)
    | None => Some (0, [], Some shortPacketError)
    end /\
  unmarshalStringSafe b =
    match unmarshalString b with
    | Some (s, rest) => Some (s, rest, None)
    | None => Some (EmptyString, [], Some shortPacketError)
    end.
Proof.
  split; [|split].
  - destruct (Z_lt_le_dec (len b) 4) as [Hb|Hb].
    + now rewrite unmarshalUint32Safe_short, unmarshalUint32_short.
    + destruct (long_buffer_4 b Hb) as (b0 & b1 & b2 & b3 & rest & ->).
      now rewrite unmarshalUint32Safe_cons, unmarshalUint32_cons.
  - destruct (Z_lt_le_dec (len b) 8) as [Hb|Hb].
    + now rewrite unmarshalUint64Safe_short, unmarshalUint64_short.
    + destruct (long_buffer_8 b Hb)
        as (b0 & b1 & b2 & b3 & b4 & b5 & b6 & b7 & rest & ->).
      now rewrite unmarshalUint64Safe_cons, unmarshalUint64_cons.
  - destruct (unmarshalStringSafe_cases b)
      as [[Hb E]|[(n & b' & -> & Hn & Hlt & E)|(s & rest & -> & Hs & E)]];
      rewrite E.
    + unfold unmarshalString. now rewrite unmarshalUint32_short.
    + unfold unmarshalString.
      rewrite unmarshalUint32_marshalUint32, uint32_small by exact Hn.
      now rewrite slice_to_short.
    + unfold marshalString. rewrite <- app_assoc.
      rewrite uint32_small
        by (split; [apply strlen_nonneg|exact Hs]).
      rewrite <- len_list_byte_of_string in *.
      rewrite unmarshalString_bytes by exact Hs.
      now rewrite string_of_list_byte_of_string.
Qed.

(** X2: the unchecked decoders undo the encoders, whatever follows in the
    buffer: a 32-bit or 64-bit value comes back reduced to its width, a
    string shorter than 2^32 bytes comes back as it was, and the rest of the
    buffer is what followed the field. Hence two encodings that start a
    buffer alike are encodings of the same value. *)
Theorem unchecked_decoders_undo_encoders
  (v w : Z) (s t : string) (rest rest' : list byte)
  (Hs : strlen s < 2 ^ 32) (Ht : strlen t < 2 ^ 32) :
  unmarshalUint32 (marshalUint32 [] v ++ rest) = Some (uint32 v, rest) /\
  unmarshalUint64 (marshalUint64 [] v ++ rest) = Some (uint64 v, rest) /\
  unmarshalString (marshalString [] s ++ rest) = Some (s, rest) /\
  (marshalUint32 [] v ++ rest = marshalUint32 [] w ++ rest' ->
   uint32 v = uint32 w /\ rest = rest') /\
  (marshalUint64 [] v ++ rest = marshalUint64 [] w ++ rest' ->
   uint64 v = uint64 w /\ rest = rest') /\
  (marshalString [] s ++ rest = marshalString [] t ++ rest' ->
   s = t /\ rest = rest').
Proof.
  assert (E32 : forall x r,
             unmarshalUint32 (marshalUint32 [] x ++ r) = Some (uint32 x, r))
    by (intros; apply unmarshalUint32_marshalUint32).
  assert (E64 : forall x r,
             unmarshalUint64 (marshalUint64 [] x ++ r) = Some (uint64 x, r)).
  { intros x r. unfold marshalUint64, marshalUint32. cbn [app].
    rewrite unmarshalUint64_cons, !be32_marshal. now rewrite be64_marshal. }
  assert (ES : forall x r, strlen x < 2 ^ 32 ->
             unmarshalString (marshalString [] x ++ r) = Some (x, r)).
  { intros x r Hx. unfold marshalString. rewrite <- app_assoc.
    rewrite uint32_small by (split; [apply strlen_nonneg|exact Hx]).
    rewrite <- len_list_byte_of_string in *.
    rewrite unmarshalString_bytes by exact Hx.
    now rewrite string_of_list_byte_of_string. }
  repeat split; auto.
  - pose proof (E32 v rest) as E. rewrite H, E32 in E. congruence.
  - pose proof (E32 v rest) as E. rewrite H, E32 in E. congruence.
  - pose proof (E64 v rest) as E. rewrite H, E64 in E. congruence.
  - pose proof (E64 v rest) as E. rewrite H, E64 in E. congruence.
  - pose proof (ES s rest Hs) as E. rewrite H, ES in E by exact Ht. congruence.
  - pose proof (ES s rest Hs) as E. rewrite H, ES in E by exact Ht. congruence.
Qed.

Lemma unchecked_decoders_undo_encoders_witness :
  unmarshalUint32 (marshalUint32 [] (2 ^ 32 + 7) ++ [xff]) = Some (7, [xff]) /\
  unmarshalUint64 (marshalUint64 [] (2 ^ 40) ++ [xff]) = Some (2 ^ 40, [xff]) /\
  unmarshalString (marshalString [] "ab" ++ [xff]) = Some ("ab"%string, [xff]).
Proof.
  pose proof (unchecked_decoders_undo_encoders (2 ^ 32 + 7) 0 "ab" "" [xff] []
                eq_refl eq_refl) as (H1 & _).
  pose proof (unchecked_decoders_undo_encoders (2 ^ 40) 0 "ab" "" [xff] []
                eq_refl eq_refl) as (_ & H2 & H3 & _).
  split; [exact H1|split; [exact H2|exact H3]].
Defined.

(** * The reflective encoder *)

Section MarshalFacts.

Variable FileInfo : Type.
Variable marshalFileInfo : list byte -> FileInfo -> list byte.

(** Induction on a value and on the values it holds. *)
Lemma value_nested_ind (P : value FileInfo -> Prop) :
  P VNil ->
  (forall v, P (VUint8 v)) ->
  (forall v, P (VUint32 v)) ->
  (forall v, P (VUint64 v)) ->
  (forall v, P (VString v)) ->
  (forall v, P (VFileInfo v)) ->
  (forall vs, Forall P vs -> P (VStruct vs)) ->
  (forall vs, Forall P vs -> P (VSlice vs)) ->
  P VOther ->
  P VUnexported ->
  forall v, P v.
Proof.
  intros Hnil H8 H32 H64 Hstr Hfi Hstruct Hslice Hother Hunexported.
  fix IH 1.
  intros [ |v|v|v|v|v|vs|vs| | ];
    [exact Hnil|apply H8|apply H32|apply H64|apply Hstr|apply Hfi| |
    |exact Hother|exact Hunexported].
  - apply Hstruct. induction vs as [|v vs IHvs]; constructor; [apply IH|exact IHvs].
  - apply Hslice. induction vs as [|v vs IHvs]; constructor; [apply IH|exact IHvs].
Qed.

Lemma marshal_each_app (xs ys : list (value FileInfo)) (b : list byte) :
  marshal_each marshalFileInfo (xs ++ ys) b =
    (b' <- marshal_each marshalFileInfo xs b ;;
     marshal_each marshalFileInfo ys b').
Proof.
  revert b. induction xs as [|x xs IH]; intros b; [reflexivity|].
  cbn [app marshal_each]. destruct (marshal marshalFileInfo b x); [apply IH|reflexivity].
Qed.

Lemma marshal_panics_iff_unsupported (v : value FileInfo) :
  forall b, marshal marshalFileInfo b v = None <-> supported v = false.
Proof.
  induction v as [ |v|v|v|v|v|vs IH|vs IH| | ] using value_nested_ind;
    intros b;
    cbn [marshal supported]; try (split; [discriminate|discriminate]);
    try (split; reflexivity).
  - change (marshal_each marshalFileInfo vs b = None <->
            supported_all vs = false).
    revert b. induction IH as [|v vs Hv _ IHvs]; intros b;
      cbn [marshal_each supported_all]; [split; discriminate|].
    pose proof (Hv b) as [Hv1 Hv2].
    destruct (marshal marshalFileInfo b v) as [b'|];
      destruct (supported v); cbn [andb].
    + apply IHvs.
    + specialize (Hv2 eq_refl). discriminate.
    + specialize (Hv1 eq_refl). discriminate.
    + split; reflexivity.
  - change (marshal_each marshalFileInfo vs b = None <->
            supported_all vs = false).
    revert b. induction IH as [|v vs Hv _ IHvs]; intros b;
      cbn [marshal_each supported_all]; [split; discriminate|].
    pose proof (Hv b) as [Hv1 Hv2].
    destruct (marshal marshalFileInfo b v) as [b'|];
      destruct (supported v); cbn [andb].
    + apply IHvs.
    + specialize (Hv2 eq_refl). discriminate.
    + specialize (Hv1 eq_refl). discriminate.
    + split; reflexivity.
Qed.

(** X3: [marshal] panics exactly on the values that hold, at some depth, a
    value of a kind it does not handle or a struct field that is not
    exported, whatever the buffer; on every other value it returns a
    buffer. The fields or elements before the offending one do not save the
    call. *)
Theorem marshal_panics_exactly_on_unsupported
  (b : list byte) (v : value FileInfo) :
  (marshal marshalFileInfo b v = None <-> supported v = false) /\
  ((exists b', marshal marshalFileInfo b v = Some b') <-> supported v = true).
Proof.
  pose proof (marshal_panics_iff_unsupported v b) as [H1 H2].
  split; [split; assumption|].
  destruct (marshal marshalFileInfo b v) as [b'|]; destruct (supported v).
  - split; [reflexivity|eauto].
  - specialize (H2 eq_refl). discriminate.
  - specialize (H1 eq_refl). discriminate.
  - split; [intros [b' E]; discriminate|discriminate].
Qed.

Lemma marshal_appends (v : value FileInfo) :
  (forall b fi, marshalFileInfo b fi = b ++ marshalFileInfo [] fi) ->
  forall b,
    marshal marshalFileInfo b v =
      option_map (app b) (marshal marshalFileInfo [] v).
Proof.
  intros Hfi.
  assert (Heach : forall vs,
             Forall (fun v => forall b,
                         marshal marshalFileInfo b v =
                           option_map (app b) (marshal marshalFileInfo [] v))
               vs ->
             forall b,
               marshal_each marshalFileInfo vs b =
                 option_map (app b) (marshal_each marshalFileInfo vs [])).
  { induction 1 as [|x xs Hx _ IH]; intros b; cbn [marshal_each].
    - cbn. now rewrite app_nil_r.
    - rewrite (Hx b).
      destruct (marshal marshalFileInfo [] x) as [e|]; [|reflexivity].
      cbn [option_map]. rewrite (IH (b ++ e)), (IH e).
      destruct (marshal_each marshalFileInfo xs []) as [r|]; [|reflexivity].
      cbn [option_map]. now rewrite app_assoc. }
  induction v as [ |v|v|v|v|v|vs IH|vs IH| | ] using value_nested_ind;
    intros b;
    cbn [marshal option_map app]; try reflexivity.
  - now rewrite app_nil_r.
  - now rewrite marshalUint64_app.
  - now rewrite marshalString_app.
  - now rewrite Hfi.
  - apply (Heach vs IH).
  - apply (Heach vs IH).
Qed.

(** X4: with a [marshalFileInfo] that only appends to its buffer, [marshal]
    only appends too: the bytes it adds for a value, and whether it panics,
    do not depend on the buffer it is given. *)
Theorem marshal_only_appends
  (Hfi : forall b fi, marshalFileInfo b fi = b ++ marshalFileInfo [] fi)
  (b : list byte) (v : value FileInfo) :
  marshal marshalFileInfo b v =
    match marshal marshalFileInfo [] v with
    | Some encoding => Some (b ++ encoding)
    | None => None
    end.
Proof.
  rewrite (marshal_appends v Hfi b).
  now destruct (marshal marshalFileInfo [] v).
Qed.

(** X5: [marshal] writes the values a struct or slice holds one after the
    other and nothing else, neither a count nor a mark of the nesting: a
    slice that holds a slice and a struct is encoded as the struct of all
    their values in a row, and the encoding of two lists in a row is the
    encoding of the first continued by that of the second. *)
Theorem marshal_leaves_no_trace_of_nesting
  (b : list byte) (xs ys zs : list (value FileInfo)) :
  marshal marshalFileInfo b (VSlice (VSlice xs :: VStruct ys :: zs)) =
    marshal marshalFileInfo b (VStruct (xs ++ ys ++ zs)) /\
  marshal marshalFileInfo b (VSlice (xs ++ ys)) =
    (b' <- marshal marshalFileInfo b (VSlice xs) ;;
     marshal marshalFileInfo b' (VSlice ys)).
Proof.
  split.
  - change (marshal_each marshalFileInfo (VSlice xs :: VStruct ys :: zs) b =
            marshal_each marshalFileInfo (xs ++ ys ++ zs) b).
    rewrite !marshal_each_app. cbn [marshal_each].
    change (marshal marshalFileInfo b (VSlice xs))
      with (marshal_each marshalFileInfo xs b).
    destruct (marshal_each marshalFileInfo xs b) as [b1|]; [|reflexivity].
    change (marshal marshalFileInfo b1 (VStruct ys))
      with (marshal_each marshalFileInfo ys b1).
    symmetry. apply marshal_each_app.
  - apply marshal_each_app.
Qed.

End MarshalFacts.

Lemma marshal_only_appends_witness :
  marshal (fun b fi => b ++ fi) [xff]
    (VStruct [VUint8 x01; VFileInfo [x02; x03]; VSlice [VUint32 4]]) =
    Some [xff; x01; x02; x03; x00; x00; x00; x04].
Proof.
  rewrite (marshal_only_appends (list byte) (fun b fi => b ++ fi)
             (fun b fi => eq_refl) [xff]).
  reflexivity.
Defined.

(** * Framing, on every stream *)





(** X7: [recvPacket] undoes [sendPacket]. When the marshaller returns a
    payload of at least one and fewer than 2^32 bytes, [sendPacket] adds one
    frame to an in-memory output, and [recvPacket] on a stream that starts
    with that frame returns the first byte of the payload as tag and the
    others as body, and leaves the reader on what follows the frame. *)
Theorem recvPacket_undoes_sendPacket
  {M : Type} `{encoding.BinaryMarshaler M}
  (m : M) (tag : byte) (body sent_before rest : list byte)
  (Hm : encoding.MarshalBinary m = Some (tag :: body, None))
  (Hlen : len (tag :: body) < 2 ^ 32) :
  exists frame,
    sendPacket sent_before m = Some (sent_before ++ frame, None) /\
    recvPacket (frame ++ rest) = Some (rest, (tag, body, None)).
Proof.
  exists (sendPacket_hdr (tag :: body) ++ tag :: body). split.
  - rewrite (sendPacket_writes sent_before m _ Hm). cbn.
    unfold io.Write, buffer_Writer. now rewrite <- app_assoc.
  - rewrite sendPacket_hdr_marshalUint32, <- app_assoc.
    assert (Hr : is_uint32 (len (tag :: body)))
      by (split; [apply len_nonneg|exact Hlen]).
    rewrite (uint32_small _ Hr).
    apply (recvPacket_frame _ (tag :: body) rest Hr eq_refl).
Qed.

Lemma recvPacket_undoes_sendPacket_witness :
  exists frame,
    sendPacket (H0 := sshFxpHandlePacket.MarshalBinary) [xff]
      (sshFxpHandlePacket.mk 7 "h") = Some ([xff] ++ frame, None) /\
    recvPacket (frame ++ [x00; x00]) =
      Some ([x00; x00],
            (ssh_FXP_HANDLE,
             [x00; x00; x00; x07; x00; x00; x00; x01; x68], None)).
Proof.
  apply (recvPacket_undoes_sendPacket
           (H := sshFxpHandlePacket.MarshalBinary)
           (sshFxpHandlePacket.mk 7 "h") ssh_FXP_HANDLE
           [x00; x00; x00; x07; x00; x00; x00; x01; x68] [xff] [x00; x00]
           eq_refl eq_refl).
Defined.

(** * The decoders, on every buffer *)

Lemma unmarshalExtensionPair_cases (b : list byte) :
  (exists e rest,
      b = marshalString [] (Name e) ++ marshalString [] (Data e) ++ rest /\
      short_string (Name e) /\ short_string (Data e) /\
      unmarshalExtensionPair b = Some (e, rest, None)) \/
  (exists e rest, unmarshalExtensionPair b = Some (e, rest, Some shortPacketError)).
Proof.
  unfold unmarshalExtensionPair.
  destruct (unmarshalStringSafe_cases b)
    as [[_ E]|[(n & b' & _ & _ & _ & E)|(s1 & r1 & -> & Hs1 & E)]];
    rewrite E; cbv beta iota zeta; [right; eauto|right; eauto|].
  destruct (unmarshalStringSafe_cases r1)
    as [[_ E2]|[(n & b' & _ & _ & _ & E2)|(s2 & r2 & -> & Hs2 & E2)]];
    rewrite E2; cbv beta iota zeta; [right; eauto|right; eauto|].
  left. exists (mkExtensionPair s1 s2), r2. cbn [Name Data]. now repeat split.
Qed.

(** The loop of [sshFxInitPacket.UnmarshalBinary], whatever the receiver:
    the pairs it decodes, which it appends to the receiver's, and the error
    it ends on. *)
Lemma Init_loop_spec (fuel : nat) :
  forall b : list byte,
    (List.length b <= fuel)%nat ->
    exists es err,
      (forall p,
          sshFxInitPacket.UnmarshalBinary_loop fuel p b =
            Some (sshFxInitPacket.mk (sshFxInitPacket.Version p)
                    (sshFxInitPacket.Extensions p ++ es), err)) /\
      Forall (fun e => short_string (Name e) /\ short_string (Data e)) es /\
      8 * len es <= len b /\
      (err = None -> b = marshalExtensions [] es) /\
      (err = None \/ err = Some shortPacketError).
Proof.
  induction fuel as [|fuel IH]; intros b Hfuel.
  - destruct b; [|cbn in Hfuel; lia]. exists [], None.
    repeat split; auto; try (cbn; lia).
    intros p. cbn. rewrite app_nil_r. now destruct p.
  - destruct (len b >? 0) eqn:Epos.
    + destruct (unmarshalExtensionPair_cases b)
        as [(e & rest & -> & Hn & Hd & E)|(e & rest & E)].
      * assert (Hshrink : (List.length rest <= fuel)%nat).
        { rewrite !length_app in Hfuel.
          assert (H1 : 4 <= len (marshalString [] (Name e))).
          { rewrite len_marshalString, len_nil.
            pose proof (strlen_nonneg (Name e)). lia. }
          unfold len in H1. lia. }
        destruct (IH rest Hshrink) as (es & err & Hloop & Hes & Hlen & Hb & Herr).
        exists (e :: es), err. split; [|split; [|split; [|split]]].
        -- intros p. cbn [sshFxInitPacket.UnmarshalBinary_loop].
           rewrite Epos, E, Hloop. fields. now rewrite <- app_assoc.
        -- constructor; [split; assumption|exact Hes].
        -- rewrite !len_app, !len_marshalString, len_cons, len_nil.
           pose proof (strlen_nonneg (Name e)).
           pose proof (strlen_nonneg (Data e)). lia.
        -- intros Ee. rewrite (Hb Ee) at 1. cbn [marshalExtensions].
           rewrite (marshalExtensions_app (marshalString _ _)).
           rewrite (marshalString_app (marshalString [] _)).
           now rewrite <- !app_assoc.
        -- exact Herr.
      * exists [], (Some shortPacketError).
        split; [|split; [constructor|split; [|split; [discriminate|now right]]]].
        -- intros p. cbn [sshFxInitPacket.UnmarshalBinary_loop].
           rewrite Epos, E, app_nil_r. now destruct p.
        -- pose proof (len_nonneg b). cbn. lia.
    + exists [], None.
      assert (Eb : b = []).
      { destruct b as [|x b]; [reflexivity|]. rewrite len_cons in Epos.
        pose proof (len_nonneg b).
        rewrite Z.gtb_ltb in Epos. apply Z.ltb_ge in Epos. lia. }
      subst b. repeat split; auto; try (cbn; lia).
      intros p. cbn. rewrite app_nil_r. now destruct p.
Qed.

(** The INIT decoder, whatever the receiver. *)
Lemma Init_UnmarshalBinary_spec (b : list byte) :
  exists (v : Z) (es : list ExtensionPair) (err : option error),
    (forall ver old,
        sshFxInitPacket.UnmarshalBinary (sshFxInitPacket.mk ver old) b =
          Some (sshFxInitPacket.mk v (old ++ es), err)) /\
    8 * len es <= len b /\
    (err = None \/ err = Some shortPacketError) /\
    (err = None ->
     b = marshalUint32 [] v ++ marshalExtensions [] es /\ is_uint32 v /\
     Forall (fun e => short_string (Name e) /\ short_string (Data e)) es).
Proof.
  unfold sshFxInitPacket.UnmarshalBinary.
  destruct (unmarshalUint32Safe_cases b) as [[_ E]|(v & rest & -> & Hv & E)];
    rewrite E.
  - exists 0, [], (Some shortPacketError).
    split; [|split; [pose proof (len_nonneg b); cbn; lia|split;
                      [now right|discriminate]]].
    intros ver old. cbv beta iota zeta. fields. now rewrite app_nil_r.
  - destruct (Init_loop_spec (List.length rest) rest (Nat.le_refl _))
      as (es & err & Hloop & Hes & Hlen & Hb & Herr).
    exists v, es, err. split; [|split; [|split; [exact Herr|]]].
    + intros ver old. cbv beta iota zeta. fields. now rewrite Hloop.
    + rewrite len_app. pose proof (len_nonneg (marshalUint32 [] v)). lia.
    + intros Ee. split; [f_equal; exact (Hb Ee)|split; assumption].
Qed.

(** X10: the INIT decoder on every buffer and every receiver. It returns:
    the loop over the extension pairs ends. It overwrites the receiver's
    version and appends the pairs it decodes to the extensions the receiver
    already holds, also when it ends on an error; a receiver that is used
    again keeps the pairs of the earlier calls. A buffer of [n] bytes yields
    at most [n / 8] pairs, and the only error is [shortPacketError]. *)
Theorem init_decoder_extends_receiver (b : list byte) :
  exists (v : Z) (es : list ExtensionPair) (err : option error),
    (forall ver old,
        sshFxInitPacket.UnmarshalBinary (sshFxInitPacket.mk ver old) b =
          Some (sshFxInitPacket.mk v (old ++ es), err)) /\
    8 * len es <= len b /\
    (err = None \/ err = Some shortPacketError).
Proof.
  destruct (Init_UnmarshalBinary_spec b) as (v & es & err & H & Hlen & Herr & _).
  now exists v, es, err.
Qed.

Lemma slice_to_firstn (b : list byte) (n : Z) :
  0 <= n <= len b -> slice_to b n = Some (firstn (Z.to_nat n) b).
Proof.
  intros Hn. unfold slice_to.
  replace (0 <=? n) with true by (symmetry; apply Z.leb_le; lia).
  replace (n <=? len b) with true by (symmetry; apply Z.leb_le; lia).
  reflexivity.
Qed.

Lemma copy_make_firstn (b : list byte) (n : Z) :
  0 <= n <= len b -> copy (make n) b = firstn (Z.to_nat n) b.
Proof.
  intros Hn. unfold copy, make. rewrite repeat_length.
  unfold len in Hn.
  rewrite skipn_all2 by (rewrite repeat_length; lia). apply app_nil_r.
Qed.

Lemma len_firstn (b : list byte) (n : Z) :
  0 <= n <= len b -> len (firstn (Z.to_nat n) b) = n.
Proof. intros Hn. unfold len in *. rewrite length_firstn. lia. Qed.

(** The length test of WRITE and DATA passed: the declared length is
    covered by the rest. *)
Lemma declared_length_covered (r : list byte) (n : Z) :
  is_uint32 n -> (uint32 (len r) <? n) = false -> 0 <= n <= len r.
Proof.
  intros Hn E. apply Z.ltb_ge in E.
  pose proof (uint32_le (len r) (len_nonneg r)). unfold is_uint32 in Hn. lia.
Qed.

Section Decoders.

Variable FileInfo : Type.
Variable marshalFileInfo : list byte -> FileInfo -> list byte.

(** One call of a checked decoder in the goal, by its outcomes. *)
Ltac outcome :=
  match goal with
  | |- context [unmarshalUint32Safe ?b] =>
      let E := fresh "E" in
      destruct (unmarshalUint32Safe_cases b) as [[_ E]|(? & ? & _ & ? & E)];
      rewrite E; clear E
  | |- context [unmarshalUint64Safe ?b] =>
      let E := fresh "E" in
      destruct (unmarshalUint64Safe_cases b) as [[_ E]|(? & ? & _ & ? & E)];
      rewrite E; clear E
  | |- context [unmarshalStringSafe ?b] =>
      let E := fresh "E" in
      destruct (unmarshalStringSafe_cases b)
        as [[_ E]|[(? & ? & _ & _ & _ & E)|(? & ? & _ & ? & E)]];
      rewrite E; clear E
  end; cbv beta iota zeta; fields.

Ltac open_decoders :=
  cbn [UnmarshalBinary zero] in *;
  unfold sshFxpReaddirPacket.UnmarshalBinary,
    sshFxpOpendirPacket.UnmarshalBinary, sshFxpLstatPacket.UnmarshalBinary,
    sshFxpStatPacket.UnmarshalBinary, sshFxpFstatPacket.UnmarshalBinary,
    sshFxpClosePacket.UnmarshalBinary, sshFxpRemovePacket.UnmarshalBinary,
    sshFxpRmdirPacket.UnmarshalBinary, sshFxpSymlinkPacket.UnmarshalBinary,
    sshFxpReadlinkPacket.UnmarshalBinary,
    sshFxpRealpathPacket.UnmarshalBinary, sshFxpOpenPacket.UnmarshalBinary,
    sshFxpReadPacket.UnmarshalBinary, sshFxpRenamePacket.UnmarshalBinary,
    sshFxpWritePacket.UnmarshalBinary, sshFxpMkdirPacket.UnmarshalBinary,
    sshFxpSetstatPacket.UnmarshalBinary, sshFxpFsetstatPacket.UnmarshalBinary,
    sshFxpDataPacket.UnmarshalBinary, unmarshalIdString in *.

(** X8: no [UnmarshalBinary] of the file panics, on any buffer and any
    receiver: each returns, with a nil error, with [shortPacketError], or,
    for the DATA packet alone, with the error "truncated packet". *)
Theorem decoders_never_panic (u : unmarshaler FileInfo) (b : list byte) :
  exists u' err,
    UnmarshalBinary u b = Some (u', err) /\
    (err = None \/ err = Some shortPacketError \/
     (exists p, u = UData p) /\ err = Some (Errorf "truncated packet")).
Proof.
  destruct u as [p|p|p|p|p|p|p|p|p|p|p|p|p|p|p|p|p|p|p|p].
  { (* INIT *)
    destruct p as [ver old].
    destruct (Init_UnmarshalBinary_spec b)
      as (v & es & err & H & _ & Herr & _).
    cbn [UnmarshalBinary]. rewrite H. eexists _, _. split; [reflexivity|].
    destruct Herr as [->| ->]; auto. }
  all: destruct p; open_decoders; repeat outcome;
    try (eexists _, _; split; [reflexivity|auto; fail]).
  - (* WRITE *)
    match goal with
    | |- context [uint32 (len ?r) <? ?n] =>
        destruct (uint32 (len r) <? n) eqn:En;
        [eexists _, _; split; [reflexivity|auto]|];
        rewrite (slice_to_firstn r n) by (now apply declared_length_covered)
    end.
    eexists _, _. split; [reflexivity|auto].
  - (* DATA *)
    match goal with
    | |- context [uint32 (len ?r) <? ?n] =>
        destruct (uint32 (len r) <? n) eqn:En
    end.
    + eexists _, _. split; [reflexivity|]. right. right. eauto.
    + eexists _, _. split; [reflexivity|auto].
Qed.

(** One call of a checked decoder in the hypothesis [H], which says that
    the decoding succeeded: the call succeeded, and the buffer starts with
    the encoding of its value. *)
Ltac decoded H :=
  match type of H with
  | context [unmarshalUint32Safe ?b] =>
      let E := fresh "E" in
      destruct (unmarshalUint32Safe_cases b) as [[_ E]|(? & ? & ? & ? & E)];
      rewrite E in H; clear E; cbv beta iota zeta in H; fields;
      [discriminate H|subst]
  | context [unmarshalUint64Safe ?b] =>
      let E := fresh "E" in
      destruct (unmarshalUint64Safe_cases b) as [[_ E]|(? & ? & ? & ? & E)];
      rewrite E in H; clear E; cbv beta iota zeta in H; fields;
      [discriminate H|subst]
  | context [unmarshalStringSafe ?b] =>
      let E := fresh "E" in
      destruct (unmarshalStringSafe_cases b)
        as [[_ E]|[(? & ? & _ & _ & _ & E)|(? & ? & ? & ? & E)]];
      rewrite E in H; clear E; cbv beta iota zeta in H; fields;
      [discriminate H|discriminate H|subst]
  end.

Ltac conjs := repeat match goal with |- _ /\ _ => split end.

Ltac open_encoders :=
  cbn [MarshalBinary];
  unfold sshFxpReaddirPacket.MarshalBinary, sshFxpOpendirPacket.MarshalBinary,
    sshFxpLstatPacket.MarshalBinary, sshFxpStatPacket.MarshalBinary,
    sshFxpFstatPacket.MarshalBinary, sshFxpClosePacket.MarshalBinary,
    sshFxpRemovePacket.MarshalBinary, sshFxpRmdirPacket.MarshalBinary,
    sshFxpSymlinkPacket.MarshalBinary, sshFxpReadlinkPacket.MarshalBinary,
    sshFxpRealpathPacket.MarshalBinary, sshFxpOpenPacket.MarshalBinary,
    sshFxpReadPacket.MarshalBinary, sshFxpRenamePacket.MarshalBinary,
    sshFxpWritePacket.MarshalBinary, sshFxpMkdirPacket.MarshalBinary,
    sshFxpSetstatPacket.MarshalBinary, sshFxpFsetstatPacket.MarshalBinary,
    sshFxpDataPacket.MarshalBinary, sshFxpDataPacket.MarshalBinary_cap,
    marshalIdString, make_cap;
  cbv zeta; cbn [app]; fields; rewrite ?app_nil_r.

(** X9: a buffer that a decoder accepts, starting from a zero value, is
    the marshalled form of the packet it yields. The packet holds integers
    of their types and is canonical (strings shorter than 2^32 bytes,
    [Length] equal to the length of [Data], [Attrs] a [[]byte]);
    marshalling it gives a tag and a body, and the buffer is that body
    followed by the bytes the decoder left unread, none for INIT, SETSTAT
    and FSETSTAT. *)
Theorem decoded_packets_marshal_back
  (u u' : unmarshaler FileInfo) (b : list byte)
  (Hdec : UnmarshalBinary (zero u) b = Some (u', None)) :
  well_typed u' /\ canonical u' /\
  exists tag body rest,
    MarshalBinary marshalFileInfo (MU u') = Some (tag :: body, None) /\
    b = body ++ rest /\
    (fixed_fields u = false -> rest = []).
Proof.
  destruct u as [p|p|p|p|p|p|p|p|p|p|p|p|p|p|p|p|p|p|p|p].
  { (* INIT *)
    cbn [zero UnmarshalBinary] in Hdec.
    destruct (Init_UnmarshalBinary_spec b)
      as (v & es & err & H & _ & _ & Hb).
    rewrite (H 0 []) in Hdec. cbn [app] in Hdec.
    assert (err = None) by congruence. subst err.
    apply Some_fst_inj in Hdec. subst u'.
    destruct (Hb eq_refl) as (-> & Hv & Hes).
    cbn [well_typed canonical]; fields. split; [exact Hv|split; [exact Hes|]].
    eexists _, _, []. split; [|split; [now rewrite app_nil_r|reflexivity]].
    cbn [MarshalBinary].
    unfold sshFxInitPacket.MarshalBinary, make_cap. cbv zeta. cbn [app].
    fields. rewrite marshalExtensions_app. split_encoders. reflexivity. }
  all: open_decoders; repeat decoded Hdec.
  all: try (apply Some_fst_inj in Hdec; subst u';
            cbn [well_typed canonical fixed_fields]; fields;
            split; [conjs; assumption|];
            split; [conjs; assumption|];
            eexists _, _, _; split;
            [open_encoders; split_encoders; reflexivity|];
            split; [now rewrite <- ?app_assoc|discriminate]).
  - (* WRITE *)
    match type of Hdec with
    | context [uint32 (len ?r) <? ?n] =>
        destruct (uint32 (len r) <? n) eqn:En; [discriminate Hdec|];
        assert (Hn : 0 <= n <= len r) by (now apply declared_length_covered);
        rewrite (slice_to_firstn r n Hn) in Hdec;
        pose proof (len_firstn r n Hn) as Hlen;
        cbv beta iota zeta in Hdec; fields;
        apply Some_fst_inj in Hdec; subst u';
        cbn [well_typed canonical fixed_fields]; fields;
        split; [conjs; assumption|];
        split; [split; [assumption|symmetry; assumption]|];
        eexists _, _, (skipn (Z.to_nat n) r); split;
        [open_encoders; split_encoders; reflexivity|];
        split; [|discriminate];
        rewrite <- ?app_assoc; now rewrite firstn_skipn
    end.
  - (* SETSTAT *)
    apply Some_fst_inj in Hdec. subst u'.
    cbn [well_typed canonical fixed_fields]; fields.
    split; [conjs; assumption|].
    split; [split; [assumption|eexists; reflexivity]|].
    eexists _, _, []. split.
    + open_encoders. rewrite marshal_VBytes. split_encoders. reflexivity.
    + split; [now rewrite <- ?app_assoc, app_nil_r|reflexivity].
  - (* FSETSTAT *)
    apply Some_fst_inj in Hdec. subst u'.
    cbn [well_typed canonical fixed_fields]; fields.
    split; [conjs; assumption|].
    split; [split; [assumption|eexists; reflexivity]|].
    eexists _, _, []. split.
    + open_encoders. rewrite marshal_VBytes. split_encoders. reflexivity.
    + split; [now rewrite <- ?app_assoc, app_nil_r|reflexivity].
  - (* DATA *)
    match type of Hdec with
    | context [uint32 (len ?r) <? ?n] =>
        destruct (uint32 (len r) <? n) eqn:En; [discriminate Hdec|];
        assert (Hn : 0 <= n <= len r) by (now apply declared_length_covered);
        rewrite (copy_make_firstn r n Hn) in Hdec;
        pose proof (len_firstn r n Hn) as Hlen;
        apply Some_fst_inj in Hdec; subst u';
        cbn [well_typed canonical fixed_fields]; fields;
        split; [conjs; assumption|];
        split; [symmetry; assumption|];
        eexists _, _, (skipn (Z.to_nat n) r); split;
        [open_encoders; rewrite <- Hlen at 2; rewrite slice_to_all;
         split_encoders; reflexivity|];
        split; [|discriminate];
        rewrite <- ?app_assoc; now rewrite firstn_skipn
    end.
Qed.

End Decoders.

Lemma decoded_packets_marshal_back_witness :
  exists tag body rest,
    MarshalBinary marshal_no_FileInfo
      (MU (UMkdir (sshFxpMkdirPacket.mk 1 "/d" 493))) =
      Some (tag :: body, None) /\
    [x00; x00; x00; x01; x00; x00; x00; x02; x2f; x64;
     x00; x00; x01; xed; xde; xad] = body ++ rest.
Proof.
  destruct (decoded_packets_marshal_back no_FileInfo marshal_no_FileInfo
              (UMkdir (sshFxpMkdirPacket.mk 0 EmptyString 0))
              (UMkdir (sshFxpMkdirPacket.mk 1 "/d" 493))
              [x00; x00; x00; x01; x00; x00; x00; x02; x2f; x64;
               x00; x00; x01; xed; xde; xad] eq_refl)
    as (_ & _ & tag & body & rest & Hm & Hb & _).
  now exists tag, body, rest.
Defined.

(** * WRITE and DATA with a [Length] that is not the length of [Data] *)

Lemma slice_to_prefix (d rest : list byte) (n : Z) :
  0 <= n <= len d -> slice_to (d ++ rest) n = Some (firstn (Z.to_nat n) d).
Proof.
  intros Hn. rewrite slice_to_extra by exact Hn. now apply slice_to_firstn.
Qed.

(** X11: the round trip of a WRITE packet whose [Length] and [Data] are
    independent. [MarshalBinary] writes [Length] as given and all of [Data].
    For data of fewer than 2^32 bytes the decoder, fed the body, returns the
    other fields as they were and, when [Length] is at most the length of
    [Data], the first [Length] bytes of [Data] (any further bytes are
    dropped without an error); when [Length] is greater it leaves [Data]
    nil and returns [shortPacketError]. *)
Theorem write_roundtrip_by_length (p : sshFxpWritePacket.t)
  (Hid : is_uint32 (sshFxpWritePacket.Id p))
  (Hh : short_string (sshFxpWritePacket.Handle p))
  (Hoff : is_uint64 (sshFxpWritePacket.Offset p))
  (Hlen : is_uint32 (sshFxpWritePacket.Length p))
  (Hdata : len (sshFxpWritePacket.Data p) < 2 ^ 32) :
  exists body,
    sshFxpWritePacket.MarshalBinary p = Some (ssh_FXP_WRITE :: body, None) /\
    sshFxpWritePacket.UnmarshalBinary
      (sshFxpWritePacket.mk 0 EmptyString 0 0 []) body =
      if sshFxpWritePacket.Length p <=? len (sshFxpWritePacket.Data p) then
        Some (sshFxpWritePacket.mk
                (sshFxpWritePacket.Id p) (sshFxpWritePacket.Handle p)
                (sshFxpWritePacket.Offset p) (sshFxpWritePacket.Length p)
                (firstn (Z.to_nat (sshFxpWritePacket.Length p))
                   (sshFxpWritePacket.Data p)), None)
      else
        Some (sshFxpWritePacket.mk
                (sshFxpWritePacket.Id p) (sshFxpWritePacket.Handle p)
                (sshFxpWritePacket.Offset p) (sshFxpWritePacket.Length p)
                [], Some shortPacketError).
Proof.
  destruct p as [id h off l d]. fields.
  eexists. split.
  - unfold sshFxpWritePacket.MarshalBinary, make_cap. cbv zeta. cbn [app].
    fields. split_encoders. reflexivity.
  - unfold sshFxpWritePacket.UnmarshalBinary. decode_fields.
    rewrite (uint32_small (len d)) by (split; [apply len_nonneg|exact Hdata]).
    destruct (l <=? len d) eqn:El.
    + apply Z.leb_le in El.
      replace (len d <? l) with false by (symmetry; apply Z.ltb_ge; lia).
      rewrite slice_to_firstn by (unfold is_uint32 in Hlen; lia).
      reflexivity.
    + apply Z.leb_gt in El.
      replace (len d <? l) with true by (symmetry; apply Z.ltb_lt; lia).
      reflexivity.
Qed.

Lemma write_roundtrip_by_length_witness :
  exists body,
    sshFxpWritePacket.MarshalBinary
      (sshFxpWritePacket.mk 1 "h" 0 2 [x61; x62; x63]) =
      Some (ssh_FXP_WRITE :: body, None) /\
    sshFxpWritePacket.UnmarshalBinary
      (sshFxpWritePacket.mk 0 EmptyString 0 0 []) body =
      Some (sshFxpWritePacket.mk 1 "h" 0 2 [x61; x62], None).
Proof.
  apply (write_roundtrip_by_length
           (sshFxpWritePacket.mk 1 "h" 0 2 [x61; x62; x63]));
    cbn; unfold is_uint32, is_uint64, short_string, strlen, len; cbn; lia.
Defined.

(** X12: the round trip of a DATA packet whose [Length] and [Data] are
    independent, [spare] being the bytes of the backing array of [Data]
    beyond its length. [MarshalBinary] panics, on the slice
    [p.Data[:p.Length]], exactly when [Length] exceeds the capacity of
    [Data]. Otherwise it writes nine bytes of tag, [Id] and [Length] and
    then the first [Length] bytes of the backing array: of [Data] only when
    [Length] is within its length, and all of [Data] followed by bytes
    beyond its length when it is not. The decoder, fed the body, gives the
    packet back with those bytes as [Data]. *)
Theorem data_roundtrip_by_length (p : sshFxpDataPacket.t) (spare : list byte)
  (Hid : is_uint32 (sshFxpDataPacket.Id p))
  (Hlen : is_uint32 (sshFxpDataPacket.Length p)) :
  if sshFxpDataPacket.Length p <=? len (sshFxpDataPacket.Data p ++ spare) then
    exists body,
      sshFxpDataPacket.MarshalBinary_cap spare p =
        Some (ssh_FXP_DATA :: body, None) /\
      len (ssh_FXP_DATA :: body) = 9 + sshFxpDataPacket.Length p /\
      sshFxpDataPacket.UnmarshalBinary (sshFxpDataPacket.mk 0 0 []) body =
        Some (sshFxpDataPacket.mk
                (sshFxpDataPacket.Id p) (sshFxpDataPacket.Length p)
                (firstn (Z.to_nat (sshFxpDataPacket.Length p))
                   (sshFxpDataPacket.Data p ++ spare)), None)
  else sshFxpDataPacket.MarshalBinary_cap spare p = None.
Proof.
  destruct p as [id l data]. fields.
  remember (data ++ spare) as d eqn:Ed.
  destruct (l <=? len d) eqn:El.
  - apply Z.leb_le in El.
    assert (Hl : 0 <= l <= len d) by (unfold is_uint32 in Hlen; lia).
    eexists. split; [|split].
    + unfold sshFxpDataPacket.MarshalBinary_cap. cbv zeta. fields.
      rewrite <- Ed, (slice_to_firstn d l Hl). split_encoders. reflexivity.
    + rewrite len_cons, !len_app, !len_marshalUint32, len_nil.
      rewrite (len_firstn d l Hl). lia.
    + unfold sshFxpDataPacket.UnmarshalBinary. decode_fields.
      rewrite (len_firstn d l Hl), (uint32_small l Hlen), Z.ltb_irrefl.
      rewrite copy_make_firstn by (rewrite (len_firstn d l Hl); lia).
      rewrite firstn_firstn, Nat.min_id. reflexivity.
  - apply Z.leb_gt in El.
    unfold sshFxpDataPacket.MarshalBinary_cap. cbv zeta. fields.
    rewrite <- Ed. now rewrite slice_to_short.
Qed.

Lemma data_roundtrip_by_length_witness :
  exists body,
    sshFxpDataPacket.MarshalBinary_cap [x62; x63; x64]
      (sshFxpDataPacket.mk 1 3 [x61]) =
      Some (ssh_FXP_DATA :: body, None) /\
    len (ssh_FXP_DATA :: body) = 12 /\
    sshFxpDataPacket.UnmarshalBinary (sshFxpDataPacket.mk 0 0 []) body =
      Some (sshFxpDataPacket.mk 1 3 [x61; x62; x63], None).
Proof.
  apply (data_roundtrip_by_length (sshFxpDataPacket.mk 1 3 [x61])
           [x62; x63; x64]);
    cbn; unfold is_uint32; lia.
Defined.

(** * The encoders, on every packet *)

Section Encoders.

Variable FileInfo : Type.
Variable marshalFileInfo : list byte -> FileInfo -> list byte.

Lemma marshal_each_panics_iff (vs : list (value FileInfo)) (b : list byte) :
  marshal_each marshalFileInfo vs b = None <-> supported_all vs = false.
Proof. apply (marshal_panics_iff_unsupported _ marshalFileInfo (VSlice vs) b). Qed.

Lemma marshalAttrs_each (attrs : list (value FileInfo)) (b : list byte) :
  sshFxpNameAttr.marshalAttrs FileInfo marshalFileInfo b attrs =
    marshal_each marshalFileInfo attrs b.
Proof.
  revert b. induction attrs as [|a attrs IH]; intros b; [reflexivity|].
  cbn [sshFxpNameAttr.marshalAttrs marshal_each].
  destruct (marshal marshalFileInfo b a); [apply IH|reflexivity].
Qed.

Lemma NameAttr_MarshalBinary_outcome (na : sshFxpNameAttr.t FileInfo) :
  if supported_all (sshFxpNameAttr.Attrs FileInfo na) then
    exists ab,
      sshFxpNameAttr.MarshalBinary FileInfo marshalFileInfo na = Some (ab, None)
  else sshFxpNameAttr.MarshalBinary FileInfo marshalFileInfo na = None.
Proof.
  unfold sshFxpNameAttr.MarshalBinary. cbv zeta. rewrite marshalAttrs_each.
  match goal with
  | |- context [marshal_each _ ?vs ?b] =>
      pose proof (marshal_each_panics_iff vs b) as [H1 H2];
      destruct (supported_all vs); [|now rewrite (H2 eq_refl)];
      destruct (marshal_each marshalFileInfo vs b) as [ab|]; [eauto|];
      specialize (H1 eq_refl); discriminate
  end.
Qed.

Lemma marshalNameAttrs_outcome (nas : list (sshFxpNameAttr.t FileInfo)) :
  forall b,
    if forallb (fun na => supported_all (sshFxpNameAttr.Attrs FileInfo na)) nas
    then
      exists suffix,
        sshFxpNamePacket.marshalNameAttrs FileInfo marshalFileInfo b nas =
          Some (b ++ suffix, None)
    else
      sshFxpNamePacket.marshalNameAttrs FileInfo marshalFileInfo b nas = None.
Proof.
  induction nas as [|na nas IH]; intros b;
    cbn [forallb sshFxpNamePacket.marshalNameAttrs].
  - exists []. now rewrite app_nil_r.
  - pose proof (NameAttr_MarshalBinary_outcome na) as Hna.
    destruct (supported_all (sshFxpNameAttr.Attrs FileInfo na)).
    + destruct Hna as [ab ->]. cbn [andb]. specialize (IH (b ++ ab)).
      destruct (forallb _ nas).
      * destruct IH as [suffix ->]. exists (ab ++ suffix).
        now rewrite app_assoc.
      * exact IH.
    + now rewrite Hna.
Qed.

Lemma marshal_outcome (b : list byte) (v : value FileInfo) :
  if supported v then exists b', marshal marshalFileInfo b v = Some b'
  else marshal marshalFileInfo b v = None.
Proof.
  pose proof (marshal_panics_iff_unsupported _ marshalFileInfo v b) as [H1 H2].
  destruct (supported v); [|now apply H2].
  destruct (marshal marshalFileInfo b v); [eauto|].
  specialize (H1 eq_refl). discriminate.
Qed.

Ltac tagged :=
  cbn [MarshalBinary];
  unfold sshFxInitPacket.MarshalBinary, sshFxVersionPacket.MarshalBinary,
    sshFxpReaddirPacket.MarshalBinary, sshFxpOpendirPacket.MarshalBinary,
    sshFxpLstatPacket.MarshalBinary, sshFxpStatPacket.MarshalBinary,
    sshFxpFstatPacket.MarshalBinary, sshFxpClosePacket.MarshalBinary,
    sshFxpRemovePacket.MarshalBinary, sshFxpRmdirPacket.MarshalBinary,
    sshFxpSymlinkPacket.MarshalBinary, sshFxpReadlinkPacket.MarshalBinary,
    sshFxpRealpathPacket.MarshalBinary, sshFxpOpenPacket.MarshalBinary,
    sshFxpReadPacket.MarshalBinary, sshFxpRenamePacket.MarshalBinary,
    sshFxpWritePacket.MarshalBinary, sshFxpMkdirPacket.MarshalBinary,
    sshFxpHandlePacket.MarshalBinary, sshFxpStatvfsPacket.MarshalBinary,
    marshalIdString, make_cap;
  cbv zeta; cbn [app]; fields;
  split_encoders;
  try match goal with
    | |- context [marshalExtensions (?a ++ ?b) ?es] =>
        rewrite (marshalExtensions_app (a ++ b) es)
    | |- context [marshalExtensions (?x :: ?b) ?es] =>
        rewrite (marshalExtensions_app (x :: b) es)
    end;
  rewrite <- ?app_assoc; cbn [app]; eexists; reflexivity.

Lemma MarshalBinary_outcome
  (Hfi : forall b fi, marshalFileInfo b fi = b ++ marshalFileInfo [] fi)
  (spare : list byte) (m : marshaler FileInfo) :
  if marshal_panics spare m then
    MarshalBinary_cap marshalFileInfo spare m = None
  else
    exists rest,
      MarshalBinary_cap marshalFileInfo spare m =
        Some (first_byte m :: rest, None).
Proof.
  destruct m as [u|p|p|p|p];
    [destruct u as [p|p|p|p|p|p|p|p|p|p|p|p|p|p|p|p|p|p|p|p]| | | |];
    destruct p; cbn [marshal_panics MarshalBinary_cap first_byte];
    try tagged; cbn [MarshalBinary]; fields.
  - (* SETSTAT *)
    unfold sshFxpSetstatPacket.MarshalBinary, make_cap. cbv zeta. cbn [app].
    fields.
    match goal with
    | |- context [marshal _ ?b ?v] =>
        rewrite (marshal_appends _ marshalFileInfo v Hfi b);
        pose proof (marshal_outcome [] v) as Hv; destruct (supported v);
        [destruct Hv as [b' Hv]|]; rewrite Hv; cbn [negb option_map];
        [|reflexivity]
    end.
    split_encoders. eexists. reflexivity.
  - (* FSETSTAT *)
    unfold sshFxpFsetstatPacket.MarshalBinary, make_cap. cbv zeta. cbn [app].
    fields.
    match goal with
    | |- context [marshal _ ?b ?v] =>
        rewrite (marshal_appends _ marshalFileInfo v Hfi b);
        pose proof (marshal_outcome [] v) as Hv; destruct (supported v);
        [destruct Hv as [b' Hv]|]; rewrite Hv; cbn [negb option_map];
        [|reflexivity]
    end.
    split_encoders. eexists. reflexivity.
  - (* DATA *)
    unfold sshFxpDataPacket.MarshalBinary_cap, slice_to. cbv zeta. fields.
    match goal with
    | |- if negb ?c then _ else _ => destruct c
    end; cbn [negb]; [|reflexivity].
    split_encoders. eexists. reflexivity.
  - (* NAME *)
    unfold sshFxpNamePacket.MarshalBinary. cbv zeta.
    cbn [sshFxpNamePacket.Id sshFxpNamePacket.NameAttrs app].
    match goal with
    | |- context [sshFxpNamePacket.marshalNameAttrs _ _ ?b ?nas] =>
        pose proof (marshalNameAttrs_outcome nas b) as Hn;
        destruct (forallb _ nas); [destruct Hn as [suffix Hn]|];
        rewrite Hn; cbn [negb]; [|reflexivity]
    end.
    split_encoders. eexists. reflexivity.
Qed.

(** X13: [MarshalBinary] on every packet of the catalogue, with a
    [marshalFileInfo] that only appends to its buffer; for a DATA packet
    [spare] are the bytes of the backing array of its [Data] beyond its
    length. It never returns an error: it panics, or it returns a payload
    with a nil error, and the payload starts with the packet type its
    method writes ([first_byte]: for STAT and REALPATH the types of LSTAT
    and READLINK). It panics exactly on a DATA packet whose [Length] exceeds
    the capacity of its [Data] and on a SETSTAT, FSETSTAT or NAME packet
    that holds a value [marshal] cannot encode, a struct with a field that
    is not exported included. *)
Theorem marshallers_return_no_error
  (Hfi : forall b fi, marshalFileInfo b fi = b ++ marshalFileInfo [] fi)
  (spare : list byte) (m : marshaler FileInfo) :
  if marshal_panics spare m then
    MarshalBinary_cap marshalFileInfo spare m = None
  else
    exists rest,
      MarshalBinary_cap marshalFileInfo spare m =
        Some (first_byte m :: rest, None).
Proof. exact (MarshalBinary_outcome Hfi spare m). Qed.

End Encoders.

Lemma marshallers_return_no_error_witness :
  (exists rest,
      MarshalBinary_cap (fun b fi => b ++ fi) [x62; x63; x64]
        (MU (UData (sshFxpDataPacket.mk 1 3 [x61]))) =
        Some (ssh_FXP_DATA :: rest, None)) /\
  MarshalBinary_cap (fun b fi => b ++ fi) []
    (MU (USetstat
           (sshFxpSetstatPacket.mk (list byte) 1 "/" 4
              (VStruct [VUint32 1; VUnexported])))) = None /\
  exists rest,
    MarshalBinary_cap (fun b fi => b ++ fi) []
      (MU (UStat (sshFxpStatPacket.mk 1 "/"))) =
      Some (ssh_FXP_LSTAT :: rest, None).
Proof.
  split; [|split].
  - apply (marshallers_return_no_error (list byte) (fun b fi => b ++ fi)
             (fun b fi => eq_refl) [x62; x63; x64]
             (MU (UData (sshFxpDataPacket.mk 1 3 [x61])))).
  - apply (marshallers_return_no_error (list byte) (fun b fi => b ++ fi)
             (fun b fi => eq_refl) []
             (MU (USetstat
                    (sshFxpSetstatPacket.mk (list byte) 1 "/" 4
                       (VStruct [VUint32 1; VUnexported]))))).
  - apply (marshallers_return_no_error (list byte) (fun b fi => b ++ fi)
             (fun b fi => eq_refl) []
             (MU (UStat (sshFxpStatPacket.mk 1 "/")))).
Defined.

(** * Responses and requests without a decoder of their own *)

(** X14: a HANDLE response has the layout of the requests that
    [marshalIdString] builds: [sshFxpHandlePacket.MarshalBinary] returns the
    bytes of [marshalIdString(ssh_FXP_HANDLE, p.Id, p.Handle)], and
    [unmarshalIdString] reads the id and the handle back from its body. *)
Theorem handle_response_has_request_layout
  (p : sshFxpHandlePacket.t) (id0 : Z) (str0 : string)
  (Hid : is_uint32 (sshFxpHandlePacket.Id p))
  (Hh : short_string (sshFxpHandlePacket.Handle p)) :
  sshFxpHandlePacket.MarshalBinary p =
    marshalIdString ssh_FXP_HANDLE
      (sshFxpHandlePacket.Id p) (sshFxpHandlePacket.Handle p) /\
  exists body,
    sshFxpHandlePacket.MarshalBinary p = Some (ssh_FXP_HANDLE :: body, None) /\
    unmarshalIdString body id0 str0 =
      Some (sshFxpHandlePacket.Id p, sshFxpHandlePacket.Handle p, None).
Proof.
  rewrite marshalIdString_body. unfold sshFxpHandlePacket.MarshalBinary.
  cbv zeta. split_encoders. split; [reflexivity|].
  eexists. split; [reflexivity|]. now apply unmarshalIdString_body.
Qed.

Lemma handle_response_has_request_layout_witness :
  sshFxpHandlePacket.MarshalBinary (sshFxpHandlePacket.mk 7 "h1") =
    marshalIdString ssh_FXP_HANDLE 7 "h1" /\
  exists body,
    sshFxpHandlePacket.MarshalBinary (sshFxpHandlePacket.mk 7 "h1") =
      Some (ssh_FXP_HANDLE :: body, None) /\
    unmarshalIdString body 0 "" = Some (7, "h1"%string, None).
Proof.
  apply (handle_response_has_request_layout (sshFxpHandlePacket.mk 7 "h1")
           0 "").
  - unfold is_uint32. cbn. lia.
  - reflexivity.
Defined.

(** X15: the statvfs request is an EXTENDED packet whose body reads back,
    with the checked decoders, as the id, the extension name
    ["statvfs@openssh.com"] and the path, with no byte left. *)
Theorem statvfs_request_reads_back
  (p : sshFxpStatvfsPacket.t)
  (Hid : is_uint32 (sshFxpStatvfsPacket.Id p))
  (Hp : short_string (sshFxpStatvfsPacket.Path p)) :
  exists body r1 r2,
    sshFxpStatvfsPacket.MarshalBinary p =
      Some (ssh_FXP_EXTENDED :: body, None) /\
    unmarshalUint32Safe body = Some (sshFxpStatvfsPacket.Id p, r1, None) /\
    unmarshalStringSafe r1 = Some ("statvfs@openssh.com"%string, r2, None) /\
    unmarshalStringSafe r2 = Some (sshFxpStatvfsPacket.Path p, [], None).
Proof.
  unfold sshFxpStatvfsPacket.MarshalBinary, make_cap. cbv zeta. cbn [app].
  split_encoders. eexists _, _, _. split; [reflexivity|].
  split; [now apply decode_uint32|].
  split; [now apply decode_string|now apply decode_string_end].
Qed.

Lemma statvfs_request_reads_back_witness :
  exists body r1 r2,
    sshFxpStatvfsPacket.MarshalBinary (sshFxpStatvfsPacket.mk 3 "/") =
      Some (ssh_FXP_EXTENDED :: body, None) /\
    unmarshalUint32Safe body = Some (3, r1, None) /\
    unmarshalStringSafe r1 = Some ("statvfs@openssh.com"%string, r2, None) /\
    unmarshalStringSafe r2 = Some ("/"%string, [], None).
Proof.
  apply (statvfs_request_reads_back (sshFxpStatvfsPacket.mk 3 "/")).
  - unfold is_uint32. cbn. lia.
  - reflexivity.
Defined.

(** X16: a VERSION packet and an INIT packet with the same fields differ in
    the tag byte only, and the decoder of INIT reads a VERSION body back:
    into a packet without extensions it gives the version and the
    extensions that were marshalled. *)
Theorem version_body_is_an_init_body
  (version v0 : Z) (es : list ExtensionPair)
  (Hv : is_uint32 version)
  (Hes : Forall (fun e => short_string (Name e) /\ short_string (Data e)) es) :
  exists body,
    sshFxVersionPacket.MarshalBinary (sshFxVersionPacket.mk version es) =
      Some (ssh_FXP_VERSION :: body, None) /\
    sshFxInitPacket.MarshalBinary (sshFxInitPacket.mk version es) =
      Some (ssh_FXP_INIT :: body, None) /\
    sshFxInitPacket.UnmarshalBinary (sshFxInitPacket.mk v0 []) body =
      Some (sshFxInitPacket.mk version es, None).
Proof.
  exists (marshalUint32 [] version ++ marshalExtensions [] es).
  split; [|split].
  - unfold sshFxVersionPacket.MarshalBinary, make_cap. cbv zeta. cbn [app].
    cbn [sshFxVersionPacket.Version sshFxVersionPacket.Extensions].
    rewrite marshalExtensions_app. split_encoders. reflexivity.
  - unfold sshFxInitPacket.MarshalBinary, make_cap. cbv zeta. cbn [app].
    fields. rewrite marshalExtensions_app. split_encoders. reflexivity.
  - unfold sshFxInitPacket.UnmarshalBinary. rewrite decode_uint32 by assumption.
    cbv beta iota zeta. fields.
    rewrite (Init_loop_marshalExtensions es Hes) by apply length_marshalExtensions.
    reflexivity.
Qed.

Lemma version_body_is_an_init_body_witness :
  exists body,
    sshFxVersionPacket.MarshalBinary
      (sshFxVersionPacket.mk 3 [mkExtensionPair "posix-rename@openssh.com" "1"]) =
      Some (ssh_FXP_VERSION :: body, None) /\
    sshFxInitPacket.MarshalBinary
      (sshFxInitPacket.mk 3 [mkExtensionPair "posix-rename@openssh.com" "1"]) =
      Some (ssh_FXP_INIT :: body, None) /\
    sshFxInitPacket.UnmarshalBinary (sshFxInitPacket.mk 0 []) body =
      Some (sshFxInitPacket.mk 3
              [mkExtensionPair "posix-rename@openssh.com" "1"], None).
Proof.
  apply (version_body_is_an_init_body 3 0
           [mkExtensionPair "posix-rename@openssh.com" "1"]).
  - unfold is_uint32. lia.
  - repeat constructor.
Defined.

(** X17: on a file system whose size in bytes fits 64 bits, [TotalSpace] is
    the exact product of the fragment size and the number of blocks, and
    [FreeSpace] is the exact product for the free blocks; with no more free
    blocks than blocks, the free space does not exceed the total space. *)
Theorem StatVFS_free_within_total
  (p : StatVFS.t)
  (Hwf : StatVFS.wf p)
  (Hfree : StatVFS.Bfree p <= StatVFS.Blocks p)
  (Hfit : StatVFS.Frsize p * StatVFS.Blocks p < 2 ^ 64) :
  fst (StatVFS.TotalSpace p) = StatVFS.Frsize p * StatVFS.Blocks p /\
  fst (StatVFS.FreeSpace p) = StatVFS.Frsize p * StatVFS.Bfree p /\
  fst (StatVFS.FreeSpace p) <= fst (StatVFS.TotalSpace p).
Proof.
  destruct Hwf as (_ & _ & [Hf0 _] & [Hb0 _] & [Hbf0 _] & _).
  unfold StatVFS.TotalSpace, StatVFS.FreeSpace, uint64. cbn [fst].
  assert (Hle : StatVFS.Frsize p * StatVFS.Bfree p <=
                StatVFS.Frsize p * StatVFS.Blocks p)
    by (apply Z.mul_le_mono_nonneg_l; assumption).
  assert (H0 : 0 <= StatVFS.Frsize p * StatVFS.Bfree p)
    by (apply Z.mul_nonneg_nonneg; assumption).
  rewrite !Z.mod_small by lia. lia.
Qed.

Lemma StatVFS_free_within_total_witness :
  fst (StatVFS.TotalSpace (StatVFS.mk 1 4096 4096 1000 250 200 0 0 0 0 0 255)) =
    4096 * 1000 /\
  fst (StatVFS.FreeSpace (StatVFS.mk 1 4096 4096 1000 250 200 0 0 0 0 0 255)) =
    4096 * 250 /\
  fst (StatVFS.FreeSpace (StatVFS.mk 1 4096 4096 1000 250 200 0 0 0 0 0 255)) <=
    fst (StatVFS.TotalSpace (StatVFS.mk 1 4096 4096 1000 250 200 0 0 0 0 0 255)).
Proof.
  apply (StatVFS_free_within_total
           (StatVFS.mk 1 4096 4096 1000 250 200 0 0 0 0 0 255)).
  - unfold StatVFS.wf, is_uint32, is_uint64. cbn. lia.
  - cbn. lia.
  - cbn. lia.
Defined.

(** ** NAME *)

Section Name.

Variable FileInfo : Type.
Variable marshalFileInfo : list byte -> FileInfo -> list byte.

Lemma marshalNameAttrs_concat (nas : list (sshFxpNameAttr.t FileInfo))
  (abs : list (list byte)) :
  Forall2 (fun na ab =>
             sshFxpNameAttr.MarshalBinary FileInfo marshalFileInfo na =
               Some (ab, None)) nas abs ->
  forall b,
    sshFxpNamePacket.marshalNameAttrs FileInfo marshalFileInfo b nas =
      Some (b ++ List.concat abs, None).
Proof.
  induction 1 as [|na ab nas abs Hna _ IH]; intros b;
    cbn [sshFxpNamePacket.marshalNameAttrs List.concat].
  - now rewrite app_nil_r.
  - rewrite Hna. cbv beta iota. rewrite IH. now rewrite <- app_assoc.
Qed.

(** X18: a NAME response is its tag, the id, the number of entries as a
    uint32 and then the bytes that [sshFxpNameAttr.MarshalBinary] returns
    for each entry, in the order of the entries and with nothing between
    them; the count is the number of entries when there are fewer than
    2^32. *)
Theorem name_response_lists_its_entries
  (id : Z) (nas : list (sshFxpNameAttr.t FileInfo)) (abs : list (list byte))
  (Hnas : Forall2 (fun na ab =>
                     sshFxpNameAttr.MarshalBinary FileInfo marshalFileInfo na =
                       Some (ab, None)) nas abs) :
  sshFxpNamePacket.MarshalBinary FileInfo marshalFileInfo
    (sshFxpNamePacket.mk FileInfo id nas) =
    Some (ssh_FXP_NAME :: marshalUint32 [] id ++
            marshalUint32 [] (uint32 (len nas)) ++ List.concat abs, None) /\
  (len nas < 2 ^ 32 ->
   unmarshalUint32 (marshalUint32 [] (uint32 (len nas)) ++ List.concat abs) =
     Some (len abs, List.concat abs)).
Proof.
  split.
  - unfold sshFxpNamePacket.MarshalBinary. cbv zeta.
    cbn [sshFxpNamePacket.Id sshFxpNamePacket.NameAttrs app].
    rewrite (marshalNameAttrs_concat nas abs Hnas). split_encoders.
    now rewrite <- ?app_assoc.
  - intros Hlen. rewrite unmarshalUint32_marshalUint32.
    pose proof (len_nonneg nas).
    rewrite !uint32_small by (unfold is_uint32; rewrite ?uint32_small;
                              unfold is_uint32; lia).
    unfold len. now rewrite (Forall2_length Hnas).
Qed.

End Name.

Lemma name_response_lists_its_entries_witness :
  sshFxpNamePacket.MarshalBinary no_FileInfo marshal_no_FileInfo
    (sshFxpNamePacket.mk no_FileInfo 9
       [sshFxpNameAttr.mk no_FileInfo "a" "-rw a" [VUint32 0]]) =
    Some (ssh_FXP_NAME :: marshalUint32 [] 9 ++
            marshalUint32 [] (uint32 1) ++
            List.concat
              [marshalUint32
                 (marshalString (marshalString [] "a") "-rw a") 0], None).
Proof.
  apply (name_response_lists_its_entries no_FileInfo marshal_no_FileInfo 9
           [sshFxpNameAttr.mk no_FileInfo "a" "-rw a" [VUint32 0]]
           [marshalUint32 (marshalString (marshalString [] "a") "-rw a") 0]).
  repeat constructor.
Defined.

(** ** Sending the file's own packets *)

Section SendCatalogue.

Variable FileInfo : Type.
Variable marshalFileInfo : list byte -> FileInfo -> list byte.

(** X19: [sendPacket] on a packet of the catalogue, with the in-memory
    writer and a [marshalFileInfo] that only appends; for a DATA packet
    [spare] are the bytes of the backing array of its [Data] beyond its
    length. It never returns the error of a failed marshaller. It panics
    when the packet's [MarshalBinary] panics (a DATA packet whose [Length]
    exceeds the capacity of its [Data]; a SETSTAT, FSETSTAT or NAME packet
    with a value [marshal] cannot encode), and otherwise returns nil with
    the output extended by one frame, the header and the payload, of at
    least five bytes, the first byte of the payload being the packet type
    the method writes. *)
Theorem sendPacket_of_a_catalogue_packet
  (Hfi : forall b fi, marshalFileInfo b fi = b ++ marshalFileInfo [] fi)
  (spare w : list byte) (m : marshaler FileInfo) :
  if marshal_panics spare m then
    @sendPacket (list byte) buffer_Writer (marshaler FileInfo)
      (MarshalBinary_cap marshalFileInfo spare) w m = None
  else
    exists rest,
      MarshalBinary_cap marshalFileInfo spare m =
        Some (first_byte m :: rest, None) /\
      @sendPacket (list byte) buffer_Writer (marshaler FileInfo)
        (MarshalBinary_cap marshalFileInfo spare) w m =
        Some (w ++ sendPacket_hdr (first_byte m :: rest) ++
                first_byte m :: rest, None) /\
      5 <= len (sendPacket_hdr (first_byte m :: rest) ++ first_byte m :: rest).
Proof.
  pose proof (MarshalBinary_outcome FileInfo marshalFileInfo Hfi spare m) as Hm.
  unfold sendPacket, encoding.MarshalBinary.
  destruct (marshal_panics spare m).
  - now rewrite Hm.
  - destruct Hm as (rest & Hm). exists rest.
    split; [exact Hm|]. rewrite Hm. cbv beta iota zeta.
    split.
    + unfold sendPacket_debug, debugDumpTxPacketBytes, debugDumpTxPacket.
      cbv beta iota. unfold io.Write, buffer_Writer. cbv beta iota zeta.
      now rewrite <- app_assoc.
    + rewrite len_app. unfold sendPacket_hdr. cbv zeta. rewrite !len_cons.
      rewrite len_nil. pose proof (len_nonneg rest). lia.
Qed.

End SendCatalogue.

Lemma sendPacket_of_a_catalogue_packet_witness :
  exists rest,
    MarshalBinary_cap marshal_no_FileInfo [x62; x63; x64]
      (MU (UData (sshFxpDataPacket.mk 1 3 [x61]))) =
      Some (ssh_FXP_DATA :: rest, None) /\
    @sendPacket (list byte) buffer_Writer (marshaler no_FileInfo)
      (MarshalBinary_cap marshal_no_FileInfo [x62; x63; x64]) [xff]
      (MU (UData (sshFxpDataPacket.mk 1 3 [x61]))) =
      Some ([xff] ++ sendPacket_hdr (ssh_FXP_DATA :: rest) ++
              ssh_FXP_DATA :: rest, None) /\
    5 <= len (sendPacket_hdr (ssh_FXP_DATA :: rest) ++ ssh_FXP_DATA :: rest).
Proof.
  apply (sendPacket_of_a_catalogue_packet no_FileInfo marshal_no_FileInfo
           (fun b fi => match fi return _ with end) [x62; x63; x64] [xff]
           (MU (UData (sshFxpDataPacket.mk 1 3 [x61])))).
Defined.

(** * The shared sender, with any responses and any writer *)

Module ServerRunFacts.
Import Server ServerRuns ServerFacts.

Section AnyWriter.

Context {W : Type} `{io.Writer W}.
Context {M : Type} `{encoding.BinaryMarshaler M}.

(** X20: goroutines inside [svr.sendPacket], with any responses and any
    writer, interleaved in any way. The mutex is held exactly while one
    call is between [Lock] and [Unlock], so at most one call is there; and
    once every call has returned the mutex is free, also when
    [MarshalBinary] returned an error or panicked or a [Write] failed: the
    unlock is deferred. *)
Theorem deferred_unlock_frees_the_mutex
  (w : W) (ms : list M) (svr : @t W) (cs : list (@pc M))
  (Hrun : steps (initial w ms) (svr, cs)) :
  (List.length (filter in_critical_section cs) <= 1)%nat /\
  (outMutex svr = true <-> exists c, In c cs /\ in_critical_section c = true) /\
  (forallb returned cs = true -> outMutex svr = false).
Proof.
  pose proof (mutex_steps w ms _ Hrun) as Hmutex. cbn [fst snd] in Hmutex.
  split; [destruct (outMutex svr); lia|]. split; [split|].
  - intros Hlocked. rewrite Hlocked in Hmutex.
    destruct (critical_thread cs Hmutex) as (before & c & after & -> & Hc).
    exists c. split; [apply in_elt|exact Hc].
  - intros (c & Hin & Hc).
    assert (Hf : In c (filter in_critical_section cs))
      by (apply filter_In; now split).
    destruct (outMutex svr); [reflexivity|].
    destruct (filter in_critical_section cs); [destruct Hf|discriminate].
  - intros Hret. apply returned_not_critical in Hret.
    rewrite Hret in Hmutex. now destruct (outMutex svr).
Qed.

(** X21: the senders neither deadlock nor run forever, whatever the
    responses and the writer. A run of [n] steps from the start has
    [n <= 5 * N] for [N] calls, and in every state it reaches where a call
    has not returned, some call can take a step. *)
Theorem senders_never_deadlock
  (w : W) (ms : list M) (n : nat) (st : @state W M)
  (Hrun : steps_n n (initial w ms) st) :
  (n <= 5 * List.length ms)%nat /\
  (forallb returned (snd st) = false -> exists st', step st st').
Proof.
  split.
  - apply steps_n_remaining in Hrun. rewrite remaining_initial in Hrun. lia.
  - intros Hret. apply steps_n_steps in Hrun.
    pose proof (mutex_steps w ms _ Hrun) as Hmutex.
    destruct st as [svr cs]. cbn [fst snd] in *.
    destruct (outMutex svr) eqn:Emutex.
    + destruct (critical_thread cs Hmutex) as (before & c & after & -> & Hc).
      destruct (critical_thread_steps svr c Hc) as (svr' & c' & Hstep).
      exists (svr', before ++ c' :: after). now apply step_thread.
    + destruct (waiting_thread cs Hmutex Hret) as (before & m & after & ->).
      exists (mk (out svr) true, before ++ AtMarshal m :: after).
      apply step_thread. cbn [thread_step]. now rewrite Emutex.
Qed.

End AnyWriter.

Section OnBuffer.

Context {M : Type} `{encoding.BinaryMarshaler M}.

Lemma outcome_panic (m : M) :
  encoding.MarshalBinary m = None -> outcome m = None /\ written m = [].
Proof.
  intros Hm. unfold outcome, written, sendPacket. now rewrite Hm.
Qed.

Lemma outcome_error (m : M) (bb : list byte) (e : error) :
  encoding.MarshalBinary m = Some (bb, Some e) ->
  outcome m =
    Some (Some (Errorf "marshal2(%#v): binary marshaller failed")) /\
  written m = [].
Proof.
  intros Hm. unfold outcome, written, sendPacket. now rewrite Hm.
Qed.

Lemma outcome_sent (m : M) (bb : list byte) :
  encoding.MarshalBinary m = Some (bb, None) ->
  outcome m = Some None /\ written m = frame bb.
Proof.
  intros Hm. unfold outcome, written, sendPacket. now rewrite Hm.
Qed.

Lemma past_writes_app (ms1 ms2 : list M) (cs1 cs2 : list (@pc M)) :
  List.length ms1 = List.length cs1 ->
  past_writes (ms1 ++ ms2) (cs1 ++ cs2) =
    past_writes ms1 cs1 ++ past_writes ms2 cs2.
Proof.
  revert cs1. induction ms1 as [|m ms1 IH]; intros [|c cs1] Hlen;
    try discriminate Hlen; [reflexivity|].
  cbn [past_writes app]. rewrite IH by (cbn in Hlen; lia).
  now rewrite app_assoc.
Qed.

Lemma run_invariant_initial (w0 : list byte) (ms : list M) :
  run_invariant w0 ms (initial w0 ms).
Proof.
  unfold run_invariant, initial. cbn [fst snd out outMutex].
  split; [|split].
  - induction ms; cbn [map]; constructor; [reflexivity|assumption].
  - apply critical_initial.
  - exists []. split.
    + induction ms; cbn; [constructor|assumption].
    + cbn [map List.concat app].
      rewrite no_partial_frame by apply critical_initial.
      now rewrite app_nil_r.
Qed.

Lemma run_invariant_step (w0 : list byte) (ms : list M)
  (st st' : @state (list byte) M) :
  run_invariant w0 ms st -> step st st' -> run_invariant w0 ms st'.
Proof.
  intros (Hfollows & Hmutex & order & Hperm & Hout) Hstep.
  destruct Hstep as [svr svr' c c' before after Hc].
  cbn [fst snd] in *.
  apply Forall2_app_inv_r in Hfollows
    as (ms1 & ms' & Hbefore & Hfollows & ->).
  inversion Hfollows as [|m c0 ms2 after0 Hm Hafter]; subst; clear Hfollows.
  pose proof (Forall2_length Hbefore) as Hlen1.
  rewrite past_writes_app in Hperm by exact Hlen1.
  rewrite filter_app, length_app in Hmutex.
  rewrite map_app, concat_app in Hout.
  cbn [past_writes filter map List.concat] in Hperm, Hmutex, Hout.
  unfold run_invariant. cbn [fst snd].
  rewrite past_writes_app by exact Hlen1.
  rewrite filter_app, length_app, map_app, concat_app.
  cbn [past_writes filter map List.concat].
  destruct c as [m'|m'|bb|bb|r|r]; cbn [thread_step follows] in Hc, Hm.
  - (* Lock *)
    destruct (outMutex svr) eqn:Emutex; [discriminate|].
    injection Hc as <- <-. cbn [out outMutex].
    cbn [in_critical_section sent partial_frame List.length app] in *.
    split; [apply Forall2_app; [exact Hbefore|constructor; assumption]|].
    split; [lia|]. exists order. split; assumption.
  - (* MarshalBinary *)
    subst m'.
    assert (Hdone : forall r,
               r = outcome m -> written m = [] ->
               Forall2 follows (ms1 ++ m :: ms2)
                 (before ++ AtUnlock r :: after) /\
               exists order',
                 Permutation order'
                   (past_writes ms1 before ++ [m] ++ past_writes ms2 after) /\
                 out svr =
                   w0 ++ List.concat (map written order') ++
                   List.concat (map partial_frame before) ++
                   [] ++ List.concat (map partial_frame after)).
    { intros r Hr Hw.
      split; [apply Forall2_app; [exact Hbefore|constructor; assumption]|].
      exists (order ++ [m]). split.
      - rewrite Hperm. cbn [sent in_critical_section app].
        rewrite <- app_assoc. apply Permutation_app_head.
        symmetry. apply Permutation_cons_append.
      - rewrite Hout, map_app, concat_app. cbn [map List.concat].
        rewrite Hw. cbn [partial_frame app]. now rewrite !app_nil_r. }
    destruct (encoding.MarshalBinary m) as [[bb [e|]]|] eqn:Em.
    + injection Hc as <- <-.
      destruct (outcome_error m bb e Em) as [Hr Hw].
      destruct (Hdone _ (eq_sym Hr) Hw) as [H1 H2].
      cbn [in_critical_section sent partial_frame List.length] in *.
      split; [exact H1|]. split; [exact Hmutex|exact H2].
    + rewrite sendPacket_debug_ok in Hc. injection Hc as <- <-.
      cbn [in_critical_section sent partial_frame List.length app] in *.
      split; [apply Forall2_app;
              [exact Hbefore|constructor; [exact Em|assumption]]|].
      split; [exact Hmutex|]. exists order. split; assumption.
    + injection Hc as <- <-.
      destruct (outcome_panic m Em) as [Hr Hw].
      destruct (Hdone _ (eq_sym Hr) Hw) as [H1 H2].
      cbn [in_critical_section sent partial_frame List.length] in *.
      split; [exact H1|]. split; [exact Hmutex|exact H2].
  - (* Write of the header *)
    unfold io.Write, buffer_Writer in Hc.
    injection Hc as <- <-. cbn [out outMutex].
    cbn [in_critical_section sent partial_frame List.length app] in *.
    assert (H1 : List.length (filter in_critical_section before) = 0%nat)
      by (destruct (outMutex svr); lia).
    assert (H2 : List.length (filter in_critical_section after) = 0%nat)
      by (destruct (outMutex svr); lia).
    rewrite (no_partial_frame _ H1), (no_partial_frame _ H2) in *.
    split; [apply Forall2_app;
            [exact Hbefore|constructor; [exact Hm|assumption]]|].
    split; [exact Hmutex|]. exists order. split; [exact Hperm|].
    rewrite Hout. cbn [app]. now rewrite !app_nil_r, <- !app_assoc.
  - (* Write of the payload *)
    unfold io.Write, buffer_Writer in Hc.
    injection Hc as <- <-. cbn [out outMutex].
    cbn [in_critical_section sent partial_frame List.length app] in *.
    assert (H1 : List.length (filter in_critical_section before) = 0%nat)
      by (destruct (outMutex svr); lia).
    assert (H2 : List.length (filter in_critical_section after) = 0%nat)
      by (destruct (outMutex svr); lia).
    rewrite (no_partial_frame _ H1), (no_partial_frame _ H2) in *.
    destruct (outcome_sent m bb Hm) as [Hr Hw].
    split; [apply Forall2_app;
            [exact Hbefore|constructor; [exact (eq_sym Hr)|assumption]]|].
    split; [exact Hmutex|]. exists (order ++ [m]). split.
    + rewrite Hperm, <- app_assoc. apply Permutation_app_head.
      symmetry. apply Permutation_cons_append.
    + rewrite Hout, map_app, concat_app. cbn [map List.concat app].
      rewrite Hw. unfold frame.
      now rewrite !app_nil_r, <- !app_assoc.
  - (* Unlock *)
    injection Hc as <- <-. cbn [out outMutex].
    cbn [in_critical_section sent partial_frame List.length app] in *.
    split; [apply Forall2_app; [exact Hbefore|constructor; assumption]|].
    split; [destruct (outMutex svr); lia|]. exists order. split; assumption.
  - discriminate.
Qed.

Lemma run_invariant_steps (w0 : list byte) (ms : list M)
  (st : @state (list byte) M) :
  steps (initial w0 ms) st -> run_invariant w0 ms st.
Proof.
  intros Hrun. remember (initial w0 ms) as st0 eqn:E.
  induction Hrun as [st|st1 st2 st3 _ IH Hs].
  - subst st. apply run_invariant_initial.
  - eapply run_invariant_step; [apply IH; exact E|exact Hs].
Qed.

Lemma all_past_writes (ms : list M) (cs : list (@pc M)) :
  Forall2 follows ms cs -> forallb returned cs = true ->
  past_writes ms cs = ms /\
  List.concat (map partial_frame cs) = [] /\
  cs = map (fun m => Returned (outcome m)) ms.
Proof.
  induction 1 as [|m c ms cs Hc _ IH]; intros Hret; [now repeat split|].
  cbn [forallb] in Hret. apply andb_prop in Hret as [Hr Hret].
  destruct (IH Hret) as (IH1 & IH2 & IH3).
  destruct c; try discriminate Hr. cbn [follows] in Hc. subst.
  cbn [past_writes sent map List.concat partial_frame app].
  rewrite IH1. repeat split; assumption.
Qed.

Lemma one_step (st st' : @state (list byte) M) : step st st' -> steps st st'.
Proof. intros Hs. eapply steps_step; [apply steps_refl|exact Hs]. Qed.

(** One thread goes through its call while the others wait, whatever its
    response. *)
Lemma any_thread_runs_alone (w : list byte) (m : M)
  (before after : list (@pc M)) :
  steps (mk w false, before ++ AtLock m :: after)
        (mk (w ++ written m) false,
         before ++ Returned (outcome m) :: after).
Proof.
  eapply steps_trans;
    [apply one_step; eapply step_thread; reflexivity|].
  cbn [out outMutex].
  destruct (encoding.MarshalBinary m) as [[bb [e|]]|] eqn:Em.
  - destruct (outcome_error m bb e Em) as [-> ->]. rewrite app_nil_r.
    eapply steps_trans.
    { apply one_step. eapply step_thread. cbn [thread_step]. rewrite Em.
      reflexivity. }
    apply one_step. eapply step_thread. reflexivity.
  - destruct (outcome_sent m bb Em) as [-> ->].
    eapply steps_trans.
    { apply one_step. eapply step_thread. cbn [thread_step]. rewrite Em.
      reflexivity. }
    eapply steps_trans;
      [apply one_step; eapply step_thread; reflexivity|].
    eapply steps_trans;
      [apply one_step; eapply step_thread; reflexivity|].
    cbn [out outMutex]. unfold frame. rewrite app_assoc.
    apply one_step. eapply step_thread. reflexivity.
  - destruct (outcome_panic m Em) as [-> ->]. rewrite app_nil_r.
    eapply steps_trans.
    { apply one_step. eapply step_thread. cbn [thread_step]. rewrite Em.
      reflexivity. }
    apply one_step. eapply step_thread. reflexivity.
Qed.

(** The schedule that lets the threads run one after the other. *)
Lemma any_sequential_run (ms : list M) :
  forall (w : list byte) (before : list (@pc M)),
    steps (mk w false, before ++ map (@AtLock M) ms)
          (mk (w ++ List.concat (map written ms)) false,
           before ++ map (fun m => Returned (outcome m)) ms).
Proof.
  induction ms as [|m ms IH]; intros w before.
  - cbn [map List.concat]. rewrite !app_nil_r. apply steps_refl.
  - cbn [map List.concat].
    eapply steps_trans; [apply (any_thread_runs_alone w m)|].
    specialize (IH (w ++ written m) (before ++ [Returned (outcome m)])).
    rewrite <- !app_assoc in IH. exact IH.
Qed.

(** X22: goroutines that send any responses [ms] through
    [svr.sendPacket], interleaved in any way, on an in-memory output that
    held [w0]. Once all have returned, every call has returned what
    [sendPacket] returns for its response when it runs alone (a panic
    included), the mutex is free, and the output is [w0] followed by what
    each call writes when it runs alone, in some order of the calls: one
    whole frame for a response that marshals, and not a byte for a response
    whose [MarshalBinary] returns an error or panics. *)
Theorem failed_responses_leave_no_bytes
  (w0 : list byte) (ms : list M)
  (svr : @t (list byte)) (cs : list (@pc M))
  (Hrun : steps (initial w0 ms) (svr, cs))
  (Hret : forallb returned cs = true) :
  cs = map (fun m => Returned (outcome m)) ms /\
  outMutex svr = false /\
  (exists order,
     Permutation order ms /\
     out svr = w0 ++ List.concat (map written order)) /\
  (forall m,
     written m =
       match encoding.MarshalBinary m with
       | Some (bb, None) => frame bb
       | _ => []
       end).
Proof.
  pose proof (run_invariant_steps w0 ms _ Hrun)
    as (Hfollows & Hmutex & order & Hperm & Hout).
  cbn [fst snd] in *.
  destruct (all_past_writes ms cs Hfollows Hret) as (Hpast & Hpartial & Ecs).
  rewrite Hpast in Hperm. rewrite Hpartial, app_nil_r in Hout.
  split; [exact Ecs|]. split; [|split].
  - rewrite (returned_not_critical cs Hret) in Hmutex.
    now destruct (outMutex svr).
  - exists order. split; assumption.
  - intros m. destruct (encoding.MarshalBinary m) as [[bb [e|]]|] eqn:Em.
    + apply (outcome_error m bb e Em).
    + apply (outcome_sent m bb Em).
    + apply (outcome_panic m Em).
Qed.

End OnBuffer.
End ServerRunFacts.

Lemma deferred_unlock_frees_the_mutex_witness :
  (List.length
     (filter Server.in_critical_section
        [@Server.AtMarshal (marshaler no_FileInfo)
           (MU (UData (sshFxpDataPacket.mk 1 5 [x61])));
         Server.AtLock (MHandle (sshFxpHandlePacket.mk 2 "b"))]) <= 1)%nat /\
  (Server.outMutex (Server.mk ([] : list byte) true) = true <->
   exists c,
     In c [@Server.AtMarshal (marshaler no_FileInfo)
             (MU (UData (sshFxpDataPacket.mk 1 5 [x61])));
           Server.AtLock (MHandle (sshFxpHandlePacket.mk 2 "b"))] /\
     Server.in_critical_section c = true) /\
  (forallb Server.returned
     [@Server.AtMarshal (marshaler no_FileInfo)
        (MU (UData (sshFxpDataPacket.mk 1 5 [x61])));
      Server.AtLock (MHandle (sshFxpHandlePacket.mk 2 "b"))] = true ->
   Server.outMutex (Server.mk ([] : list byte) true) = false).
Proof.
  apply (ServerRunFacts.deferred_unlock_frees_the_mutex
           (H := buffer_Writer)
           (H0 := marshaler_BinaryMarshaler marshal_no_FileInfo)
           []
           [MU (UData (sshFxpDataPacket.mk 1 5 [x61]));
            MHandle (sshFxpHandlePacket.mk 2 "b")]).
  eapply Server.steps_step; [apply Server.steps_refl|].
  apply (Server.step_thread
           (H := buffer_Writer)
           (H0 := marshaler_BinaryMarshaler marshal_no_FileInfo)
           (Server.mk [] false) (Server.mk [] true)
           (Server.AtLock (MU (UData (sshFxpDataPacket.mk 1 5 [x61]))))
           (Server.AtMarshal (MU (UData (sshFxpDataPacket.mk 1 5 [x61]))))
           [] [Server.AtLock (MHandle (sshFxpHandlePacket.mk 2 "b"))]).
  reflexivity.
Defined.

Lemma senders_never_deadlock_witness :
  (1 <= 5 * 2)%nat /\
  (forallb Server.returned
     [@Server.AtMarshal (marshaler no_FileInfo)
        (MU (UData (sshFxpDataPacket.mk 1 5 [x61])));
      Server.AtLock (MHandle (sshFxpHandlePacket.mk 2 "b"))] = false ->
   exists st',
     Server.step
       (H := buffer_Writer)
       (H0 := marshaler_BinaryMarshaler marshal_no_FileInfo)
       (Server.mk ([] : list byte) true,
        [Server.AtMarshal (MU (UData (sshFxpDataPacket.mk 1 5 [x61])));
         Server.AtLock (MHandle (sshFxpHandlePacket.mk 2 "b"))])
       st').
Proof.
  apply (ServerRunFacts.senders_never_deadlock
           (H := buffer_Writer)
           (H0 := marshaler_BinaryMarshaler marshal_no_FileInfo)
           []
           [MU (UData (sshFxpDataPacket.mk 1 5 [x61]));
            MHandle (sshFxpHandlePacket.mk 2 "b")]
           1
           (Server.mk [] true,
            [Server.AtMarshal (MU (UData (sshFxpDataPacket.mk 1 5 [x61])));
             Server.AtLock (MHandle (sshFxpHandlePacket.mk 2 "b"))])).
  eapply ServerRuns.steps_n_S; [apply ServerRuns.steps_n_O|].
  apply (Server.step_thread
           (H := buffer_Writer)
           (H0 := marshaler_BinaryMarshaler marshal_no_FileInfo)
           (Server.mk [] false) (Server.mk [] true)
           (Server.AtLock (MU (UData (sshFxpDataPacket.mk 1 5 [x61]))))
           (Server.AtMarshal (MU (UData (sshFxpDataPacket.mk 1 5 [x61]))))
           [] [Server.AtLock (MHandle (sshFxpHandlePacket.mk 2 "b"))]).
  reflexivity.
Defined.

Lemma failed_responses_leave_no_bytes_witness :
  exists order,
    Permutation order
      [MU (UData (sshFxpDataPacket.mk 1 5 [x61]));
       @MHandle no_FileInfo (sshFxpHandlePacket.mk 2 "b")] /\
    [x00; x00; x00; x0a; x66; x00; x00; x00; x02; x00; x00; x00; x01; x62] =
      [] ++ List.concat
              (map (ServerRuns.written
                      (H := marshaler_BinaryMarshaler marshal_no_FileInfo))
                 order).
Proof.
  destruct (ServerRunFacts.failed_responses_leave_no_bytes
              (H := marshaler_BinaryMarshaler marshal_no_FileInfo) []
              [MU (UData (sshFxpDataPacket.mk 1 5 [x61]));
               MHandle (sshFxpHandlePacket.mk 2 "b")]
              (Server.mk
                 [x00; x00; x00; x0a;
                  x66; x00; x00; x00; x02; x00; x00; x00; x01; x62] false)
              [Server.Returned None; Server.Returned (Some None)])
    as (_ & _ & (order & Hperm & Hout) & _).
  - apply (ServerRunFacts.any_sequential_run
             (H := marshaler_BinaryMarshaler marshal_no_FileInfo)
             [MU (UData (sshFxpDataPacket.mk 1 5 [x61]));
              MHandle (sshFxpHandlePacket.mk 2 "b")] [] []).
  - reflexivity.
  - exists order. split; [exact Hperm|exact Hout].
Defined.

(** * What a decoder leaves of its receiver *)

(** X23: [unmarshalIdString] on every buffer, with the values [id0] and
    [str0] behind its two pointers. Below four bytes it sets the id to 0,
    leaves the string and returns [shortPacketError]. Otherwise it stores
    the id it read; when the string that follows is cut short it sets the
    string to the empty string and returns [shortPacketError], so that a
    failed call has overwritten both; when the string is whole it stores it
    and returns nil, whatever follows the string. *)
Theorem unmarshalIdString_on_every_buffer
  (b : list byte) (id0 : Z) (str0 : string) :
  (len b < 4 /\
   unmarshalIdString b id0 str0 = Some (0, str0, Some shortPacketError)) \/
  (exists v rest,
      b = marshalUint32 [] v ++ rest /\ is_uint32 v /\
      ((unmarshalStringSafe rest =
          Some (EmptyString, [], Some shortPacketError) /\
        unmarshalIdString b id0 str0 =
          Some (v, EmptyString, Some shortPacketError)) \/
       (exists s rest',
           rest = marshalString [] s ++ rest' /\ short_string s /\
           unmarshalIdString b id0 str0 = Some (v, s, None)))).
Proof.
  unfold unmarshalIdString.
  destruct (unmarshalUint32Safe_cases b) as [[Hb E]|(v & rest & Eb & Hv & E)];
    rewrite E; cbv beta iota zeta.
  - left. now split.
  - right. exists v, rest. split; [exact Eb|]. split; [exact Hv|].
    destruct (unmarshalStringSafe_cases rest)
      as [[_ Es]|[(n & b' & _ & _ & _ & Es)|(s & rest' & Er & Hs & Es)]];
      rewrite Es; cbv beta iota zeta.
    + left. now split.
    + left. now split.
    + right. now exists s, rest'.
Qed.

Section Receivers.

Variable FileInfo : Type.

Ltac open_decoders :=
  cbn [UnmarshalBinary] in *;
  unfold sshFxpReaddirPacket.UnmarshalBinary,
    sshFxpOpendirPacket.UnmarshalBinary, sshFxpLstatPacket.UnmarshalBinary,
    sshFxpStatPacket.UnmarshalBinary, sshFxpFstatPacket.UnmarshalBinary,
    sshFxpClosePacket.UnmarshalBinary, sshFxpRemovePacket.UnmarshalBinary,
    sshFxpRmdirPacket.UnmarshalBinary, sshFxpSymlinkPacket.UnmarshalBinary,
    sshFxpReadlinkPacket.UnmarshalBinary,
    sshFxpRealpathPacket.UnmarshalBinary, sshFxpOpenPacket.UnmarshalBinary,
    sshFxpReadPacket.UnmarshalBinary, sshFxpRenamePacket.UnmarshalBinary,
    sshFxpWritePacket.UnmarshalBinary, sshFxpMkdirPacket.UnmarshalBinary,
    sshFxpSetstatPacket.UnmarshalBinary, sshFxpFsetstatPacket.UnmarshalBinary,
    sshFxpDataPacket.UnmarshalBinary, unmarshalIdString in *.

(** One call of a checked decoder, in the hypothesis [H] that says the
    decoding succeeded and in the goal: the call succeeded. *)
Ltac same_call H :=
  match type of H with
  | context [unmarshalUint32Safe ?b] =>
      let E := fresh "E" in
      destruct (unmarshalUint32Safe_cases b) as [[_ E]|(? & ? & _ & _ & E)];
      rewrite E in H; rewrite ?E; clear E;
      cbv beta iota zeta in H; cbv beta iota zeta; fields;
      [discriminate H|]
  | context [unmarshalUint64Safe ?b] =>
      let E := fresh "E" in
      destruct (unmarshalUint64Safe_cases b) as [[_ E]|(? & ? & _ & _ & E)];
      rewrite E in H; rewrite ?E; clear E;
      cbv beta iota zeta in H; cbv beta iota zeta; fields;
      [discriminate H|]
  | context [unmarshalStringSafe ?b] =>
      let E := fresh "E" in
      destruct (unmarshalStringSafe_cases b)
        as [[_ E]|[(? & ? & _ & _ & _ & E)|(? & ? & _ & _ & E)]];
      rewrite E in H; rewrite ?E; clear E;
      cbv beta iota zeta in H; cbv beta iota zeta; fields;
      [discriminate H|discriminate H|]
  end.

(** X24: a decoding that succeeds leaves nothing of what the receiver
    held: two receivers of the same kind, fed the same buffer, end as the
    same packet, every field being overwritten. The extensions of an INIT
    packet are the exception, the decoder appends to them: there the two
    receivers must hold the same extensions. *)
Theorem successful_decode_forgets_receiver
  (u1 u2 u' : unmarshaler FileInfo) (b : list byte)
  (Hkind : zero u1 = zero u2)
  (Hext : forall p1 p2,
      u1 = UInit p1 -> u2 = UInit p2 ->
      sshFxInitPacket.Extensions p1 = sshFxInitPacket.Extensions p2)
  (Hdec : UnmarshalBinary u1 b = Some (u', None)) :
  UnmarshalBinary u2 b = Some (u', None).
Proof.
  destruct u1 as [p|p|p|p|p|p|p|p|p|p|p|p|p|p|p|p|p|p|p|p];
    destruct u2 as [q|q|q|q|q|q|q|q|q|q|q|q|q|q|q|q|q|q|q|q];
    try discriminate Hkind; clear Hkind.
  { (* INIT *)
    specialize (Hext p q eq_refl eq_refl).
    destruct p as [ver1 old1], q as [ver2 old2]. cbn in Hext. subst old2.
    destruct (Init_UnmarshalBinary_spec b) as (v & es & err & H & _).
    cbn [UnmarshalBinary] in *. rewrite H in *. exact Hdec. }
  all: clear Hext; destruct p, q; open_decoders; repeat same_call Hdec;
    try exact Hdec.
  - (* WRITE *)
    match type of Hdec with
    | context [uint32 (len ?r) <? ?n] =>
        destruct (uint32 (len r) <? n); [discriminate Hdec|];
        destruct (slice_to r n); exact Hdec
    end.
  - (* DATA *)
    match type of Hdec with
    | context [uint32 (len ?r) <? ?n] =>
        destruct (uint32 (len r) <? n); [discriminate Hdec|exact Hdec]
    end.
Qed.

End Receivers.

Lemma successful_decode_forgets_receiver_witness :
  UnmarshalBinary
    (@UMkdir no_FileInfo (sshFxpMkdirPacket.mk 0 EmptyString 0))
    [x00; x00; x00; x01; x00; x00; x00; x02; x2f; x64; x00; x00; x01; xed] =
    Some (UMkdir (sshFxpMkdirPacket.mk 1 "/d" 493), None).
Proof.
  apply (successful_decode_forgets_receiver no_FileInfo
           (UMkdir (sshFxpMkdirPacket.mk 9 "old" 7))
           (UMkdir (sshFxpMkdirPacket.mk 0 EmptyString 0))
           (UMkdir (sshFxpMkdirPacket.mk 1 "/d" 493))
           [x00; x00; x00; x01; x00; x00; x00; x02; x2f; x64;
            x00; x00; x01; xed]).
  - reflexivity.
  - intros p1 p2 E. discriminate E.
  - reflexivity.
Defined.

Section ByteSlices.

Variable FileInfo : Type.
Variable marshalFileInfo : list byte -> FileInfo -> list byte.

(** X25: [marshal] writes a byte slice raw, one byte for each element
    through the reflection on slices and no length before them, whereas
    the same bytes held as a string get their length in four bytes first:
    the two encodings of the same content differ by that prefix. *)
Theorem byte_slice_is_marshalled_raw (b content : list byte) :
  marshal marshalFileInfo b (VBytes content) = Some (b ++ content) /\
  marshal marshalFileInfo b (VString (string_of_list_byte content)) =
    Some (b ++ marshalUint32 [] (uint32 (len content)) ++ content).
Proof.
  split; [apply marshal_VBytes|].
  cbn [marshal]. unfold marshalString.
  rewrite strlen_string_of_list_byte, list_byte_of_string_of_list_byte.
  rewrite marshalUint32_app. now rewrite <- app_assoc.
Qed.

End ByteSlices.

Module LoneCall.
Import Server ServerFacts.

Section AnyWriter.

Context {W : Type} `{io.Writer W}.
Context {M : Type} `{encoding.BinaryMarshaler M}.

Lemma thread_run_add (n k : nat) (svr : @t W) (c : @pc M) :
  thread_run (n + k) svr c =
    thread_run k (fst (thread_run n svr c)) (snd (thread_run n svr c)).
Proof.
  revert svr c. induction n as [|n IH]; intros svr c; [reflexivity|].
  cbn [Nat.add thread_run].
  destruct (thread_step svr c) as [[svr' c']|] eqn:E; [apply IH|].
  cbn [fst snd]. destruct k; [reflexivity|]. cbn [thread_run]. now rewrite E.
Qed.

Lemma thread_run_returned (k : nat) (svr : @t W) (r : option (option error)) :
  thread_run k svr (@Returned M r) = (svr, Returned r).
Proof. destruct k; reflexivity. Qed.

(** X26: a goroutine that runs [svr.sendPacket(m)] alone, from a free
    mutex, with any writer and any response: after five steps, and after
    any number of steps beyond, it has returned what [sendPacket(svr.out,
    m)] returns, the output is the writer that call leaves, and the mutex
    is free again; when [sendPacket] panics the call ends in the panic,
    the output is untouched and the mutex is free all the same. *)
Theorem lone_call_is_sendPacket (w : W) (m : M) (n : nat)
  (Hn : (5 <= n)%nat) :
  thread_run n (mk w false) (AtLock m) =
    match sendPacket w m with
    | Some (w', err) => (mk w' false, Returned (Some err))
    | None => (mk w false, Returned None)
    end.
Proof.
  replace n with (5 + (n - 5))%nat by lia.
  rewrite thread_run_add, thread_run_sendPacket.
  destruct (sendPacket w m) as [[w' err]|]; cbn [fst snd];
    apply thread_run_returned.
Qed.

End AnyWriter.
End LoneCall.

Lemma lone_call_is_sendPacket_witness :
  Server.thread_run (H := buffer_Writer)
    (H0 := sshFxpHandlePacket.MarshalBinary) 7
    (Server.mk [xff] false) (Server.AtLock (sshFxpHandlePacket.mk 1 "a")) =
    (Server.mk
       [xff; x00; x00; x00; x0a;
        x66; x00; x00; x00; x01; x00; x00; x00; x01; x61] false,
     Server.Returned (Some None)).
Proof.
  apply (LoneCall.lone_call_is_sendPacket
           (H := buffer_Writer) (H0 := sshFxpHandlePacket.MarshalBinary)
           [xff] (sshFxpHandlePacket.mk 1 "a") 7).
  lia.
Defined.
